(** * funcdiff: the declaration diff engine and its report renderer

    A shallow embedding of [main.go]: the inventory of function
    declarations ([FuncSet]), the classification loop [diffFuncs], the
    text helpers ([extractLines], [normalizeBody]) and the Markdown
    renderer, followed by the properties the design document states
    about them.

    Conventions of the embedding.
    - A Go [string] is a sequence of bytes: Rocq's [string] (a list of
      8-bit [ascii]).
    - A Go [int] is a 64-bit signed integer, embedded in [Z]; the only
      arithmetic that can leave the range is the counter increment
      [x++], written [int_incr] with its wrap-around.
    - [map[FuncKey]*FuncInfo] is a [gmap FuncKey FuncInfo]. The records
      are never mutated after they are stored, so the pointer is
      modelled by the record it points to (a nil entry is never stored
      by [collectFuncs]).
    - [for k, v := range m] visits the entries of [m] in an order the
      language leaves unspecified: the loops take the visiting order as
      an explicit list, constrained only by [ranges].
    - A run-time panic is the [None] of an [option]. *)

From Stdlib Require Import ZArith Lia Ascii.
From stdpp Require Import base option list gmap strings sorting pretty fin_maps.

Local Open Scope string_scope.
Local Open Scope list_scope.
Local Open Scope Z_scope.

(** ** Data model *)

Record FuncInfo := mkFuncInfo {
  Package : string;
  File : string;
  Name : string;
  Receiver : string;
  Signature : string;
  Exported : bool;
  StartLine : Z;
  EndLine : Z;
  LineCount : Z
}.

Record FuncKey := mkFuncKey {
  kPackage : string;
  kReceiver : string;
  kName : string
}.

Global Instance FuncKey_eq_dec : EqDecision FuncKey.
Proof. solve_decision. Defined.

Global Instance FuncInfo_eq_dec : EqDecision FuncInfo.
Proof. solve_decision. Defined.

Definition FuncKey_to_tuple (k : FuncKey) : string * string * string :=
  (kPackage k, kReceiver k, kName k).

Definition FuncKey_of_tuple (t : string * string * string) : FuncKey :=
  mkFuncKey t.1.1 t.1.2 t.2.

Global Instance FuncKey_countable : Countable FuncKey.
Proof.
  apply (inj_countable' FuncKey_to_tuple FuncKey_of_tuple).
  by intros [].
Defined.

Abbreviation FuncSet := (gmap FuncKey FuncInfo).

Record PackageStats := mkPackageStats {
  New : Z;
  Removed : Z;
  Changed : Z
}.

Record DiffResult := mkDiffResult {
  NewFuncs : list FuncInfo;
  RemovedFuncs : list FuncInfo;
  ChangedFuncs : list (FuncInfo * FuncInfo);
  FromTotal : Z;
  ToTotal : Z;
  PkgStats : gmap string PackageStats
}.

(** The key under which [collectFuncs] stores a record (main.go, lines
    191-208: the key and the record are filled from the same three
    values). *)
Definition keyOf (f : FuncInfo) : FuncKey :=
  mkFuncKey (Package f) (Receiver f) (Name f).

(** [funcs[key] = info] as [collectFuncs] performs it. *)
Definition addFunc (info : FuncInfo) (funcs : FuncSet) : FuncSet :=
  <[keyOf info := info]> funcs.

(** An inventory: every record sits under its own identity key. *)
Definition Inventory (m : FuncSet) : Prop :=
  map_Forall (λ k f, keyOf f = k) m.

(** A visiting order of [range m]. *)
Definition ranges (m : FuncSet) (order : list (FuncKey * FuncInfo)) : Prop :=
  order ≡ₚ map_to_list m.

(** ** Machine integers *)

Definition int_wrap (z : Z) : Z := (z + 2 ^ 63) `mod` 2 ^ 64 - 2 ^ 63.

Definition int_incr (z : Z) : Z := int_wrap (z + 1).

Definition MaxInt : Z := 2 ^ 63 - 1.

(** ** The diff engine (main.go, [diffFuncs]) *)

Definition zeroStats : PackageStats := mkPackageStats 0 0 0.

(** The closure [getStats]: the entry of [pkg], created zeroed when
    missing. It returns a pointer into the map; the caller's [++] on a
    field is the write-back done by the three functions below. *)
Definition getStats (pkg : string) (stats : gmap string PackageStats)
    : PackageStats * gmap string PackageStats :=
  match stats !! pkg with
  | Some s => (s, stats)
  | None => (zeroStats, <[pkg := zeroStats]> stats)
  end.

(** [getStats(pkg).field++] and the like: the entry is fetched (or
    created) and rewritten in place. *)
Definition updateStats (upd : PackageStats → PackageStats) (pkg : string)
    (stats : gmap string PackageStats) : gmap string PackageStats :=
  let '(s, stats') := getStats pkg stats in <[pkg := upd s]> stats'.

Definition incrNew : string → gmap string PackageStats → gmap string PackageStats :=
  updateStats (λ s, mkPackageStats (int_incr (New s)) (Removed s) (Changed s)).

Definition incrRemoved : string → gmap string PackageStats → gmap string PackageStats :=
  updateStats (λ s, mkPackageStats (New s) (int_incr (Removed s)) (Changed s)).

Definition incrChanged : string → gmap string PackageStats → gmap string PackageStats :=
  updateStats (λ s, mkPackageStats (New s) (Removed s) (int_incr (Changed s))).

(** The condition of lines 340-343. *)
Definition differs (fromInfo toInfo : FuncInfo) : bool :=
  negb (String.eqb (Signature fromInfo) (Signature toInfo))
  || negb (String.eqb (File fromInfo) (File toInfo))
  || negb (Z.eqb (StartLine fromInfo) (StartLine toInfo))
  || negb (Z.eqb (EndLine fromInfo) (EndLine toInfo)).

(** One iteration of the first loop (lines 331-347). *)
Definition stepFrom (to : FuncSet) (result : DiffResult)
    (entry : FuncKey * FuncInfo) : DiffResult :=
  let '(key, fromInfo) := entry in
  match to !! key with
  | None =>
      mkDiffResult (NewFuncs result ++ [fromInfo]) (RemovedFuncs result)
        (ChangedFuncs result) (FromTotal result) (ToTotal result)
        (incrNew (Package fromInfo) (PkgStats result))
  | Some toInfo =>
      if differs fromInfo toInfo then
        mkDiffResult (NewFuncs result) (RemovedFuncs result)
          (ChangedFuncs result ++ [(fromInfo, toInfo)])
          (FromTotal result) (ToTotal result)
          (incrChanged (Package fromInfo) (PkgStats result))
      else result
  end.

(** One iteration of the second loop (lines 350-355). *)
Definition stepTo (from : FuncSet) (result : DiffResult)
    (entry : FuncKey * FuncInfo) : DiffResult :=
  let '(key, toInfo) := entry in
  match from !! key with
  | None =>
      mkDiffResult (NewFuncs result) (RemovedFuncs result ++ [toInfo])
        (ChangedFuncs result) (FromTotal result) (ToTotal result)
        (incrRemoved (Package toInfo) (PkgStats result))
  | Some _ => result
  end.

(** [diffFuncs] for given visiting orders of the two [range] loops. *)
Definition diffFuncsIn (fromOrder toOrder : list (FuncKey * FuncInfo))
    (from to : FuncSet) : DiffResult :=
  let result :=
    mkDiffResult [] [] [] (Z.of_nat (size from)) (Z.of_nat (size to)) ∅ in
  let result := foldl (stepFrom to) result fromOrder in
  foldl (stepTo from) result toOrder.

(** [diffFuncs] with the visiting order of [map_to_list]. *)
Definition diffFuncs (from to : FuncSet) : DiffResult :=
  diffFuncsIn (map_to_list from) (map_to_list to) from to.

(** Identity keys of a list of records, and of the changed pairs (the
    key of a pair is that of its from-side record). *)
Definition keySet (l : list FuncInfo) : gset FuncKey :=
  list_to_set (keyOf <$> l).

Definition pairKeySet (l : list (FuncInfo * FuncInfo)) : gset FuncKey :=
  list_to_set ((keyOf ∘ fst) <$> l).

(** The four change-sensitive fields agree. *)
Definition sameShape (f t : FuncInfo) : Prop :=
  Signature f = Signature t ∧ File f = File t ∧
  StartLine f = StartLine t ∧ EndLine f = EndLine t.

(** A key is unchanged: present on both sides with the same shape. *)
Definition unchangedKey (from to : FuncSet) (k : FuncKey) : Prop :=
  ∃ f t, from !! k = Some f ∧ to !! k = Some t ∧ sameShape f t.

Definition exactlyOne (A B C D : Prop) : Prop :=
  (A ∧ ¬ B ∧ ¬ C ∧ ¬ D) ∨ (¬ A ∧ B ∧ ¬ C ∧ ¬ D) ∨
  (¬ A ∧ ¬ B ∧ C ∧ ¬ D) ∨ (¬ A ∧ ¬ B ∧ ¬ C ∧ D).

(** Number of records of a package in a list. *)
Definition countPkg (pkg : string) (l : list FuncInfo) : Z :=
  Z.of_nat (length (filter (λ f, Package f = pkg) l)).

(** Reading a counter of a package off the statistics; a package with
    no entry is not listed, its counts are zero. *)
Definition statOf (field : PackageStats → Z) (pkg : string)
    (stats : gmap string PackageStats) : Z :=
  field (default zeroStats (stats !! pkg)).

(** A counter summed over all the packages of the statistics. *)
Definition sumStats (field : PackageStats → Z)
    (stats : gmap string PackageStats) : Z :=
  map_fold (λ _ s acc, field s + acc) 0 stats.

(** The statistics of a partial result agree with its three lists: per
    package and in total. *)
Definition statsMatch (r : DiffResult) : Prop :=
  (∀ pkg, statOf New pkg (PkgStats r) = countPkg pkg (NewFuncs r)) ∧
  (∀ pkg, statOf Changed pkg (PkgStats r)
          = countPkg pkg ((ChangedFuncs r).*1)) ∧
  (∀ pkg, statOf Removed pkg (PkgStats r) = countPkg pkg (RemovedFuncs r)) ∧
  sumStats New (PkgStats r) = Z.of_nat (length (NewFuncs r)) ∧
  sumStats Changed (PkgStats r) = Z.of_nat (length (ChangedFuncs r)) ∧
  sumStats Removed (PkgStats r) = Z.of_nat (length (RemovedFuncs r)).

(** What an iteration appends: the record of an entry whose key is
    absent from the other inventory ... *)
Definition pickAbsent (other : FuncSet) (entry : FuncKey * FuncInfo)
    : option FuncInfo :=
  match other !! entry.1 with None => Some entry.2 | Some _ => None end.

(** ... and the pair of an entry whose shape differs on the other side. *)
Definition pickChanged (to : FuncSet) (entry : FuncKey * FuncInfo)
    : option (FuncInfo * FuncInfo) :=
  match to !! entry.1 with
  | Some toInfo =>
      if differs entry.2 toInfo then Some (entry.2, toInfo) else None
  | None => None
  end.

(** Two small inventories, after the examples of the design document:
    [F] changes its signature, the method [M] exists only on the from side,
    [G] is the same on both sides and [Old] exists only on the to side. *)
Definition sampleF : FuncInfo :=
  mkFuncInfo "a" "a.go" "F" "" "(x int)" true 1 3 3.
Definition sampleF2 : FuncInfo :=
  mkFuncInfo "a" "a.go" "F" "" "(x int, y int)" true 1 3 3.
Definition sampleM : FuncInfo :=
  mkFuncInfo "b" "b.go" "M" "*T" "()" true 5 9 5.
Definition sampleG : FuncInfo :=
  mkFuncInfo "a" "a.go" "G" "" "() error" true 5 8 4.
Definition sampleOld : FuncInfo :=
  mkFuncInfo "c" "c.go" "Old" "" "()" true 2 4 3.

Definition sampleFrom : FuncSet :=
  addFunc sampleF (addFunc sampleM (addFunc sampleG ∅)).
Definition sampleTo : FuncSet :=
  addFunc sampleF2 (addFunc sampleG (addFunc sampleOld ∅)).

(** ** Text helpers: the parts of Go's [strings] package that are used *)

Definition LF : ascii := "010"%char.
Definition CR : ascii := "013"%char.
Definition TAB : ascii := "009"%char.
Definition SP : ascii := " "%char.

Definition nl : string := String LF "".
Definition cr : string := String CR "".
Definition crlf : string := String CR (String LF "").
Definition spaceTab : string := String SP (String TAB "").

(** The scan of [strings.ReplaceAll]: matches of [old] are found from
    left to right and do not overlap; [skip] counts the bytes of the
    current match that are still to be passed over. *)
Fixpoint replaceFrom (old new : string) (skip : nat) (s : string) : string :=
  match s with
  | "" => ""
  | String c s' =>
      match skip with
      | S k => replaceFrom old new k s'
      | O =>
          if String.prefix old s
          then new +:+ replaceFrom old new (Nat.pred (String.length old)) s'
          else String c (replaceFrom old new O s')
      end
  end.

(** [strings.ReplaceAll(s, old, new)] for a non-empty [old] (every call
    of the program passes a literal of one or two bytes). *)
Definition ReplaceAll (s old new : string) : string := replaceFrom old new O s.

(** [strings.Split(s, sep)] for a separator of one byte. The result is
    never empty: the empty string splits into one empty field. *)
Fixpoint Split (s : string) (sep : ascii) : list string :=
  match s with
  | "" => [""]
  | String c s' =>
      if Ascii.eqb c sep then "" :: Split s' sep
      else match Split s' sep with
           | field :: fields => String c field :: fields
           | [] => [String c ""]
           end
  end.

(** [strings.Join(elems, sep)]. *)
Fixpoint Join (elems : list string) (sep : string) : string :=
  match elems with
  | [] => ""
  | x :: rest =>
      match rest with
      | [] => x
      | _ :: _ => x +:+ sep +:+ Join rest sep
      end
  end.

Fixpoint inCutset (c : ascii) (cutset : string) : bool :=
  match cutset with
  | "" => false
  | String d cutset' => Ascii.eqb c d || inCutset c cutset'
  end.

(** [strings.TrimRight(s, cutset)] for an ASCII cutset: the longest
    suffix made of bytes of the cutset is removed. *)
Fixpoint TrimRight (s cutset : string) : string :=
  match s with
  | "" => ""
  | String c s' =>
      match TrimRight s' cutset with
      | "" => if inCutset c cutset then "" else String c ""
      | String d r => String c (String d r)
      end
  end.

(** The table [asciiSpace] of package [strings]: tab, line feed,
    vertical tab, form feed, carriage return and space. *)
Definition asciiSpace (c : ascii) : bool :=
  let n := N_of_ascii c in ((9 <=? n) && (n <=? 13))%N || (n =? 32)%N.

(** A two-byte UTF-8 sequence of a white-space rune: U+0085, U+00A0. *)
Definition space2 (c1 c2 : ascii) : bool :=
  let a := N_of_ascii c1 in let b := N_of_ascii c2 in
  ((a =? 194) && ((b =? 133) || (b =? 160)))%N.

(** A three-byte UTF-8 sequence of a white-space rune: U+1680,
    U+2000..U+200A, U+2028, U+2029, U+202F, U+205F, U+3000. *)
Definition space3 (c1 c2 c3 : ascii) : bool :=
  let a := N_of_ascii c1 in let b := N_of_ascii c2 in
  let c := N_of_ascii c3 in
  (((a =? 225) && (b =? 154) && (c =? 128))
   || ((a =? 226) && (b =? 128) &&
       (((128 <=? c) && (c <=? 138)) || (c =? 168) || (c =? 169) || (c =? 175)))
   || ((a =? 226) && (b =? 129) && (c =? 159))
   || ((a =? 227) && (b =? 128) && (c =? 128)))%N.

(** [strings.TrimSpace(s) == ""], the only way the program uses
    [TrimSpace]: the string is a sequence of white-space runes
    ([unicode.IsSpace]), each in its UTF-8 encoding; a byte that does not
    start such a sequence decodes to a rune that is kept. *)
Fixpoint TrimSpace_empty (s : string) : bool :=
  match s with
  | "" => true
  | String c1 s1 =>
      if asciiSpace c1 then TrimSpace_empty s1
      else match s1 with
           | "" => false
           | String c2 s2 =>
               if space2 c1 c2 then TrimSpace_empty s2
               else match s2 with
                    | "" => false
                    | String c3 s3 =>
                        if space3 c1 c2 c3 then TrimSpace_empty s3 else false
                    end
           end
  end.

(** The byte [c] occurs in [s]. *)
Fixpoint containsByte (s : string) (c : ascii) : bool :=
  match s with
  | "" => false
  | String a s' => Ascii.eqb a c || containsByte s' c
  end.

(** The slice expression [l[lo:hi]]; out of range it panics. *)
Definition slice {A : Type} (l : list A) (lo hi : Z) : option (list A) :=
  if bool_decide (0 ≤ lo ∧ lo ≤ hi ∧ hi ≤ Z.of_nat (length l))
  then Some (take (Z.to_nat (hi - lo)) (drop (Z.to_nat lo) l))
  else None.

(** [extractLines] (main.go, lines 493-511). [startLine - 1] is computed
    only once [startLine >= 1] holds, so it cannot wrap. *)
Definition extractLines (src : string) (startLine endLine : Z) : option string :=
  let lines := Split src LF in
  let len := Z.of_nat (length lines) in
  if len =? 0 then Some ""
  else
    let startLine := if startLine <? 1 then 1 else startLine in
    let endLine := if endLine >? len then len else endLine in
    if startLine >? endLine then Some ""
    else
      picked ← slice lines (startLine - 1) endLine;
      Some (Join picked nl).

(** The first trimming loop of [normalizeBody] (lines 746-748). *)
Fixpoint dropLeadingBlank (lines : list string) : list string :=
  match lines with
  | [] => []
  | line :: rest =>
      if TrimSpace_empty line then dropLeadingBlank rest else line :: rest
  end.

(** The second trimming loop (lines 749-751): the blank lines at the end
    are removed, one at a time from the last. *)
Fixpoint dropTrailingBlank (lines : list string) : list string :=
  match lines with
  | [] => []
  | line :: rest =>
      match dropTrailingBlank rest with
      | [] => if TrimSpace_empty line then [] else [line]
      | kept :: more => line :: kept :: more
      end
  end.

(** The first two statements of [normalizeBody]. *)
Definition unifyLineEndings (s : string) : string :=
  ReplaceAll (ReplaceAll s crlf nl) cr nl.

(** [normalizeBody] (main.go, lines 732-754). *)
Definition normalizeBody (s : string) : string :=
  let s := unifyLineEndings s in
  let lines := Split s LF in
  let lines := (λ line, TrimRight line spaceTab) <$> lines in
  let lines := dropLeadingBlank lines in
  let lines := dropTrailingBlank lines in
  Join lines nl.

(** ** The identical-body requirement, in the words of the design document

    The definitions of this part are not taken from the program. They
    say what the design document means by two body texts that are
    identical except for trailing white space on their lines and the
    style of their line endings; the program's [normalizeBody] is
    compared with them. *)

(** The lines of a text, read from left to right: a line ends at a
    CR LF pair, at a lone CR or at a lone LF, and what follows the last
    line ending is the last line. *)
Fixpoint textLines (s : string) : list string :=
  match s with
  | "" => [""]
  | String c rest =>
      if Ascii.eqb c LF then "" :: textLines rest
      else if Ascii.eqb c CR then
        match rest with
        | String d rest' =>
            if Ascii.eqb d LF then "" :: textLines rest'
            else "" :: textLines rest
        | "" => "" :: textLines rest
        end
      else
        match textLines rest with
        | line :: lines => String c line :: lines
        | [] => [String c ""]
        end
  end.

(** Every byte of [s] is white space, for the class [ws] of white-space
    bytes. *)
Fixpoint allOf (ws : ascii → bool) (s : string) : bool :=
  match s with
  | "" => true
  | String c rest => ws c && allOf ws rest
  end.

(** A line without its trailing white space: the line up to the point
    after which only white space follows. *)
Fixpoint withoutTrailing (ws : ascii → bool) (line : string) : string :=
  match line with
  | "" => ""
  | String c rest =>
      if allOf ws line then "" else String c (withoutTrailing ws rest)
  end.

(** Two texts are identical except for trailing white space on their
    lines and the style of their line endings: they have the same
    lines, up to the white space that ends each line. *)
Definition sameUpToLineStyle (ws : ascii → bool) (a b : string) : Prop :=
  withoutTrailing ws <$> textLines a = withoutTrailing ws <$> textLines b.

(** The narrow class of white space: the space and the tab. The wide
    class is [asciiSpace], which also has the vertical tab and the form
    feed. *)
Definition isSpaceOrTab (c : ascii) : bool := Ascii.eqb c SP || Ascii.eqb c TAB.

(** ** The report renderer *)

(** The bytes of the three non-ASCII runes of the format strings. *)
Definition arrow : string := String "226" (String "134" (String "146" "")).
Definition enDash : string := String "226" (String "128" (String "147" "")).
Definition emDash : string := String "226" (String "128" (String "148" "")).

(** [%d] of a Go [int]. *)
Definition fmtInt (z : Z) : string := pretty z.

(** What the renderer asks of its surroundings, over a state [W] of the
    outside world (file system, repository). Errors are the text of the
    Go [error]; [None] is the nil error. [hashHex] is the [%x] of the
    first six bytes of the SHA-1 sum of a text, [pathJoin] is
    [filepath.Join]. Warnings sent to the standard error stream are
    not part of the model. *)
Record Sys (W : Type) := mkSys {
  gitShowFile : string → string → W → option string;
  MkdirAll : string → W → W * option string;
  WriteFile : string → string → W → W * option string;
  pathJoin : string → string → string;
  hashHex : string → string
}.

Arguments gitShowFile {W}.
Arguments MkdirAll {W}.
Arguments WriteFile {W}.
Arguments pathJoin {W}.
Arguments hashHex {W}.

(** [sort.Strings]: bytewise lexicographic order. *)
Definition sortStrings (l : list string) : list string :=
  merge_sort (λ a b, Is_true (String.leb a b)) l.

(** The [less] function of [printFuncListByPackage] (lines 462-467). *)
Definition lessRecvName (a b : FuncInfo) : bool :=
  if String.eqb (Receiver a) (Receiver b)
  then String.ltb (Name a) (Name b)
  else String.ltb (Receiver a) (Receiver b).

(** [sort.Slice] with [lessRecvName]. Records that neither precedes the
    other keep their order here; the library leaves it unspecified. *)
Definition sortByRecvName (l : list FuncInfo) : list FuncInfo :=
  merge_sort (λ a b, Is_true (negb (lessRecvName b a))) l.

(** The qualified name shown in listings and artifact titles. *)
Definition fullNameOf (f : FuncInfo) : string :=
  if String.eqb (Receiver f) "" then Name f
  else "(" +:+ Receiver f +:+ ")." +:+ Name f.

(** [formatFuncHeader] (lines 483-490). *)
Definition formatFuncHeader (info : FuncInfo) : string :=
  let recvPart :=
    if String.eqb (Receiver info) "" then ""
    else "(" +:+ Receiver info +:+ ") " in
  "func " +:+ recvPart +:+ Name info +:+ Signature info.

(** The local [safePath] of [changedFuncFilenameWithRecv] (line 686). *)
Definition safePathOf (info : FuncInfo) : string :=
  ReplaceAll (ReplaceAll (File info) "/" "_") "\" "_".

(** The receiver as it enters the file name (line 689). *)
Definition safeRecvOf (info : FuncInfo) : string :=
  ReplaceAll (Receiver info) "*" "ptr".

(** [changedFuncFilenameWithRecv] (lines 685-693). *)
Definition changedFuncFilenameWithRecv (info : FuncInfo) : string :=
  let safePath := safePathOf info in
  let recv := Receiver info in
  if negb (String.eqb recv "") then
    let recv := safeRecvOf info in
    safePath +:+ "__" +:+ recv +:+ "__" +:+ Name info +:+ ".md"
  else safePath +:+ "__" +:+ Name info +:+ ".md".

(** Line 621. *)
Definition isIdenticalBody (fromBody toBody : string) : bool :=
  let nf := normalizeBody fromBody in
  let nt := normalizeBody toBody in
  negb (String.eqb nf "") && String.eqb nf nt.

(** Lines 623-629: the base name of the artifact. *)
Definition changedFuncBaseName (fromInfo : FuncInfo)
    (fromBody toBody : string) : string :=
  let baseName := changedFuncFilenameWithRecv fromInfo in
  if isIdenticalBody fromBody toBody then "identical_" +:+ baseName
  else baseName.

(** One side of the artifact (lines 640-648 and 651-659). *)
Definition sideSection (ref : string) (info : FuncInfo) (body : string)
    : string :=
  "#### " +:+ ref +:+ nl +:+ nl +:+
  "```go" +:+ nl +:+ formatFuncHeader info +:+ nl +:+ "```" +:+ nl +:+
  "- file: `" +:+ File info +:+ "`" +:+ nl +:+
  "- lines: " +:+ fmtInt (StartLine info) +:+ enDash +:+
    fmtInt (EndLine info) +:+ " (" +:+ fmtInt (LineCount info) +:+ " LOC)"
    +:+ nl +:+ nl +:+
  (if negb (TrimSpace_empty body)
   then "```go" +:+ nl +:+ body +:+ nl +:+ "```" +:+ nl +:+ nl
   else "_function body unavailable_" +:+ nl +:+ nl).

(** Lines 661-666. *)
Definition signatureNote (fromRef toRef : string) (fromInfo toInfo : FuncInfo)
    : string :=
  if negb (String.eqb (Signature fromInfo) (Signature toInfo)) then
    "#### Signature Change" +:+ nl +:+ nl +:+
    "- " +:+ fromRef +:+ ": `" +:+ Signature fromInfo +:+ "`" +:+ nl +:+
    "- " +:+ toRef +:+ ": `" +:+ Signature toInfo +:+ "`" +:+ nl +:+ nl
  else "".

(** The callout of line 670. *)
Definition identicalNote (fromRef toRef : string) : string :=
  "> Note: function bodies are identical between `" +:+ fromRef +:+
  "` and `" +:+ toRef +:+ "`." +:+ nl +:+ nl.

(** The text of the artifact before its hash line (lines 632-671). *)
Definition changedFuncText (fromRef toRef : string)
    (fromInfo toInfo : FuncInfo) (fromBody toBody : string) : string :=
  "### " +:+ fullNameOf fromInfo +:+ " " +:+ emDash +:+ " `" +:+
    File fromInfo +:+ "`" +:+ nl +:+ nl +:+
  sideSection fromRef fromInfo fromBody +:+
  sideSection toRef toInfo toBody +:+
  signatureNote fromRef toRef fromInfo toInfo +:+
  (if isIdenticalBody fromBody toBody then identicalNote fromRef toRef
   else "").

Section Renderer.
Context {W : Type} (sys : Sys W).

(** Lines 673-675: the hash of the text so far is appended to it. *)
Definition changedFuncContent (fromRef toRef : string)
    (fromInfo toInfo : FuncInfo) (fromBody toBody : string) : string :=
  let text := changedFuncText fromRef toRef fromInfo toInfo fromBody toBody in
  text +:+ "_report hash: " +:+ hashHex sys text +:+ "_" +:+ nl.

(** Lines 612-617: a body that cannot be retrieved is the empty
    text. [None] is a panic of [extractLines]. *)
Definition loadBody (ref : string) (info : FuncInfo) (w : W)
    : option string :=
  match gitShowFile sys ref (File info) w with
  | Some src => extractLines src (StartLine info) (EndLine info)
  | None => Some ""
  end.

(** [writeChangedFuncFile] (lines 601-683): the new state of the
    world, the returned name and the returned error. *)
Definition writeChangedFuncFile (outDir fromRef toRef : string)
    (fromInfo toInfo : FuncInfo) (w : W)
    : option (W * (string * option string)) :=
  if String.eqb outDir "" then Some (w, ("", None))
  else
    let '(w, err) := MkdirAll sys outDir w in
    match err with
    | Some msg => Some (w, ("", Some ("create out dir: " +:+ msg)))
    | None =>
        fromBody ← loadBody fromRef fromInfo w;
        toBody ← loadBody toRef toInfo w;
        let baseName := changedFuncBaseName fromInfo fromBody toBody in
        let content :=
          changedFuncContent fromRef toRef fromInfo toInfo fromBody toBody in
        let path := pathJoin sys outDir baseName in
        let '(w, err) := WriteFile sys path content w in
        match err with
        | Some msg =>
            Some (w, ("", Some ("write " +:+ path +:+ ": " +:+ msg)))
        | None => Some (w, (baseName, None))
        end
    end.

(** The loop of [writeAllChangedFuncFiles] (lines 705-716). *)
Fixpoint writeChangedLoop (outDir fromRef toRef : string)
    (changed : list (FuncInfo * FuncInfo)) (files : list string) (w : W)
    : option (W * list string) :=
  match changed with
  | [] => Some (w, files)
  | (fromInfo, toInfo) :: rest =>
      '(w, (name, err)) ← writeChangedFuncFile outDir fromRef toRef
                            fromInfo toInfo w;
      match err with
      | Some _ => writeChangedLoop outDir fromRef toRef rest files w
      | None =>
          if negb (String.eqb name "")
          then writeChangedLoop outDir fromRef toRef rest (files ++ [name]) w
          else writeChangedLoop outDir fromRef toRef rest files w
      end
  end.

(** [writeAllChangedFuncFiles] (lines 695-718). *)
Definition writeAllChangedFuncFiles (outDir fromRef toRef : string)
    (changed : list (FuncInfo * FuncInfo)) (w : W)
    : option (W * list string) :=
  if String.eqb outDir "" then Some (w, [])
  else
    let '(w, err) := MkdirAll sys outDir w in
    match err with
    | Some _ => Some (w, [])
    | None => writeChangedLoop outDir fromRef toRef changed [] w
    end.

(** [addChangedFilesIndex] (lines 720-730): the text it appends. *)
Definition addChangedFilesIndex (outDir : string) (files : list string)
    : string :=
  if String.eqb outDir "" || bool_decide (files = []) then ""
  else
    "Per-function reports (Markdown files) written to `" +:+ outDir +:+
      "`:" +:+ nl +:+ nl +:+
    String.concat ""
      ((λ f, "- `" +:+ outDir +:+ "/" +:+ f +:+ "`" +:+ nl)
         <$> sortStrings files) +:+
    nl.

(** One entry of a listing (lines 470-477). *)
Definition listEntry (f : FuncInfo) : string :=
  "  - `" +:+ fullNameOf f +:+ "`" +:+ nl +:+
  "    - signature: `" +:+ Signature f +:+ "`" +:+ nl +:+
  "    - file: `" +:+ File f +:+ "` (lines " +:+ fmtInt (StartLine f) +:+
    enDash +:+ fmtInt (EndLine f) +:+ ", " +:+ fmtInt (LineCount f) +:+
    " LOC)" +:+ nl.

(** [printFuncListByPackage] (lines 443-481): the text it appends. The
    packages are the keys of [pkgMap]; sorted, they do not depend on
    the order in which the map is visited. *)
Definition printFuncListByPackage (funcs : list FuncInfo) : string :=
  let pkgs := sortStrings (remove_dups (Package <$> funcs)) in
  String.concat ""
    ((λ pkg,
        let list := filter (λ f, Package f = pkg) funcs in
        "- `" +:+ pkg +:+ "`" +:+ nl +:+
        String.concat "" (listEntry <$> sortByRecvName list) +:+ nl)
       <$> pkgs).

(** The rows of the per-package table (lines 382-391). *)
Definition packageRows (stats : gmap string PackageStats) : string :=
  let pkgs := sortStrings ((map_to_list stats).*1) in
  String.concat ""
    ((λ pkg,
        let s := default zeroStats (stats !! pkg) in
        "| `" +:+ pkg +:+ "` | " +:+ fmtInt (New s) +:+ " | " +:+
          fmtInt (Removed s) +:+ " | " +:+ fmtInt (Changed s) +:+ " |" +:+ nl)
       <$> pkgs).

(** One row of the table (line 390): a package with its counters. *)
Definition packageRow (row : string * PackageStats) : string :=
  "| `" +:+ row.1 +:+ "` | " +:+ fmtInt (New row.2) +:+ " | " +:+
    fmtInt (Removed row.2) +:+ " | " +:+ fmtInt (Changed row.2) +:+ " |" +:+ nl.

(** The header, the summary and the table (lines 365-392). *)
Definition reportHead (fromRef toRef : string) (diff : DiffResult) : string :=
  "### Function Diff: `" +:+ fromRef +:+ "` " +:+ arrow +:+ " `" +:+ toRef
    +:+ "`" +:+ nl +:+ nl +:+
  "#### Summary" +:+ nl +:+
  "- Total functions in `" +:+ fromRef +:+ "`: " +:+
    fmtInt (FromTotal diff) +:+ nl +:+
  "- Total functions in `" +:+ toRef +:+ "`: " +:+
    fmtInt (ToTotal diff) +:+ nl +:+
  nl +:+
  "- New functions in `" +:+ fromRef +:+ "` only: " +:+
    fmtInt (Z.of_nat (length (NewFuncs diff))) +:+ nl +:+
  "- Removed functions (only in `" +:+ toRef +:+ "`): " +:+
    fmtInt (Z.of_nat (length (RemovedFuncs diff))) +:+ nl +:+
  "- Changed functions: " +:+
    fmtInt (Z.of_nat (length (ChangedFuncs diff))) +:+ nl +:+ nl +:+
  "#### High-Level Changes by Package" +:+ nl +:+ nl +:+
  "| Package | New | Removed | Changed |" +:+ nl +:+
  "|---------|-----|---------|---------|" +:+ nl +:+
  packageRows (PkgStats diff) +:+
  nl.

(** A section of the listing (lines 402-416). *)
Definition listingSection (funcs : list FuncInfo) : string :=
  if bool_decide (funcs = []) then "_None_" +:+ nl +:+ nl
  else printFuncListByPackage funcs.

(** The names of the changed declarations when no directory is
    given (lines 428-436). *)
Definition changedNames (changed : list (FuncInfo * FuncInfo)) : string :=
  String.concat ""
    ((λ pair : FuncInfo * FuncInfo,
        "- `" +:+ File pair.1 +:+ "`: `" +:+ fullNameOf pair.1 +:+ "`" +:+ nl)
       <$> changed) +:+
  nl.

(** [buildMarkdownReport] (lines 360-441) for given visiting orders of
    the two loops of [diffFuncs]: the new state of the world and the
    report, or a panic. *)
Definition buildMarkdownReportIn
    (fromOrder toOrder : list (FuncKey * FuncInfo))
    (fromRef toRef : string) (fromFuncs toFuncs : FuncSet)
    (summaryOnly : bool) (outDir : string) (w : W) : option (W * string) :=
  let diff := diffFuncsIn fromOrder toOrder fromFuncs toFuncs in
  let b := reportHead fromRef toRef diff in
  if summaryOnly then
    if negb (String.eqb outDir "") then
      '(w, files) ← writeAllChangedFuncFiles outDir fromRef toRef
                      (ChangedFuncs diff) w;
      Some (w, b +:+ addChangedFilesIndex outDir files)
    else Some (w, b)
  else
    let b := b +:+ "#### New Functions in `" +:+ fromRef +:+ "` (not in `"
               +:+ toRef +:+ "`)" +:+ nl +:+ nl +:+
             listingSection (NewFuncs diff) in
    let b := b +:+ "#### Removed Functions (only in `" +:+ toRef +:+ "`)"
               +:+ nl +:+ nl +:+
             listingSection (RemovedFuncs diff) in
    let b := b +:+ "#### Changed Functions" +:+ nl +:+ nl in
    if bool_decide (ChangedFuncs diff = []) then
      Some (w, b +:+ "_None_" +:+ nl +:+ nl)
    else if negb (String.eqb outDir "") then
      '(w, files) ← writeAllChangedFuncFiles outDir fromRef toRef
                      (ChangedFuncs diff) w;
      Some (w, b +:+ addChangedFilesIndex outDir files)
    else Some (w, b +:+ changedNames (ChangedFuncs diff)).

Definition buildMarkdownReport (fromRef toRef : string)
    (fromFuncs toFuncs : FuncSet) (summaryOnly : bool) (outDir : string)
    (w : W) : option (W * string) :=
  buildMarkdownReportIn (map_to_list fromFuncs) (map_to_list toFuncs)
    fromRef toRef fromFuncs toFuncs summaryOnly outDir w.

End Renderer.

(** ** Vocabulary of the statements about the renderer *)

(** [needle] occurs in [hay]. *)
Fixpoint isInfix (needle hay : string) : bool :=
  String.prefix needle hay ||
  match hay with
  | "" => false
  | String _ hay' => isInfix needle hay'
  end.

Definition isUnderscore (c : ascii) : bool := Ascii.eqb c "_".

Definition startsWithUnderscore (s : string) : bool :=
  match s with
  | "" => false
  | String c _ => isUnderscore c
  end.

(** The separator ["__"] of the file names occurs in [s]. *)
Fixpoint hasSeparator (s : string) : bool :=
  match s with
  | "" => false
  | String c s' =>
      (isUnderscore c && startsWithUnderscore s') || hasSeparator s'
  end.

(** Every underscore of [s] is followed by another character that is
    not an underscore: [s] neither contains the separator nor can join
    with it into a longer run. *)
Fixpoint separatorFree (s : string) : bool :=
  match s with
  | "" => true
  | String c s' =>
      if isUnderscore c then
        match s' with
        | "" => false
        | String d _ => negb (isUnderscore d) && separatorFree s'
        end
      else separatorFree s'
  end.

(** The components from which the file name of a record is built. *)
Definition nameParts (info : FuncInfo) : string * string * string :=
  (safePathOf info, safeRecvOf info, Name info).

Definition separatorFreeParts (info : FuncInfo) : Prop :=
  separatorFree (safePathOf info) = true ∧
  separatorFree (safeRecvOf info) = true ∧
  separatorFree (Name info) = true.

(** A small world for running the renderer: a repository given by its
    files per revision, a file system whose operations succeed, and a
    stand-in for the hash. *)
Definition sampleSys (files : string → string → option string) : Sys unit :=
  mkSys unit (λ ref path _, files ref path)
    (λ _ w, (w, None)) (λ _ _ w, (w, None))
    (λ dir base, dir +:+ "/" +:+ base) (λ _, "0123456789ab").

(** [a.go] at two revisions: the same function, one line further down,
    with other line endings and other spaces at the ends of its lines. *)
Definition sampleFiles (ref path : string) : option string :=
  if String.eqb path "a.go" then
    if String.eqb ref "dev" then
      Some ("func F(x int) { " +:+ crlf +:+ String TAB "return" +:+ crlf
            +:+ "}")
    else
      Some (nl +:+ "func F(x int) {" +:+ nl +:+ String TAB "return"
            +:+ String TAB nl +:+ "}" +:+ nl)
  else None.

(** [F] of [sampleF], one line further down. *)
Definition sampleFShifted : FuncInfo :=
  mkFuncInfo "a" "a.go" "F" "" "(x int)" true 2 4 3.

(** The two bodies that [sampleFiles] yields for [F]. *)
Definition sampleFromBody : string :=
  "func F(x int) { " +:+ crlf +:+ String TAB "return" +:+ crlf +:+ "}".
Definition sampleToBody : string :=
  "func F(x int) {" +:+ nl +:+ String TAB "return" +:+ String TAB nl +:+ "}".

(** A repository whose [a.go] holds only blank lines. *)
Definition blankFiles (ref path : string) : option string :=
  if String.eqb path "a.go" then
    if String.eqb ref "dev" then Some (String TAB nl +:+ nl +:+ nl)
    else Some (crlf +:+ nl +:+ nl)
  else None.

(** A repository whose [a.go] differs between the revisions in a form
    feed at the end of its first line. *)
Definition FF : ascii := "012"%char.
Definition formFeedFiles (ref path : string) : option string :=
  if String.eqb path "a.go" then
    if String.eqb ref "dev" then
      Some ("func F(x int) {" +:+ String FF nl +:+ String TAB "return" +:+ nl
            +:+ "}")
    else
      Some (nl +:+ "func F(x int) {" +:+ nl +:+ String TAB "return" +:+ nl
            +:+ "}" +:+ nl)
  else None.

(** Two declarations of one snapshot, of different packages and files,
    whose artifacts get the same name; both moved down by one line in
    the other snapshot. *)
Definition collideA : FuncInfo :=
  mkFuncInfo "a/x" "a/b.go" "F" "" "()" true 1 3 3.
Definition collideB : FuncInfo :=
  mkFuncInfo "x" "a_b.go" "F" "" "()" true 1 3 3.
Definition collideA2 : FuncInfo :=
  mkFuncInfo "a/x" "a/b.go" "F" "" "()" true 2 4 3.
Definition collideB2 : FuncInfo :=
  mkFuncInfo "x" "a_b.go" "F" "" "()" true 2 4 3.

Definition collideFrom : FuncSet := addFunc collideA (addFunc collideB ∅).
Definition collideTo : FuncSet := addFunc collideA2 (addFunc collideB2 ∅).

(** A repository from which no file can be read. *)
Definition noFiles (ref path : string) : option string := None.

(** The report on two empty inventories: zero everywhere, an empty
    table and, unless only the summary is asked for, three empty
    sections. *)
Definition emptyReport (fromRef toRef : string) (summaryOnly : bool) : string :=
  "### Function Diff: `" +:+ fromRef +:+ "` " +:+ arrow +:+ " `" +:+ toRef
    +:+ "`" +:+ nl +:+ nl +:+
  "#### Summary" +:+ nl +:+
  "- Total functions in `" +:+ fromRef +:+ "`: 0" +:+ nl +:+
  "- Total functions in `" +:+ toRef +:+ "`: 0" +:+ nl +:+
  nl +:+
  "- New functions in `" +:+ fromRef +:+ "` only: 0" +:+ nl +:+
  "- Removed functions (only in `" +:+ toRef +:+ "`): 0" +:+ nl +:+
  "- Changed functions: 0" +:+ nl +:+ nl +:+
  "#### High-Level Changes by Package" +:+ nl +:+ nl +:+
  "| Package | New | Removed | Changed |" +:+ nl +:+
  "|---------|-----|---------|---------|" +:+ nl +:+
  nl +:+
  (if summaryOnly then ""
   else
     "#### New Functions in `" +:+ fromRef +:+ "` (not in `" +:+ toRef
       +:+ "`)" +:+ nl +:+ nl +:+ "_None_" +:+ nl +:+ nl +:+
     "#### Removed Functions (only in `" +:+ toRef +:+ "`)" +:+ nl +:+ nl
       +:+ "_None_" +:+ nl +:+ nl +:+
     "#### Changed Functions" +:+ nl +:+ nl +:+ "_None_" +:+ nl +:+ nl).

(** ** Further vocabulary for the diff engine *)

(** The packages of the statistics are those of the listed entries. *)
Definition listedPackage (r : DiffResult) (pkg : string) : Prop :=
  (∃ f, f ∈ NewFuncs r ∧ Package f = pkg) ∨
  (∃ f t, (f, t) ∈ ChangedFuncs r ∧ Package f = pkg) ∨
  (∃ t, t ∈ RemovedFuncs r ∧ Package t = pkg).

Definition domMatch (r : DiffResult) : Prop :=
  ∀ pkg, is_Some (PkgStats r !! pkg) ↔ listedPackage r pkg.

(** ** Further functions of the renderer *)

(** [sanitizeFilenamePart] (main.go, lines 513-519). *)
Definition sanitizeFilenamePart (s : string) : string :=
  let s := ReplaceAll s " " "_" in
  let s := ReplaceAll s "`" "" in
  s.

(** ** The snapshot builder (main.go, [collectFuncs] and its helpers) *)

(** The nodes of [go/ast] that [exprToString] tells apart, with the
    fields of each; every other kind of expression is [OtherExpr]. A
    field list is a pointer that may be nil; a field is the list of its
    names and its type. *)
Inductive Expr : Type :=
  | Ident (name : string)
  | StarExpr (x : Expr)
  | SelectorExpr (x : Expr) (sel : string)
  | ArrayType (len : option Expr) (elt : Expr)
  | MapType (key value : Expr)
  | FuncType (params results : option (list (list string * Expr)))
  | InterfaceType (methods : option (list (list string * Expr)))
  | ChanType (dir : Z) (value : Expr)
  | OtherExpr.

Abbreviation Field := (list string * Expr)%type.
Abbreviation FieldList := (option (list Field)).

(** The strings one field contributes (lines 253-261), for a given
    printer of types. *)
Definition fieldParts (print : Expr → string) (f : Field) : list string :=
  let typeStr := print f.2 in
  match f.1 with
  | [] => [typeStr]
  | _ :: _ => (λ name, name +:+ " " +:+ typeStr) <$> f.1
  end.

(** [fieldListToString] (lines 248-264), for a given printer of types. *)
Definition fieldListWith (print : Expr → string) (fl : FieldList) : string :=
  match fl with
  | None => ""
  | Some [] => ""
  | Some (f :: fs) => Join (flat_map (fieldParts print) (f :: fs)) ", "
  end.

(** [formatSignature] (lines 238-246), for a given printer of types. *)
Definition formatSignatureWith (print : Expr → string)
    (params results : FieldList) : string :=
  let params := fieldListWith print params in
  let results := fieldListWith print results in
  if String.eqb results "" then "(" +:+ params +:+ ")"
  else "(" +:+ params +:+ ") (" +:+ results +:+ ")".

(** [exprToString] (lines 266-301). *)
Fixpoint exprToString (e : Expr) : string :=
  match e with
  | Ident name => name
  | StarExpr x => "*" +:+ exprToString x
  | SelectorExpr x sel => exprToString x +:+ "." +:+ sel
  | ArrayType _ elt => "[]" +:+ exprToString elt
  | MapType key value =>
      "map[" +:+ exprToString key +:+ "]" +:+ exprToString value
  | FuncType params results =>
      "func" +:+ formatSignatureWith exprToString params results
  | InterfaceType _ => "interface{}"
  | ChanType _ value => "chan " +:+ exprToString value
  | OtherExpr => "<?>"
  end.

Definition fieldListToString (fl : FieldList) : string :=
  fieldListWith exprToString fl.

Definition formatSignature (params results : FieldList) : string :=
  formatSignatureWith exprToString params results.

(** [formatReceiver] (lines 217-236). A pointer to anything but an
    identifier writes nothing to the buffer. *)
Definition formatReceiver (fl : FieldList) : string :=
  match fl with
  | None => ""
  | Some [] => ""
  | Some (field :: _) =>
      match field.2 with
      | Ident name => name
      | StarExpr x =>
          match x with
          | Ident name => "*" +:+ name
          | _ => ""
          end
      | t => exprToString t
      end
  end.

(** What [exprToString] does not look at: the length of an array type,
    the direction of a channel type and the methods of an interface
    type, at any depth. [eraseExpr] blanks them. *)
Fixpoint eraseExpr (e : Expr) : Expr :=
  match e with
  | Ident name => Ident name
  | StarExpr x => StarExpr (eraseExpr x)
  | SelectorExpr x sel => SelectorExpr (eraseExpr x) sel
  | ArrayType _ elt => ArrayType None (eraseExpr elt)
  | MapType key value => MapType (eraseExpr key) (eraseExpr value)
  | FuncType params results =>
      FuncType
        (option_map (map (λ f : Field, (f.1, eraseExpr f.2))) params)
        (option_map (map (λ f : Field, (f.1, eraseExpr f.2))) results)
  | InterfaceType _ => InterfaceType None
  | ChanType _ value => ChanType 0 (eraseExpr value)
  | OtherExpr => OtherExpr
  end.

Definition eraseFields (fl : FieldList) : FieldList :=
  option_map (map (λ f : Field, (f.1, eraseExpr f.2))) fl.

(** A property holds for the types of all fields of a list. *)
Definition fieldsAll (P : Expr → Prop) (fl : FieldList) : Prop :=
  match fl with
  | None => True
  | Some l => Forall (λ f : Field, P f.2) l
  end.

(** Induction on expressions, through the field lists of function
    types. *)
Section ExprInduction.
Context (P : Expr → Prop).
Context (HIdent : ∀ name, P (Ident name)).
Context (HStar : ∀ x, P x → P (StarExpr x)).
Context (HSel : ∀ x sel, P x → P (SelectorExpr x sel)).
Context (HArray : ∀ len elt, P elt → P (ArrayType len elt)).
Context (HMap : ∀ key value, P key → P value → P (MapType key value)).
Context (HFunc : ∀ params results,
            fieldsAll P params → fieldsAll P results →
            P (FuncType params results)).
Context (HIface : ∀ methods, P (InterfaceType methods)).
Context (HChan : ∀ dir value, P value → P (ChanType dir value)).
Context (HOther : P OtherExpr).

Fixpoint Expr_nested_ind (e : Expr) : P e :=
  let all (fl : FieldList) : fieldsAll P fl :=
    match fl return fieldsAll P fl with
    | None => I
    | Some l =>
        (fix go (l : list Field) : Forall (λ f : Field, P f.2) l :=
           match l return Forall (λ f : Field, P f.2) l with
           | [] => @List.Forall_nil Field (λ f : Field, P f.2)
           | f :: l' =>
               @List.Forall_cons Field (λ f : Field, P f.2) f l'
                 (Expr_nested_ind f.2) (go l')
           end) l
    end in
  match e return P e with
  | Ident name => HIdent name
  | StarExpr x => HStar x (Expr_nested_ind x)
  | SelectorExpr x sel => HSel x sel (Expr_nested_ind x)
  | ArrayType len elt => HArray len elt (Expr_nested_ind elt)
  | MapType key value =>
      HMap key value (Expr_nested_ind key) (Expr_nested_ind value)
  | FuncType params results => HFunc params results (all params) (all results)
  | InterfaceType methods => HIface methods
  | ChanType dir value => HChan dir value (Expr_nested_ind value)
  | OtherExpr => HOther
  end.

End ExprInduction.

(** A function declaration as the parser delivers it: name, receiver,
    type, and the lines of its first and last position. *)
Record FuncDecl := mkFuncDecl {
  declName : string;
  declRecv : FieldList;
  declParams : FieldList;
  declResults : FieldList;
  declLine : Z;
  declEndLine : Z
}.

(** A parsed file: its package clause and its function declarations in
    the order in which [ast.Inspect] reaches them. *)
Record ParsedFile := mkParsedFile {
  filePkgName : string;
  fileDecls : list FuncDecl
}.

(** The result of a Go function that returns a value and an [error]. *)
Inductive outcome (A : Type) : Type :=
  | Done (a : A)
  | Failed (msg : string).

Arguments Done {A}.
Arguments Failed {A}.

(** What the snapshot builder asks of its surroundings: the output of
    [git ls-tree], the Go parser, [token.IsExported] and three functions
    of [path/filepath]. *)
Record GoTools (W : Type) := mkGoTools {
  gitLsTree : string → W → outcome string;
  ParseFile : string → string → option ParsedFile;
  IsExported : string → bool;
  pathDir : string → string;
  pathJoin2 : string → string → string;
  pathToSlash : string → string
}.

Arguments gitLsTree {W}.
Arguments ParseFile {W}.
Arguments IsExported {W}.
Arguments pathDir {W}.
Arguments pathJoin2 {W}.
Arguments pathToSlash {W}.

(** [strings.TrimSpace]: the white-space runes at the start ... *)
Fixpoint trimLeftSpace (s : string) : string :=
  match s with
  | "" => ""
  | String c1 s1 =>
      if asciiSpace c1 then trimLeftSpace s1
      else match s1 with
           | "" => s
           | String c2 s2 =>
               if space2 c1 c2 then trimLeftSpace s2
               else match s2 with
                    | "" => s
                    | String c3 s3 =>
                        if space3 c1 c2 c3 then trimLeftSpace s3 else s
                    end
           end
  end.

(** ... and the longest run of white-space runes at the end are cut. *)
Fixpoint trimRightSpace (s : string) : string :=
  match s with
  | "" => ""
  | String c s' =>
      if TrimSpace_empty s then "" else String c (trimRightSpace s')
  end.

Definition TrimSpace (s : string) : string := trimRightSpace (trimLeftSpace s).

(** [strings.HasSuffix]. *)
Fixpoint HasSuffix (s suffix : string) : bool :=
  String.eqb s suffix ||
  match s with
  | "" => false
  | String _ s' => HasSuffix s' suffix
  end.

(** The loop of [gitListGoFiles] (lines 103-113). *)
Fixpoint goFilesOf (lines : list string) : list string :=
  match lines with
  | [] => []
  | l :: rest =>
      let l := TrimSpace l in
      if String.eqb l "" then goFilesOf rest
      else if HasSuffix l ".go" && negb (HasSuffix l "_test.go")
           then l :: goFilesOf rest
           else goFilesOf rest
  end.

(** The record that the callback of [ast.Inspect] builds for a
    declaration (lines 173-201). *)
Definition declInfo (exported : bool) (pkgPath path : string) (fn : FuncDecl)
    : FuncInfo :=
  let startLine := declLine fn in
  let endLine := declEndLine fn in
  let lineCount := int_wrap (int_wrap (endLine - startLine) + 1) in
  let lineCount := if lineCount <? 0 then 0 else lineCount in
  mkFuncInfo pkgPath path (declName fn) (formatReceiver (declRecv fn))
    (formatSignature (declParams fn) (declResults fn)) exported
    startLine endLine lineCount.

Section SnapshotBuilder.
Context {W : Type} (sys : Sys W) (tools : GoTools W).

(** [gitListGoFiles] (lines 96-115). *)
Definition gitListGoFiles (ref : string) (w : W) : outcome (list string) :=
  match gitLsTree tools ref w with
  | Failed msg =>
      Failed ("git ls-tree failed for ref " +:+ ref +:+ ": " +:+ msg)
  | Done out => Done (goFilesOf (Split out LF))
  end.

(** The callback of [ast.Inspect] on one declaration (lines 168-210). *)
Definition collectDecl (onlyExported : bool) (pkgPath path : string)
    (funcs : FuncSet) (fn : FuncDecl) : FuncSet :=
  let name := declName fn in
  if onlyExported && negb (IsExported tools name) then funcs
  else
    let info := declInfo (IsExported tools name) pkgPath path fn in
    addFunc info funcs.

(** The package path derived for a file (lines 152-161). *)
Definition pkgPathOf (path : string) (file : ParsedFile) : string :=
  let pkgName := filePkgName file in
  let dir := pathDir tools path in
  if String.eqb dir "." then pkgName
  else pathToSlash tools (pathJoin2 tools dir pkgName).

(** One iteration of the loop over the files (lines 138-212). *)
Definition collectFile (ref : string) (onlyExported : bool)
    (pkgFilter : string) (w : W) (funcs : FuncSet) (path : string) : FuncSet :=
  match gitShowFile sys ref path w with
  | None => funcs
  | Some src =>
      match ParseFile tools path src with
      | None => funcs
      | Some file =>
          let pkgPath := pkgPathOf path file in
          if negb (String.eqb pkgFilter "") && negb (isInfix pkgFilter pkgPath)
          then funcs
          else foldl (collectDecl onlyExported pkgPath path) funcs
                 (fileDecls file)
      end
  end.

(** [collectFuncs] (lines 128-215); [repoRoot] is not used. *)
Definition collectFuncs (ref repoRoot : string) (onlyExported : bool)
    (pkgFilter : string) (w : W) : outcome FuncSet :=
  match gitListGoFiles ref w with
  | Failed msg => Failed msg
  | Done files =>
      Done (foldl (collectFile ref onlyExported pkgFilter w) ∅ files)
  end.

(** The records in the order in which they are stored: those of the
    declarations of a file ... *)
Definition fileInfos (ref : string) (onlyExported : bool) (pkgFilter : string)
    (w : W) (path : string) : list FuncInfo :=
  match gitShowFile sys ref path w with
  | None => []
  | Some src =>
      match ParseFile tools path src with
      | None => []
      | Some file =>
          let pkgPath := pkgPathOf path file in
          if negb (String.eqb pkgFilter "") && negb (isInfix pkgFilter pkgPath)
          then []
          else
            (λ fn, declInfo (IsExported tools (declName fn)) pkgPath path fn)
              <$> filter (λ fn, ¬ (onlyExported = true
                                   ∧ IsExported tools (declName fn) = false))
                    (fileDecls file)
      end
  end.

(** ... and of all the files. *)
Definition visitedInfos (ref : string) (onlyExported : bool)
    (pkgFilter : string) (w : W) (files : list string) : list FuncInfo :=
  flat_map (fileInfos ref onlyExported pkgFilter w) files.

End SnapshotBuilder.

(** The file can be read at the revision and parses. *)
Definition loads {W : Type} (sys : Sys W) (tools : GoTools W) (ref : string)
    (w : W) (path : string) : bool :=
  match gitShowFile sys ref path w with
  | None => false
  | Some src => bool_decide (is_Some (ParseFile tools path src))
  end.

(** The receiver is a pointer to something that is not an identifier
    (an instantiated generic type, a parenthesized type, ...). *)
Definition pointerToOther (fl : FieldList) : Prop :=
  ∃ names x rest,
    fl = Some ((names, StarExpr x) :: rest) ∧ ∀ name, x ≠ Ident name.

(** A small front end: [git ls-tree] lists three files, of which the
    parser is given [a.go] with two methods [Push] on pointers to
    instantiated generic types and a function [helper]. *)
Definition sampleDecls : list FuncDecl :=
  [ mkFuncDecl "Push" (Some [(["s"], StarExpr OtherExpr)])
      (Some [(["x"], Ident "int")]) None 3 5;
    mkFuncDecl "helper" None (Some []) (Some [([], Ident "error")]) 7 9;
    mkFuncDecl "Push" (Some [(["q"], StarExpr (SelectorExpr (Ident "p") "Q"))])
      (Some [(["x"], Ident "string")]) None 11 12 ].

Definition sampleTools : GoTools unit :=
  mkGoTools unit
    (λ ref _, Done ("a.go" +:+ nl +:+ "a_test.go" +:+ nl +:+ "README.md" +:+ nl))
    (λ path src, if String.eqb path "a.go"
                 then Some (mkParsedFile "main" sampleDecls) else None)
    (λ name, String.eqb name "Push")
    (λ path, ".") (λ dir name, dir +:+ "/" +:+ name) (λ p, p).

(** A front end whose [git ls-tree] fails. *)
Definition brokenTools : GoTools unit :=
  mkGoTools unit (λ ref _, Failed "exit status 128") (λ _ _, None)
    (λ _, false) (λ path, ".") (λ dir name, dir +:+ "/" +:+ name) (λ p, p).

(** The snapshot that the small front end yields. *)
Definition sampleSnapshot : FuncSet :=
  match collectFuncs (sampleSys sampleFiles) sampleTools "dev" "" false "" tt with
  | Done funcs => funcs
  | Failed _ => ∅
  end.

(** [a.go] as it is at the other revision: [helper] has moved down,
    the methods [Push] are gone and a method [Pop] has come. *)
Definition revisedDecls : list FuncDecl :=
  [ mkFuncDecl "helper" None (Some []) (Some [([], Ident "error")]) 8 10;
    mkFuncDecl "Pop" (Some [(["s"], StarExpr (Ident "Stack"))])
      (Some []) (Some [([], Ident "int")]) 12 14 ].

(** A front end whose parser tells the two revisions of [sampleFiles]
    apart: the text of [a.go] at [master] starts with a blank line. *)
Definition revisionTools : GoTools unit :=
  mkGoTools unit
    (λ ref _, Done ("a.go" +:+ nl +:+ "a_test.go" +:+ nl +:+ "README.md" +:+ nl))
    (λ path src,
       if String.eqb path "a.go"
       then Some (mkParsedFile "main"
                    (if String.prefix nl src then revisedDecls else sampleDecls))
       else None)
    (λ name, String.eqb name "Push" || String.eqb name "Pop")
    (λ path, ".") (λ dir name, dir +:+ "/" +:+ name) (λ p, p).

(** The snapshots of the two revisions. *)
Definition devSnapshot : FuncSet :=
  match collectFuncs (sampleSys sampleFiles) revisionTools "dev" "" false "" tt with
  | Done funcs => funcs
  | Failed _ => ∅
  end.
Definition masterSnapshot : FuncSet :=
  match collectFuncs (sampleSys sampleFiles) revisionTools "master" "" false "" tt with
  | Done funcs => funcs
  | Failed _ => ∅
  end.

(** What [gitListGoFiles] keeps of a line. *)
Definition goFileName (f : string) : Prop :=
  f ≠ "" ∧ HasSuffix f ".go" = true ∧ HasSuffix f "_test.go" = false.

(** An artifact name of a changed pair: the file name of its from-side
    record, with or without the identical prefix. *)
Definition artifactNameOf (pair : FuncInfo * FuncInfo) (name : string) : Prop :=
  name = changedFuncFilenameWithRecv pair.1 ∨
  name = "identical_" +:+ changedFuncFilenameWithRecv pair.1.

(** Every directory creation and every file write succeeds. *)
Definition writesSucceed {W : Type} (sys : Sys W) : Prop :=
  (∀ dir w, (MkdirAll sys dir w).2 = None) ∧
  (∀ path content w, (WriteFile sys path content w).2 = None).

(** * Properties *)

(** ** Inventories *)

Lemma Inventory_empty : Inventory ∅.
Proof. apply map_Forall_empty. Qed.

Lemma Inventory_addFunc info funcs :
  Inventory funcs → Inventory (addFunc info funcs).
Proof. intros H. by apply map_Forall_insert_2. Qed.

Lemma ranges_elem m order k f :
  ranges m order → (k, f) ∈ order ↔ m !! k = Some f.
Proof. intros H. rewrite H. apply elem_of_map_to_list. Qed.

Lemma ranges_map_to_list m : ranges m (map_to_list m).
Proof. unfold ranges. done. Qed.

Lemma ranges_length m order :
  ranges m order → length order = size m.
Proof. intros H. rewrite H. apply length_map_to_list. Qed.

Lemma differs_false f t : differs f t = false ↔ sameShape f t.
Proof.
  unfold differs, sameShape.
  rewrite !orb_false_iff, !negb_false_iff, !String.eqb_eq, !Z.eqb_eq.
  tauto.
Qed.

Lemma differs_true f t : differs f t = true ↔ ¬ sameShape f t.
Proof.
  rewrite <- differs_false. destruct (differs f t); split; congruence.
Qed.

(** ** The lists built by the two loops *)

Lemma foldl_stepFrom_lists to l r :
  NewFuncs (foldl (stepFrom to) r l) = NewFuncs r ++ omap (pickAbsent to) l ∧
  ChangedFuncs (foldl (stepFrom to) r l)
    = ChangedFuncs r ++ omap (pickChanged to) l ∧
  RemovedFuncs (foldl (stepFrom to) r l) = RemovedFuncs r ∧
  FromTotal (foldl (stepFrom to) r l) = FromTotal r ∧
  ToTotal (foldl (stepFrom to) r l) = ToTotal r.
Proof.
  revert r. induction l as [|[k f] l IH]; intros r.
  { simpl. by rewrite !app_nil_r. }
  cbn [foldl omap list_omap].
  destruct (IH (stepFrom to r (k, f))) as (-> & -> & -> & -> & ->).
  unfold stepFrom, pickAbsent, pickChanged; simpl.
  destruct (to !! k) as [t|]; simpl.
  - destruct (differs f t); simpl; by rewrite <- ?app_assoc.
  - by rewrite <- ?app_assoc.
Qed.

Lemma foldl_stepTo_lists from l r :
  NewFuncs (foldl (stepTo from) r l) = NewFuncs r ∧
  ChangedFuncs (foldl (stepTo from) r l) = ChangedFuncs r ∧
  RemovedFuncs (foldl (stepTo from) r l)
    = RemovedFuncs r ++ omap (pickAbsent from) l ∧
  FromTotal (foldl (stepTo from) r l) = FromTotal r ∧
  ToTotal (foldl (stepTo from) r l) = ToTotal r.
Proof.
  revert r. induction l as [|[k t] l IH]; intros r.
  { simpl. by rewrite !app_nil_r. }
  cbn [foldl omap list_omap].
  destruct (IH (stepTo from r (k, t))) as (-> & -> & -> & -> & ->).
  unfold stepTo, pickAbsent; simpl.
  destruct (from !! k); simpl; by rewrite <- ?app_assoc.
Qed.

Lemma diffFuncsIn_New fo to_o from to :
  NewFuncs (diffFuncsIn fo to_o from to) = omap (pickAbsent to) fo.
Proof.
  unfold diffFuncsIn.
  destruct (foldl_stepTo_lists from to_o
    (foldl (stepFrom to)
       (mkDiffResult [] [] [] (Z.of_nat (size from)) (Z.of_nat (size to)) ∅)
       fo)) as (-> & _).
  by destruct (foldl_stepFrom_lists to fo
    (mkDiffResult [] [] [] (Z.of_nat (size from)) (Z.of_nat (size to)) ∅))
    as (-> & _).
Qed.

Lemma diffFuncsIn_Changed fo to_o from to :
  ChangedFuncs (diffFuncsIn fo to_o from to) = omap (pickChanged to) fo.
Proof.
  unfold diffFuncsIn.
  destruct (foldl_stepTo_lists from to_o
    (foldl (stepFrom to)
       (mkDiffResult [] [] [] (Z.of_nat (size from)) (Z.of_nat (size to)) ∅)
       fo)) as (_ & -> & _).
  by destruct (foldl_stepFrom_lists to fo
    (mkDiffResult [] [] [] (Z.of_nat (size from)) (Z.of_nat (size to)) ∅))
    as (_ & -> & _).
Qed.

Lemma diffFuncsIn_Removed fo to_o from to :
  RemovedFuncs (diffFuncsIn fo to_o from to) = omap (pickAbsent from) to_o.
Proof.
  unfold diffFuncsIn.
  destruct (foldl_stepTo_lists from to_o
    (foldl (stepFrom to)
       (mkDiffResult [] [] [] (Z.of_nat (size from)) (Z.of_nat (size to)) ∅)
       fo)) as (_ & _ & -> & _).
  by destruct (foldl_stepFrom_lists to fo
    (mkDiffResult [] [] [] (Z.of_nat (size from)) (Z.of_nat (size to)) ∅))
    as (_ & _ & -> & _).
Qed.

Lemma diffFuncsIn_totals fo to_o from to :
  FromTotal (diffFuncsIn fo to_o from to) = Z.of_nat (size from) ∧
  ToTotal (diffFuncsIn fo to_o from to) = Z.of_nat (size to).
Proof.
  unfold diffFuncsIn.
  destruct (foldl_stepTo_lists from to_o
    (foldl (stepFrom to)
       (mkDiffResult [] [] [] (Z.of_nat (size from)) (Z.of_nat (size to)) ∅)
       fo)) as (_ & _ & _ & -> & ->).
  by destruct (foldl_stepFrom_lists to fo
    (mkDiffResult [] [] [] (Z.of_nat (size from)) (Z.of_nat (size to)) ∅))
    as (_ & _ & _ & -> & ->).
Qed.

(** Membership in the three lists, in terms of the two inventories. *)

Lemma elem_of_pickAbsent m other order f :
  ranges m order →
  f ∈ omap (pickAbsent other) order ↔
  ∃ k, m !! k = Some f ∧ other !! k = None.
Proof.
  intros Hr. rewrite list_elem_of_omap. split.
  - intros ([k f'] & Hin & Hp). exists k.
    apply (ranges_elem _ _ _ _ Hr) in Hin.
    unfold pickAbsent in Hp; simpl in Hp.
    destruct (other !! k); naive_solver.
  - intros (k & Hk & Ho). exists (k, f). split.
    + by apply (ranges_elem _ _ _ _ Hr).
    + unfold pickAbsent; simpl. by rewrite Ho.
Qed.

Lemma elem_of_pickChanged from to order f t :
  ranges from order →
  (f, t) ∈ omap (pickChanged to) order ↔
  ∃ k, from !! k = Some f ∧ to !! k = Some t ∧ ¬ sameShape f t.
Proof.
  intros Hr. rewrite list_elem_of_omap. split.
  - intros ([k f'] & Hin & Hp). exists k.
    apply (ranges_elem _ _ _ _ Hr) in Hin.
    unfold pickChanged in Hp; simpl in Hp.
    destruct (to !! k) as [t'|]; [|done].
    destruct (differs f' t') eqn:Hd; [|done].
    apply differs_true in Hd. naive_solver.
  - intros (k & Hk & Ht & Hs). exists (k, f). split.
    + by apply (ranges_elem _ _ _ _ Hr).
    + unfold pickChanged; simpl. rewrite Ht.
      apply differs_true in Hs. by rewrite Hs.
Qed.

(** ** Key sets of the three classes *)

Lemma elem_of_keySet k l : k ∈ keySet l ↔ ∃ f, f ∈ l ∧ keyOf f = k.
Proof.
  unfold keySet. rewrite elem_of_list_to_set, list_elem_of_fmap. split.
  - intros (f & -> & Hin). by exists f.
  - intros (f & Hin & <-). by exists f.
Qed.

Lemma elem_of_pairKeySet k l :
  k ∈ pairKeySet l ↔ ∃ f t, (f, t) ∈ l ∧ keyOf f = k.
Proof.
  unfold pairKeySet. rewrite elem_of_list_to_set, list_elem_of_fmap. split.
  - intros ([f t] & -> & Hin). by exists f, t.
  - intros (f & t & Hin & <-). by exists (f, t).
Qed.

Lemma Inventory_key m k f : Inventory m → m !! k = Some f → keyOf f = k.
Proof. intros H. apply H. Qed.

Section DiffKeys.
Context (fromOrder toOrder : list (FuncKey * FuncInfo)) (from to : FuncSet).
Context (Hfrom : Inventory from) (Hto : Inventory to).
Context (HfromOrder : ranges from fromOrder) (HtoOrder : ranges to toOrder).

Let d := diffFuncsIn fromOrder toOrder from to.

Lemma new_key_iff k :
  k ∈ keySet (NewFuncs d) ↔ is_Some (from !! k) ∧ to !! k = None.
Proof using Hfrom HfromOrder.
  subst d. rewrite elem_of_keySet, diffFuncsIn_New. split.
  - intros (f & Hin & <-).
    apply (elem_of_pickAbsent from) in Hin as (k' & Hk' & Hno); [|done].
    rewrite (Inventory_key _ _ _ Hfrom Hk'). eauto.
  - intros ([f Hf] & Hno). exists f. split.
    + apply (elem_of_pickAbsent from); eauto.
    + by apply (Inventory_key from).
Qed.

Lemma removed_key_iff k :
  k ∈ keySet (RemovedFuncs d) ↔ is_Some (to !! k) ∧ from !! k = None.
Proof using Hto HtoOrder.
  subst d. rewrite elem_of_keySet, diffFuncsIn_Removed. split.
  - intros (f & Hin & <-).
    apply (elem_of_pickAbsent to) in Hin as (k' & Hk' & Hno); [|done].
    rewrite (Inventory_key _ _ _ Hto Hk'). eauto.
  - intros ([f Hf] & Hno). exists f. split.
    + apply (elem_of_pickAbsent to); eauto.
    + by apply (Inventory_key to).
Qed.

Lemma changed_key_iff k :
  k ∈ pairKeySet (ChangedFuncs d) ↔
  ∃ f t, from !! k = Some f ∧ to !! k = Some t ∧ ¬ sameShape f t.
Proof using Hfrom HfromOrder.
  subst d. rewrite elem_of_pairKeySet, diffFuncsIn_Changed. split.
  - intros (f & t & Hin & <-).
    apply (elem_of_pickChanged from) in Hin as (k' & Hk' & Ht & Hs); [|done].
    rewrite (Inventory_key _ _ _ Hfrom Hk'). eauto.
  - intros (f & t & Hf & Ht & Hs). exists f, t. split.
    + apply (elem_of_pickChanged from); eauto.
    + by apply (Inventory_key from).
Qed.

End DiffKeys.

Lemma sameShape_dec f t : Decision (sameShape f t).
Proof. unfold sameShape. apply _. Defined.

(** ** Classification *)

(** C1. For inventories [from] and [to] and a key [k] of [from] with
    record [f]: when [k] is absent from [to], [f] is listed as new; when
    [to] holds [t] under [k] and one of signature, file, start line, end
    line differs, the pair [(f, t)] is listed as changed; when the four
    fields agree, [k] is the key of no new, removed or changed entry.
    This holds whatever the order in which the two maps are visited. *)
Theorem diffFuncs_classifies_from_keys
    (fromOrder toOrder : list (FuncKey * FuncInfo)) (from to : FuncSet)
    (k : FuncKey) (f : FuncInfo) :
  Inventory from → Inventory to →
  ranges from fromOrder → ranges to toOrder →
  from !! k = Some f →
  let d := diffFuncsIn fromOrder toOrder from to in
  (to !! k = None → f ∈ NewFuncs d) ∧
  (∀ t, to !! k = Some t → ¬ sameShape f t → (f, t) ∈ ChangedFuncs d) ∧
  (∀ t, to !! k = Some t → sameShape f t →
     (k ∉ keySet (NewFuncs d)) ∧ (k ∉ keySet (RemovedFuncs d)) ∧
     (k ∉ pairKeySet (ChangedFuncs d))).
Proof.
  intros Hfrom Hto Hfo Hto_o Hk d. subst d. split; [|split].
  - intros Hno. rewrite diffFuncsIn_New.
    apply (elem_of_pickAbsent from); eauto.
  - intros t Ht Hs. rewrite diffFuncsIn_Changed.
    apply (elem_of_pickChanged from); eauto.
  - intros t Ht Hs.
    rewrite (new_key_iff fromOrder toOrder from to Hfrom Hfo).
    rewrite (removed_key_iff fromOrder toOrder from to Hto Hto_o).
    rewrite (changed_key_iff fromOrder toOrder from to Hfrom Hfo).
    split; [|split].
    + intros [_ Hno]. congruence.
    + intros [_ Hno]. congruence.
    + intros (f' & t' & Hf' & Ht' & Hns). congruence.
Qed.

Lemma Inventory_sampleFrom : Inventory sampleFrom.
Proof. repeat apply Inventory_addFunc. apply Inventory_empty. Qed.

Lemma Inventory_sampleTo : Inventory sampleTo.
Proof. repeat apply Inventory_addFunc. apply Inventory_empty. Qed.

Lemma diffFuncs_classifies_from_keys_witness :
  let d := diffFuncs sampleFrom sampleTo in
  (sampleTo !! keyOf sampleF = None → sampleF ∈ NewFuncs d) ∧
  (∀ t, sampleTo !! keyOf sampleF = Some t → ¬ sameShape sampleF t →
     (sampleF, t) ∈ ChangedFuncs d) ∧
  (∀ t, sampleTo !! keyOf sampleF = Some t → sameShape sampleF t →
     (keyOf sampleF ∉ keySet (NewFuncs d)) ∧
     (keyOf sampleF ∉ keySet (RemovedFuncs d)) ∧
     (keyOf sampleF ∉ pairKeySet (ChangedFuncs d))).
Proof.
  apply (diffFuncs_classifies_from_keys (map_to_list sampleFrom)
           (map_to_list sampleTo) sampleFrom sampleTo (keyOf sampleF) sampleF).
  - apply Inventory_sampleFrom.
  - apply Inventory_sampleTo.
  - apply ranges_map_to_list.
  - apply ranges_map_to_list.
  - vm_compute. reflexivity.
Defined.

(** C2. The keys of the new, removed and changed entries are pairwise
    disjoint, and every key of [from] or [to] is in exactly one of the
    four classes new, removed, changed, unchanged. *)
Theorem diffFuncs_partitions_keys
    (fromOrder toOrder : list (FuncKey * FuncInfo)) (from to : FuncSet) :
  Inventory from → Inventory to →
  ranges from fromOrder → ranges to toOrder →
  let d := diffFuncsIn fromOrder toOrder from to in
  (keySet (NewFuncs d) ## keySet (RemovedFuncs d)) ∧
  (keySet (NewFuncs d) ## pairKeySet (ChangedFuncs d)) ∧
  (keySet (RemovedFuncs d) ## pairKeySet (ChangedFuncs d)) ∧
  ∀ k, k ∈ dom from ∪ dom to →
    exactlyOne (k ∈ keySet (NewFuncs d)) (k ∈ keySet (RemovedFuncs d))
      (k ∈ pairKeySet (ChangedFuncs d)) (unchangedKey from to k).
Proof.
  intros Hfrom Hto Hfo Hto_o d. subst d.
  pose proof (new_key_iff fromOrder toOrder from to Hfrom Hfo) as HN.
  pose proof (removed_key_iff fromOrder toOrder from to Hto Hto_o) as HR.
  pose proof (changed_key_iff fromOrder toOrder from to Hfrom Hfo) as HC.
  repeat split.
  - intros k H1 H2. apply HN in H1 as [[f Hf] _]. apply HR in H2 as [_ H2].
    congruence.
  - intros k H1 H2. apply HN in H1 as [_ H1].
    apply HC in H2 as (f & t & _ & Ht & _). congruence.
  - intros k H1 H2. apply HR in H1 as [_ H1].
    apply HC in H2 as (f & t & Hf & _). congruence.
  - intros k Hk. unfold exactlyOne, unchangedKey.
    rewrite HN, HR, HC.
    rewrite elem_of_union, !elem_of_dom in Hk.
    destruct (from !! k) as [f|] eqn:Ef, (to !! k) as [t|] eqn:Et.
    + destruct (sameShape_dec f t) as [Hs|Hs].
      * right; right; right. repeat split.
        -- intros [_ ?]; congruence.
        -- intros [_ ?]; congruence.
        -- intros (f' & t' & ? & ? & ?); congruence.
        -- eauto.
      * right; right; left. repeat split.
        -- intros [_ ?]; congruence.
        -- intros [_ ?]; congruence.
        -- eauto.
        -- intros (f' & t' & ? & ? & ?); congruence.
    + left. repeat split; eauto.
      * intros [[? ?] _]; congruence.
      * intros (f' & t' & ? & ? & ?); congruence.
      * intros (f' & t' & ? & ? & ?); congruence.
    + right; left. repeat split; eauto.
      * intros [[? ?] _]; congruence.
      * intros (f' & t' & ? & ? & ?); congruence.
      * intros (f' & t' & ? & ? & ?); congruence.
    + destruct Hk as [[? ?]|[? ?]]; congruence.
Qed.

Lemma diffFuncs_partitions_keys_witness :
  let d := diffFuncs sampleFrom sampleTo in
  (keySet (NewFuncs d) ## keySet (RemovedFuncs d)) ∧
  (keySet (NewFuncs d) ## pairKeySet (ChangedFuncs d)) ∧
  (keySet (RemovedFuncs d) ## pairKeySet (ChangedFuncs d)) ∧
  ∀ k, k ∈ dom sampleFrom ∪ dom sampleTo →
    exactlyOne (k ∈ keySet (NewFuncs d)) (k ∈ keySet (RemovedFuncs d))
      (k ∈ pairKeySet (ChangedFuncs d)) (unchangedKey sampleFrom sampleTo k).
Proof.
  apply (diffFuncs_partitions_keys (map_to_list sampleFrom)
           (map_to_list sampleTo) sampleFrom sampleTo).
  - apply Inventory_sampleFrom.
  - apply Inventory_sampleTo.
  - apply ranges_map_to_list.
  - apply ranges_map_to_list.
Defined.

(** C5. The keys of the entries that [diff(from, to)] lists as new are
    the keys of the entries that [diff(to, from)] lists as removed. *)
Theorem diffFuncs_new_removed_symmetry
    (fromOrder toOrder toOrder' fromOrder' : list (FuncKey * FuncInfo))
    (from to : FuncSet) :
  ranges from fromOrder → ranges from fromOrder' →
  keySet (NewFuncs (diffFuncsIn fromOrder toOrder from to)) =
  keySet (RemovedFuncs (diffFuncsIn toOrder' fromOrder' to from)).
Proof.
  intros H1 H2. apply set_eq. intros k.
  rewrite !elem_of_keySet, diffFuncsIn_New, diffFuncsIn_Removed.
  split; intros (f & Hin & Hk); exists f; split; try done.
  - apply (elem_of_pickAbsent from); [done|].
    by apply (elem_of_pickAbsent from) in Hin.
  - apply (elem_of_pickAbsent from); [done|].
    by apply (elem_of_pickAbsent from) in Hin.
Qed.

Lemma diffFuncs_new_removed_symmetry_witness :
  keySet (NewFuncs (diffFuncs sampleFrom sampleTo)) =
  keySet (RemovedFuncs (diffFuncs sampleTo sampleFrom)).
Proof.
  apply (diffFuncs_new_removed_symmetry (map_to_list sampleFrom)
           (map_to_list sampleTo) (map_to_list sampleTo)
           (map_to_list sampleFrom) sampleFrom sampleTo);
    apply ranges_map_to_list.
Defined.

(** The records themselves agree, up to the order of the listing. *)
Lemma diffFuncs_new_removed_records
    (fromOrder toOrder toOrder' fromOrder' : list (FuncKey * FuncInfo))
    (from to : FuncSet) :
  ranges from fromOrder → ranges from fromOrder' →
  NewFuncs (diffFuncsIn fromOrder toOrder from to) ≡ₚ
  RemovedFuncs (diffFuncsIn toOrder' fromOrder' to from).
Proof.
  intros H1 H2. rewrite diffFuncsIn_New, diffFuncsIn_Removed.
  unfold ranges in *. by rewrite H1, H2.
Qed.

(** C6. Diffing an inventory with itself lists nothing as new, removed
    or changed. *)
Theorem diffFuncs_self_empty
    (order order' : list (FuncKey * FuncInfo)) (X : FuncSet) :
  ranges X order → ranges X order' →
  let d := diffFuncsIn order order' X X in
  NewFuncs d = [] ∧ RemovedFuncs d = [] ∧ ChangedFuncs d = [].
Proof.
  intros H1 H2 d. subst d.
  rewrite diffFuncsIn_New, diffFuncsIn_Removed, diffFuncsIn_Changed.
  repeat split; apply elem_of_nil_inv.
  - intros f Hin. apply (elem_of_pickAbsent X) in Hin as (k & ? & ?); [|done].
    congruence.
  - intros f Hin. apply (elem_of_pickAbsent X) in Hin as (k & ? & ?); [|done].
    congruence.
  - intros [f t] Hin.
    apply (elem_of_pickChanged X) in Hin as (k & Hf & Ht & Hs); [|done].
    apply Hs. assert (f = t) as -> by congruence. by repeat split.
Qed.

Lemma diffFuncs_self_empty_witness :
  let d := diffFuncs sampleFrom sampleFrom in
  NewFuncs d = [] ∧ RemovedFuncs d = [] ∧ ChangedFuncs d = [].
Proof.
  apply (diffFuncs_self_empty (map_to_list sampleFrom)
           (map_to_list sampleFrom) sampleFrom); apply ranges_map_to_list.
Defined.

(** ** Per-package statistics *)

Lemma int_incr_small v : 0 ≤ v < MaxInt → int_incr v = v + 1.
Proof.
  unfold int_incr, int_wrap, MaxInt. intros H.
  rewrite Z.mod_small; lia.
Qed.

Lemma updateStats_insert upd pkg stats :
  updateStats upd pkg stats
  = <[pkg := upd (default zeroStats (stats !! pkg))]> stats.
Proof.
  unfold updateStats, getStats.
  destruct (stats !! pkg); simpl; [done|]. apply insert_insert_eq.
Qed.

Lemma statOf_updateStats field upd pkg pkg' stats :
  statOf field pkg' (updateStats upd pkg stats) =
  if decide (pkg = pkg') then field (upd (default zeroStats (stats !! pkg)))
  else statOf field pkg' stats.
Proof.
  rewrite updateStats_insert. unfold statOf.
  destruct (decide (pkg = pkg')) as [->|Hne].
  - by rewrite lookup_insert_eq.
  - by rewrite lookup_insert_ne.
Qed.

Lemma sumStats_insert_fresh field pkg s (stats : gmap string PackageStats) :
  stats !! pkg = None →
  sumStats field (<[pkg := s]> stats) = field s + sumStats field stats.
Proof.
  intros Hno. unfold sumStats.
  rewrite map_fold_insert_L; [done| |done].
  intros. lia.
Qed.

Lemma sumStats_insert field pkg s (stats : gmap string PackageStats) :
  field zeroStats = 0 →
  sumStats field (<[pkg := s]> stats)
  = sumStats field stats - statOf field pkg stats + field s.
Proof.
  intros Hz. unfold statOf.
  destruct (stats !! pkg) as [old|] eqn:E; simpl.
  - rewrite <- (insert_delete_eq stats).
    rewrite sumStats_insert_fresh by apply lookup_delete_eq.
    rewrite <- (insert_delete_id stats pkg old E) at 2.
    rewrite sumStats_insert_fresh by apply lookup_delete_eq. lia.
  - rewrite sumStats_insert_fresh by done. lia.
Qed.

Lemma sumStats_updateStats field upd pkg stats :
  field zeroStats = 0 →
  sumStats field (updateStats upd pkg stats)
  = sumStats field stats - statOf field pkg stats
    + field (upd (default zeroStats (stats !! pkg))).
Proof. intros Hz. rewrite updateStats_insert. by apply sumStats_insert. Qed.

Lemma countPkg_snoc pkg l f :
  countPkg pkg (l ++ [f])
  = countPkg pkg l + (if decide (Package f = pkg) then 1 else 0).
Proof.
  unfold countPkg. rewrite filter_app, length_app, Nat2Z.inj_add. f_equal.
  rewrite filter_cons, filter_nil. by destruct (decide (Package f = pkg)).
Qed.

Lemma countPkg_bounds pkg l : 0 ≤ countPkg pkg l ≤ Z.of_nat (length l).
Proof.
  unfold countPkg. pose proof (length_filter (λ f, Package f = pkg) l). lia.
Qed.

Lemma statsMatch_stepFrom to r entry :
  statsMatch r →
  Z.of_nat (length (NewFuncs r)) < MaxInt →
  Z.of_nat (length (ChangedFuncs r)) < MaxInt →
  statsMatch (stepFrom to r entry).
Proof.
  intros (HN & HC & HR & SN & SC & SR) BN BC.
  destruct entry as [k f]. unfold stepFrom.
  destruct (to !! k) as [t|]; [destruct (differs f t)|];
    [|by repeat split|].
  - (* changed *)
    assert (int_incr (statOf Changed (Package f) (PkgStats r))
            = statOf Changed (Package f) (PkgStats r) + 1) as Hincr.
    { apply int_incr_small. rewrite HC.
      pose proof (countPkg_bounds (Package f) (ChangedFuncs r).*1) as Hb.
      rewrite length_fmap in Hb. lia. }
    unfold statsMatch, incrChanged; simpl.
    rewrite fmap_app, length_app; simpl.
    rewrite !sumStats_updateStats by done; simpl.
    fold (statOf New (Package f) (PkgStats r)).
    fold (statOf Removed (Package f) (PkgStats r)).
    fold (statOf Changed (Package f) (PkgStats r)).
    rewrite Hincr. repeat split; try lia.
    + intros pkg. rewrite statOf_updateStats; simpl.
      destruct (decide (Package f = pkg)) as [<-|]; [|done]. apply HN.
    + intros pkg. rewrite statOf_updateStats, countPkg_snoc; simpl.
      fold (statOf Changed (Package f) (PkgStats r)). rewrite Hincr.
      destruct (decide (Package f = pkg)) as [<-|].
      * by rewrite HC.
      * rewrite HC. lia.
    + intros pkg. rewrite statOf_updateStats; simpl.
      destruct (decide (Package f = pkg)) as [<-|]; [|done]. apply HR.
  - (* new *)
    assert (int_incr (statOf New (Package f) (PkgStats r))
            = statOf New (Package f) (PkgStats r) + 1) as Hincr.
    { apply int_incr_small. rewrite HN.
      pose proof (countPkg_bounds (Package f) (NewFuncs r)). lia. }
    unfold statsMatch, incrNew; simpl.
    rewrite length_app; simpl.
    rewrite !sumStats_updateStats by done; simpl.
    fold (statOf New (Package f) (PkgStats r)).
    fold (statOf Removed (Package f) (PkgStats r)).
    fold (statOf Changed (Package f) (PkgStats r)).
    rewrite Hincr. repeat split; try lia.
    + intros pkg. rewrite statOf_updateStats, countPkg_snoc; simpl.
      fold (statOf New (Package f) (PkgStats r)). rewrite Hincr.
      destruct (decide (Package f = pkg)) as [<-|].
      * by rewrite HN.
      * rewrite HN. lia.
    + intros pkg. rewrite statOf_updateStats; simpl.
      destruct (decide (Package f = pkg)) as [<-|]; [|done]. apply HC.
    + intros pkg. rewrite statOf_updateStats; simpl.
      destruct (decide (Package f = pkg)) as [<-|]; [|done]. apply HR.
Qed.

Lemma statsMatch_stepTo from r entry :
  statsMatch r →
  Z.of_nat (length (RemovedFuncs r)) < MaxInt →
  statsMatch (stepTo from r entry).
Proof.
  intros (HN & HC & HR & SN & SC & SR) BR.
  destruct entry as [k t]. unfold stepTo.
  destruct (from !! k); [by repeat split|].
  assert (int_incr (statOf Removed (Package t) (PkgStats r))
          = statOf Removed (Package t) (PkgStats r) + 1) as Hincr.
  { apply int_incr_small. rewrite HR.
    pose proof (countPkg_bounds (Package t) (RemovedFuncs r)). lia. }
  unfold statsMatch, incrRemoved; simpl.
  rewrite length_app; simpl.
  rewrite !sumStats_updateStats by done; simpl.
  fold (statOf New (Package t) (PkgStats r)).
  fold (statOf Removed (Package t) (PkgStats r)).
  fold (statOf Changed (Package t) (PkgStats r)).
  rewrite Hincr. repeat split; try lia.
  - intros pkg. rewrite statOf_updateStats; simpl.
    destruct (decide (Package t = pkg)) as [<-|]; [|done]. apply HN.
  - intros pkg. rewrite statOf_updateStats; simpl.
    destruct (decide (Package t = pkg)) as [<-|]; [|done]. apply HC.
  - intros pkg. rewrite statOf_updateStats, countPkg_snoc; simpl.
    fold (statOf Removed (Package t) (PkgStats r)). rewrite Hincr.
    destruct (decide (Package t = pkg)) as [<-|].
    + by rewrite HR.
    + rewrite HR. lia.
Qed.

Lemma stepFrom_lengths to r entry :
  (length (NewFuncs (stepFrom to r entry)) ≤ S (length (NewFuncs r)))%nat ∧
  (length (ChangedFuncs (stepFrom to r entry))
   ≤ S (length (ChangedFuncs r)))%nat.
Proof.
  destruct entry as [k f]. unfold stepFrom.
  destruct (to !! k) as [t|]; [destruct (differs f t)|]; simpl;
    rewrite ?length_app; simpl; lia.
Qed.

Lemma stepTo_lengths from r entry :
  (length (RemovedFuncs (stepTo from r entry))
   ≤ S (length (RemovedFuncs r)))%nat.
Proof.
  destruct entry as [k t]. unfold stepTo.
  destruct (from !! k); simpl; rewrite ?length_app; simpl; lia.
Qed.

Lemma statsMatch_foldl_stepFrom to l r :
  statsMatch r →
  Z.of_nat (length (NewFuncs r) + length l) ≤ MaxInt →
  Z.of_nat (length (ChangedFuncs r) + length l) ≤ MaxInt →
  statsMatch (foldl (stepFrom to) r l).
Proof.
  revert r. induction l as [|e l IH]; intros r Hm BN BC; [done|].
  simpl in BN, BC. cbn [foldl].
  pose proof (stepFrom_lengths to r e) as [L1 L2].
  apply IH.
  - apply statsMatch_stepFrom; [done|lia|lia].
  - lia.
  - lia.
Qed.

Lemma statsMatch_foldl_stepTo from l r :
  statsMatch r →
  Z.of_nat (length (RemovedFuncs r) + length l) ≤ MaxInt →
  statsMatch (foldl (stepTo from) r l).
Proof.
  revert r. induction l as [|e l IH]; intros r Hm BR; [done|].
  simpl in BR. cbn [foldl].
  pose proof (stepTo_lengths from r e) as L.
  apply IH.
  - apply statsMatch_stepTo; [done|lia].
  - lia.
Qed.

Lemma statsMatch_diffFuncsIn fromOrder toOrder from to :
  ranges from fromOrder → ranges to toOrder →
  Z.of_nat (size from) ≤ MaxInt → Z.of_nat (size to) ≤ MaxInt →
  statsMatch (diffFuncsIn fromOrder toOrder from to).
Proof.
  intros Hfo Hto_o Bf Bt. unfold diffFuncsIn.
  apply ranges_length in Hfo, Hto_o.
  apply statsMatch_foldl_stepTo.
  - apply statsMatch_foldl_stepFrom; simpl; [|lia|lia].
    repeat split; intros; done.
  - destruct (foldl_stepFrom_lists to fromOrder
      (mkDiffResult [] [] [] (Z.of_nat (size from)) (Z.of_nat (size to)) ∅))
      as (_ & _ & -> & _).
    simpl. lia.
Qed.

(** C8. The counters of a package count the new and the changed entries
    by the package of the from-side record and the removed entries by
    the package of the to-side record (the new entries are records of
    [from], the removed ones records of [to]); and each of the three
    counters, summed over the packages, is the length of its list. The
    sizes of the two maps are those of Go maps: they fit an [int]. *)
Theorem diffFuncs_package_counters
    (fromOrder toOrder : list (FuncKey * FuncInfo)) (from to : FuncSet) :
  ranges from fromOrder → ranges to toOrder →
  Z.of_nat (size from) ≤ MaxInt → Z.of_nat (size to) ≤ MaxInt →
  let d := diffFuncsIn fromOrder toOrder from to in
  (∀ pkg,
     statOf New pkg (PkgStats d) = countPkg pkg (NewFuncs d) ∧
     statOf Changed pkg (PkgStats d) = countPkg pkg ((ChangedFuncs d).*1) ∧
     statOf Removed pkg (PkgStats d) = countPkg pkg (RemovedFuncs d)) ∧
  (∀ f, f ∈ NewFuncs d → ∃ k, from !! k = Some f) ∧
  (∀ f t, (f, t) ∈ ChangedFuncs d →
     ∃ k, from !! k = Some f ∧ to !! k = Some t) ∧
  (∀ t, t ∈ RemovedFuncs d → ∃ k, to !! k = Some t) ∧
  sumStats New (PkgStats d) = Z.of_nat (length (NewFuncs d)) ∧
  sumStats Changed (PkgStats d) = Z.of_nat (length (ChangedFuncs d)) ∧
  sumStats Removed (PkgStats d) = Z.of_nat (length (RemovedFuncs d)).
Proof.
  intros Hfo Hto_o Bf Bt d.
  destruct (statsMatch_diffFuncsIn fromOrder toOrder from to Hfo Hto_o Bf Bt)
    as (HN & HC & HR & SN & SC & SR).
  fold d in HN, HC, HR, SN, SC, SR.
  split; [by intros pkg|].
  split; [|split; [|split; [|done]]].
  - intros f Hin. subst d. rewrite diffFuncsIn_New in Hin.
    apply (elem_of_pickAbsent from) in Hin as (k & ? & ?); eauto.
  - intros f t Hin. subst d. rewrite diffFuncsIn_Changed in Hin.
    apply (elem_of_pickChanged from) in Hin as (k & ? & ? & ?); eauto.
  - intros t Hin. subst d. rewrite diffFuncsIn_Removed in Hin.
    apply (elem_of_pickAbsent to) in Hin as (k & ? & ?); eauto.
Qed.

Lemma diffFuncs_package_counters_witness :
  let d := diffFuncs sampleFrom sampleTo in
  (∀ pkg,
     statOf New pkg (PkgStats d) = countPkg pkg (NewFuncs d) ∧
     statOf Changed pkg (PkgStats d) = countPkg pkg ((ChangedFuncs d).*1) ∧
     statOf Removed pkg (PkgStats d) = countPkg pkg (RemovedFuncs d)) ∧
  (∀ f, f ∈ NewFuncs d → ∃ k, sampleFrom !! k = Some f) ∧
  (∀ f t, (f, t) ∈ ChangedFuncs d →
     ∃ k, sampleFrom !! k = Some f ∧ sampleTo !! k = Some t) ∧
  (∀ t, t ∈ RemovedFuncs d → ∃ k, sampleTo !! k = Some t) ∧
  sumStats New (PkgStats d) = Z.of_nat (length (NewFuncs d)) ∧
  sumStats Changed (PkgStats d) = Z.of_nat (length (ChangedFuncs d)) ∧
  sumStats Removed (PkgStats d) = Z.of_nat (length (RemovedFuncs d)).
Proof.
  apply (diffFuncs_package_counters (map_to_list sampleFrom)
           (map_to_list sampleTo) sampleFrom sampleTo).
  - apply ranges_map_to_list.
  - apply ranges_map_to_list.
  - vm_compute. discriminate.
  - vm_compute. discriminate.
Defined.

(** The two examples of the design document, evaluated. *)
Example diffFuncs_sample_stats :
  let d := diffFuncs sampleFrom sampleTo in
  ChangedFuncs d = [(sampleF, sampleF2)] ∧ NewFuncs d = [sampleM] ∧
  PkgStats d !! "a" = Some (mkPackageStats 0 0 1) ∧
  PkgStats d !! "b" = Some (mkPackageStats 1 0 0) ∧
  PkgStats d !! "c" = Some (mkPackageStats 0 1 0).
Proof. vm_compute. repeat split. Qed.

(** ** Line extraction *)

Lemma Split_length s sep : (1 ≤ length (Split s sep))%nat.
Proof.
  induction s as [|c s IH]; simpl; [lia|].
  destruct (Ascii.eqb c sep); simpl; [lia|].
  destruct (Split s sep); simpl in *; lia.
Qed.

Lemma slice_Some {A} (l : list A) lo hi :
  0 ≤ lo → lo ≤ hi → hi ≤ Z.of_nat (length l) →
  slice l lo hi = Some (take (Z.to_nat (hi - lo)) (drop (Z.to_nat lo) l)).
Proof.
  intros. unfold slice. rewrite bool_decide_eq_true_2; [done|lia].
Qed.

(** C10. [extractLines] never panics. With [lo] the start line raised
    to at least 1 and [hi] the end line lowered to at most the number of
    lines, it returns the empty text when [lo > hi], and otherwise the
    lines number [lo] to [hi] (counted from 1, both included) joined by
    line feeds; each of these lines exists in the line list. *)
Theorem extractLines_clamps_and_slices (src : string) (startLine endLine : Z) :
  let lines := Split src LF in
  let lo := Z.max startLine 1 in
  let hi := Z.min endLine (Z.of_nat (length lines)) in
  ∃ picked,
    extractLines src startLine endLine = Some (Join picked nl) ∧
    if decide (hi < lo) then picked = []
    else
      Z.of_nat (length picked) = hi - lo + 1 ∧
      ∀ j : nat, (j < length picked)%nat →
        ∃ line, picked !! j = Some line ∧
                lines !! (Z.to_nat (lo - 1) + j)%nat = Some line.
Proof.
  intros lines lo hi. unfold extractLines. fold lines.
  pose proof (Split_length src LF) as Hlen. fold lines in Hlen.
  destruct (Z.eqb_spec (Z.of_nat (length lines)) 0) as [E|_]; [lia|].
  replace (if startLine <? 1 then 1 else startLine) with lo
    by (subst lo; destruct (Z.ltb_spec startLine 1); lia).
  replace (if endLine >? Z.of_nat (length lines)
           then Z.of_nat (length lines) else endLine) with hi
    by (subst hi; rewrite Z.gtb_ltb;
        destruct (Z.ltb_spec (Z.of_nat (length lines)) endLine); lia).
  rewrite Z.gtb_ltb.
  destruct (Z.ltb_spec hi lo) as [Hlt|Hle].
  - exists []. split; [done|]. by rewrite decide_True.
  - assert (1 ≤ lo) by lia.
    assert (hi ≤ Z.of_nat (length lines)) by lia.
    rewrite slice_Some by lia. simpl.
    exists (take (Z.to_nat (hi - (lo - 1))) (drop (Z.to_nat (lo - 1)) lines)).
    split; [done|]. rewrite decide_False by lia. split.
    + rewrite length_take, length_drop. lia.
    + intros j Hj. rewrite length_take, length_drop in Hj.
      rewrite lookup_take_lt by lia. rewrite lookup_drop.
      destruct (lookup_lt_is_Some_2 lines (Z.to_nat (lo - 1) + j)) as [x Hx];
        [lia|].
      exists x. by rewrite Hx.
Qed.

Example extractLines_middle :
  extractLines ("a" +:+ nl +:+ "b" +:+ nl +:+ "c" +:+ nl +:+ "d") 2 3
  = Some ("b" +:+ nl +:+ "c").
Proof. reflexivity. Qed.

Example extractLines_clamped :
  extractLines ("a" +:+ nl +:+ "b") (-4) 99 = Some ("a" +:+ nl +:+ "b") ∧
  extractLines ("a" +:+ nl +:+ "b") 3 1 = Some "" ∧
  extractLines "" 7 9 = Some "".
Proof. repeat split. Qed.

(** ** Body normalization *)

Lemma prefix_cons_ne c old a s :
  a ≠ c → String.prefix (String c old) (String a s) = false.
Proof. intros Hne. simpl. destruct (ascii_dec c a); congruence. Qed.

Lemma prefix_empty s : String.prefix "" s = true.
Proof. by destruct s. Qed.

Lemma replaceFrom_one_byte c new s :
  replaceFrom (String c "") new 0 s =
  match s with
  | "" => ""
  | String a s' =>
      if Ascii.eqb a c then new +:+ replaceFrom (String c "") new 0 s'
      else String a (replaceFrom (String c "") new 0 s')
  end.
Proof.
  destruct s as [|a s']; [done|]. cbn [replaceFrom]. simpl String.prefix.
  destruct (ascii_dec c a) as [->|Hne].
  - by rewrite prefix_empty, Ascii.eqb_refl.
  - destruct (Ascii.eqb_spec a c); [congruence|done].
Qed.

Lemma prefix_crlf a t :
  String.prefix crlf (String a t) = true → a = CR ∧ ∃ t', t = String LF t'.
Proof.
  unfold crlf. cbn [String.prefix].
  destruct (ascii_dec CR a) as [<-|]; [|done].
  destruct t as [|b t]; cbn [String.prefix]; [done|].
  destruct (ascii_dec LF b) as [<-|]; [|done]. eauto.
Qed.

(** A text in which the first byte of [old] does not occur has nothing
    to replace. *)
Lemma replaceFrom_absent c old new s :
  containsByte s c = false → replaceFrom (String c old) new 0 s = s.
Proof.
  induction s as [|a s IH]; [done|]. intros H.
  simpl in H. apply orb_false_iff in H as [Ha Hs].
  apply Ascii.eqb_neq in Ha.
  cbn [replaceFrom]. rewrite prefix_cons_ne by done. by rewrite IH.
Qed.

Lemma containsByte_app s1 s2 c :
  containsByte (s1 +:+ s2) c = containsByte s1 c || containsByte s2 c.
Proof.
  induction s1 as [|a s1 IH]; simpl; [done|]. by rewrite IH, orb_assoc.
Qed.

(** Replacing a byte by a text without it removes the byte. *)
Lemma replaceFrom_byte_gone c new s :
  containsByte new c = false →
  containsByte (replaceFrom (String c "") new 0 s) c = false.
Proof.
  intros Hnew. induction s as [|a s IH]; [done|].
  cbn [replaceFrom]. simpl String.prefix.
  destruct (ascii_dec c a) as [->|Hne]; simpl.
  - rewrite prefix_empty. by rewrite containsByte_app, Hnew, IH.
  - rewrite IH, orb_false_r. apply Ascii.eqb_neq. congruence.
Qed.

Lemma unifyLineEndings_no_CR s : containsByte (unifyLineEndings s) CR = false.
Proof. unfold unifyLineEndings, ReplaceAll. by apply replaceFrom_byte_gone. Qed.

Lemma unifyLineEndings_id s :
  containsByte s CR = false → unifyLineEndings s = s.
Proof.
  intros H. unfold unifyLineEndings, ReplaceAll, crlf, cr.
  rewrite (replaceFrom_absent CR (String LF "") nl s H).
  apply (replaceFrom_absent CR "" nl s H).
Qed.

(** Fields of a split: free of the separator, and of any byte the text
    is free of. *)
Lemma Split_no_sep s sep :
  Forall (λ line, containsByte line sep = false) (Split s sep).
Proof.
  induction s as [|c s IH]; simpl; [by repeat constructor|].
  destruct (Ascii.eqb c sep) eqn:E; [by constructor|].
  destruct (Split s sep) as [|field fields]; [by repeat constructor; simpl; rewrite E|].
  inversion IH; subst. constructor; [|done]. simpl. by rewrite E.
Qed.

Lemma Split_no_byte s sep c :
  containsByte s c = false →
  Forall (λ line, containsByte line c = false) (Split s sep).
Proof.
  induction s as [|a s IH]; simpl; [by repeat constructor|].
  intros H. apply orb_false_iff in H as [Ha Hs]. specialize (IH Hs).
  destruct (Ascii.eqb a sep); [by constructor|].
  destruct (Split s sep) as [|field fields].
  - repeat constructor. simpl. by rewrite Ha.
  - inversion IH; subst. constructor; [|done]. simpl. by rewrite Ha.
Qed.

Lemma Split_single s sep : containsByte s sep = false → Split s sep = [s].
Proof.
  induction s as [|a s IH]; simpl; [done|].
  intros H. apply orb_false_iff in H as [Ha Hs].
  by rewrite Ha, IH.
Qed.

Lemma Split_app_sep x s sep :
  containsByte x sep = false →
  Split (x +:+ String sep s) sep = x :: Split s sep.
Proof.
  induction x as [|a x IH]; simpl.
  - intros _. by rewrite Ascii.eqb_refl.
  - intros H. apply orb_false_iff in H as [Ha Hx].
    by rewrite Ha, IH.
Qed.

Lemma Split_Join lines sep :
  lines ≠ [] →
  Forall (λ line, containsByte line sep = false) lines →
  Split (Join lines (String sep "")) sep = lines.
Proof.
  intros Hne Hall. induction Hall as [|x rest Hx Hrest IH]; [done|].
  destruct rest as [|y rest].
  - simpl. by apply Split_single.
  - change (Join (x :: y :: rest) (String sep ""))
      with (x +:+ String sep (Join (y :: rest) (String sep ""))).
    rewrite Split_app_sep by done. by rewrite IH.
Qed.

Lemma Join_no_byte lines sep c :
  containsByte sep c = false →
  Forall (λ line, containsByte line c = false) lines →
  containsByte (Join lines sep) c = false.
Proof.
  intros Hsep Hall. induction Hall as [|x rest Hx Hrest IH]; [done|].
  destruct rest as [|y rest]; [done|].
  change (Join (x :: y :: rest) sep) with (x +:+ sep +:+ Join (y :: rest) sep).
  by rewrite !containsByte_app, Hx, Hsep, IH.
Qed.

Lemma TrimRight_idempotent s cutset :
  TrimRight (TrimRight s cutset) cutset = TrimRight s cutset.
Proof.
  induction s as [|c s IH]; [done|]. cbn [TrimRight].
  destruct (TrimRight s cutset) as [|d r] eqn:E.
  - destruct (inCutset c cutset) eqn:Hc; [done|]. simpl. by rewrite Hc.
  - cbn [TrimRight]. cbn [TrimRight] in IH. by rewrite IH.
Qed.

Lemma TrimRight_no_byte s cutset c :
  containsByte s c = false → containsByte (TrimRight s cutset) c = false.
Proof.
  induction s as [|a s IH]; [done|]. simpl. intros H.
  apply orb_false_iff in H as [Ha Hs]. specialize (IH Hs).
  destruct (TrimRight s cutset) as [|d r].
  - destruct (inCutset a cutset); [done|]. simpl. by rewrite Ha.
  - simpl. simpl in IH. by rewrite Ha, IH.
Qed.

Lemma dropLeadingBlank_Forall (P : string → Prop) lines :
  Forall P lines → Forall P (dropLeadingBlank lines).
Proof.
  induction 1 as [|x l Hx Hl IH]; simpl; [done|].
  destruct (TrimSpace_empty x); [done|by constructor].
Qed.

Lemma dropTrailingBlank_Forall (P : string → Prop) lines :
  Forall P lines → Forall P (dropTrailingBlank lines).
Proof.
  induction 1 as [|x l Hx Hl IH]; simpl; [done|].
  destruct (dropTrailingBlank l).
  - destruct (TrimSpace_empty x); by repeat constructor.
  - by constructor.
Qed.

Lemma dropTrailingBlank_idempotent lines :
  dropTrailingBlank (dropTrailingBlank lines) = dropTrailingBlank lines.
Proof.
  induction lines as [|x l IH]; [done|]. cbn [dropTrailingBlank].
  destruct (dropTrailingBlank l) as [|k m] eqn:E.
  - destruct (TrimSpace_empty x) eqn:Hx; [done|]. simpl. by rewrite Hx.
  - cbn [dropTrailingBlank]. cbn [dropTrailingBlank] in IH. by rewrite IH.
Qed.

Lemma dropLeadingBlank_after_trailing lines :
  dropLeadingBlank (dropTrailingBlank (dropLeadingBlank lines))
  = dropTrailingBlank (dropLeadingBlank lines).
Proof.
  induction lines as [|x l IH]; [done|]. cbn [dropLeadingBlank].
  destruct (TrimSpace_empty x) eqn:Hx; [done|].
  cbn [dropTrailingBlank].
  destruct (dropTrailingBlank l); rewrite ?Hx; simpl; by rewrite Hx.
Qed.

(** A list of lines that the passes of [normalizeBody] leave alone is
    reproduced from its joined text. *)
Lemma normalizeBody_Join_fixed lines :
  Forall (λ line, containsByte line LF = false) lines →
  Forall (λ line, containsByte line CR = false) lines →
  Forall (λ line, TrimRight line spaceTab = line) lines →
  dropLeadingBlank lines = lines →
  dropTrailingBlank lines = lines →
  normalizeBody (Join lines nl) = Join lines nl.
Proof.
  intros HLF HCR Htrim Hlead Htrail.
  destruct (decide (lines = [])) as [->|Hne]; [done|].
  unfold normalizeBody.
  rewrite unifyLineEndings_id by (by apply Join_no_byte).
  unfold nl at 1. rewrite Split_Join by done.
  assert ((λ line, TrimRight line spaceTab) <$> lines = lines) as ->.
  { clear -Htrim. induction Htrim as [|x l Hx Hl IH]; [done|].
    rewrite fmap_cons. by rewrite Hx, IH. }
  by rewrite Hlead, Htrail.
Qed.

(** C7. Normalizing a normalized body changes nothing. *)
Theorem normalizeBody_idempotent (s : string) :
  normalizeBody (normalizeBody s) = normalizeBody s.
Proof.
  unfold normalizeBody at 2 3.
  set (trimmed := (λ line, TrimRight line spaceTab)
                    <$> Split (unifyLineEndings s) LF).
  assert (Forall (λ line, containsByte line LF = false) trimmed) as HLF.
  { apply Forall_fmap. eapply Forall_impl; [apply Split_no_sep|].
    intros line H. by apply TrimRight_no_byte. }
  assert (Forall (λ line, containsByte line CR = false) trimmed) as HCR.
  { apply Forall_fmap.
    eapply Forall_impl;
      [apply Split_no_byte, unifyLineEndings_no_CR|].
    intros line H. by apply TrimRight_no_byte. }
  assert (Forall (λ line, TrimRight line spaceTab = line) trimmed) as Htrim.
  { apply Forall_fmap, Forall_true. intros line. apply TrimRight_idempotent. }
  apply normalizeBody_Join_fixed.
  - by apply dropTrailingBlank_Forall, dropLeadingBlank_Forall.
  - by apply dropTrailingBlank_Forall, dropLeadingBlank_Forall.
  - by apply dropTrailingBlank_Forall, dropLeadingBlank_Forall.
  - apply dropLeadingBlank_after_trailing.
  - apply dropTrailingBlank_idempotent.
Qed.

Example normalizeBody_sample :
  normalizeBody (String SP (String CR (String LF
     ("func f() { " +:+ cr +:+ String TAB "return" +:+ String TAB crlf
      +:+ "}" +:+ nl +:+ nl))))
  = "func f() {" +:+ nl +:+ String TAB "return" +:+ nl +:+ "}".
Proof. reflexivity. Qed.

(** ** The renderer does not panic *)

Lemma extractLines_is_Some src startLine endLine :
  is_Some (extractLines src startLine endLine).
Proof.
  unfold extractLines.
  pose proof (Split_length src LF) as Hlen.
  set (lines := Split src LF) in *.
  destruct (Z.of_nat (length lines) =? 0); [by eexists|].
  set (lo := if startLine <? 1 then 1 else startLine).
  set (hi := if endLine >? Z.of_nat (length lines)
             then Z.of_nat (length lines) else endLine).
  assert (1 ≤ lo) by (subst lo; destruct (Z.ltb_spec startLine 1); lia).
  assert (hi ≤ Z.of_nat (length lines)).
  { subst hi. rewrite Z.gtb_ltb.
    destruct (Z.ltb_spec (Z.of_nat (length lines)) endLine); lia. }
  rewrite Z.gtb_ltb. destruct (Z.ltb_spec hi lo); [by eexists|].
  rewrite slice_Some by lia. by eexists.
Qed.

Section RendererTotal.
Context {W : Type} (sys : Sys W).

Lemma loadBody_is_Some ref info w : is_Some (loadBody sys ref info w).
Proof.
  unfold loadBody. destruct (gitShowFile sys ref (File info) w).
  - apply extractLines_is_Some.
  - by eexists.
Qed.

Lemma writeChangedFuncFile_is_Some outDir fromRef toRef fromInfo toInfo w :
  is_Some (writeChangedFuncFile sys outDir fromRef toRef fromInfo toInfo w).
Proof.
  unfold writeChangedFuncFile.
  destruct (String.eqb outDir ""); [by eexists|].
  destruct (MkdirAll sys outDir w) as [w1 [msg|]]; [by eexists|].
  destruct (loadBody_is_Some fromRef fromInfo w1) as [fromBody ->].
  destruct (loadBody_is_Some toRef toInfo w1) as [toBody ->].
  simpl.
  destruct (WriteFile sys _ _ w1) as [w2 [msg|]]; by eexists.
Qed.

Lemma writeChangedLoop_is_Some outDir fromRef toRef changed files w :
  is_Some (writeChangedLoop sys outDir fromRef toRef changed files w).
Proof.
  revert files w. induction changed as [|[f t] rest IH]; intros files w.
  { by eexists. }
  cbn [writeChangedLoop].
  destruct (writeChangedFuncFile_is_Some outDir fromRef toRef f t w)
    as [[w1 [name err]] ->].
  simpl. destruct err; [apply IH|].
  destruct (negb (String.eqb name "")); apply IH.
Qed.

Lemma writeAllChangedFuncFiles_is_Some outDir fromRef toRef changed w :
  is_Some (writeAllChangedFuncFiles sys outDir fromRef toRef changed w).
Proof.
  unfold writeAllChangedFuncFiles.
  destruct (String.eqb outDir ""); [by eexists|].
  destruct (MkdirAll sys outDir w) as [w1 [msg|]]; [by eexists|].
  apply writeChangedLoop_is_Some.
Qed.

Lemma buildMarkdownReportIn_is_Some fromOrder toOrder fromRef toRef
    fromFuncs toFuncs summaryOnly outDir w :
  is_Some (buildMarkdownReportIn sys fromOrder toOrder fromRef toRef
             fromFuncs toFuncs summaryOnly outDir w).
Proof.
  unfold buildMarkdownReportIn.
  set (d := diffFuncsIn fromOrder toOrder fromFuncs toFuncs).
  destruct summaryOnly.
  - destruct (negb (String.eqb outDir "")); [|by eexists].
    destruct (writeAllChangedFuncFiles_is_Some outDir fromRef toRef
                (ChangedFuncs d) w) as [[w1 files] ->].
    by eexists.
  - destruct (bool_decide (ChangedFuncs d = [])); [by eexists|].
    destruct (negb (String.eqb outDir "")); [|by eexists].
    destruct (writeAllChangedFuncFiles_is_Some outDir fromRef toRef
                (ChangedFuncs d) w) as [[w1 files] ->].
    by eexists.
Qed.

End RendererTotal.

Lemma append_empty_r s : s +:+ "" = s.
Proof.
  induction s as [|c s IH]; [done|].
  change (String c (s +:+ "") = String c s). by rewrite IH.
Qed.

Lemma append_assoc s1 s2 s3 : (s1 +:+ s2) +:+ s3 = s1 +:+ (s2 +:+ s3).
Proof.
  induction s1 as [|c s1 IH]; [done|].
  change (String c ((s1 +:+ s2) +:+ s3) = String c (s1 +:+ (s2 +:+ s3))).
  by rewrite IH.
Qed.

Lemma diffFuncs_empty : diffFuncs ∅ ∅ = mkDiffResult [] [] [] 0 0 ∅.
Proof. reflexivity. Qed.

Lemma reportHead_empty fromRef toRef :
  reportHead fromRef toRef (mkDiffResult [] [] [] 0 0 ∅)
  = emptyReport fromRef toRef true.
Proof.
  unfold reportHead, emptyReport. cbn -[String.append].
  by rewrite !append_empty_r.
Qed.

Lemma emptyReport_full fromRef toRef :
  emptyReport fromRef toRef true +:+
    "#### New Functions in `" +:+ fromRef +:+ "` (not in `" +:+ toRef
       +:+ "`)" +:+ nl +:+ nl +:+ "_None_" +:+ nl +:+ nl +:+
     "#### Removed Functions (only in `" +:+ toRef +:+ "`)" +:+ nl +:+ nl
       +:+ "_None_" +:+ nl +:+ nl +:+
     "#### Changed Functions" +:+ nl +:+ nl +:+ "_None_" +:+ nl +:+ nl
  = emptyReport fromRef toRef false.
Proof.
  unfold emptyReport. cbv beta iota.
  by rewrite !append_assoc, ?append_empty_r.
Qed.

(** C9. The renderer, and the diff engine it calls, never panic: for
    any two inventories, any visiting order and any behaviour of the
    outside world, [buildMarkdownReport] returns a report. In particular
    the diff of two empty inventories has both totals zero, three empty
    lists and no package statistics, and its report is the all-zero
    summary document. *)
Theorem renderer_never_panics {W : Type} (sys : Sys W)
    (fromOrder toOrder : list (FuncKey * FuncInfo)) (fromRef toRef : string)
    (from to : FuncSet) (summaryOnly : bool) (outDir : string) (w : W) :
  is_Some (buildMarkdownReportIn sys fromOrder toOrder fromRef toRef
             from to summaryOnly outDir w) ∧
  diffFuncs ∅ ∅ = mkDiffResult [] [] [] 0 0 ∅ ∧
  ∃ w', buildMarkdownReport sys fromRef toRef ∅ ∅ summaryOnly outDir w
        = Some (w', emptyReport fromRef toRef summaryOnly).
Proof.
  split; [apply buildMarkdownReportIn_is_Some|]. split; [done|].
  unfold buildMarkdownReport, buildMarkdownReportIn.
  change (diffFuncsIn (map_to_list ∅) (map_to_list ∅) ∅ ∅)
    with (mkDiffResult [] [] [] 0 0 ∅).
  rewrite reportHead_empty. cbn [ChangedFuncs NewFuncs RemovedFuncs].
  destruct summaryOnly.
  - destruct (negb (String.eqb outDir "")) eqn:Hout; [|by eexists].
    unfold writeAllChangedFuncFiles.
    apply negb_true_iff in Hout. rewrite Hout.
    assert (addChangedFilesIndex outDir [] = "") as Hidx.
    { unfold addChangedFilesIndex. by rewrite orb_true_r. }
    destruct (MkdirAll sys outDir w) as [w1 [msg|]]; simpl;
      rewrite Hidx, append_empty_r; by eexists.
  - exists w. simpl. do 2 f_equal.
    rewrite <- emptyReport_full.
    unfold listingSection; simpl.
    by rewrite !append_assoc.
Qed.

Example buildMarkdownReport_empty_sample :
  buildMarkdownReport (sampleSys sampleFiles) "dev" "master" ∅ ∅ true "out" tt
  = Some (tt, emptyReport "dev" "master" true).
Proof. vm_compute. reflexivity. Qed.

(** ** Identical bodies *)

Lemma prefix_app needle post : String.prefix needle (needle +:+ post) = true.
Proof.
  induction needle as [|a needle IH]; [apply prefix_empty|].
  change (String a needle +:+ post) with (String a (needle +:+ post)).
  simpl. by destruct (ascii_dec a a).
Qed.

Lemma prefix_app_r needle hay post :
  String.prefix needle hay = true → String.prefix needle (hay +:+ post) = true.
Proof.
  revert hay. induction needle as [|b needle IH]; intros hay H.
  { apply prefix_empty. }
  destruct hay as [|a hay]; [done|].
  change (String a hay +:+ post) with (String a (hay +:+ post)).
  simpl in *. destruct (ascii_dec b a); [|done]. by apply IH.
Qed.

Lemma isInfix_prefix needle hay :
  String.prefix needle hay = true → isInfix needle hay = true.
Proof. intros H. destruct hay; simpl in *; by rewrite H. Qed.

Lemma isInfix_app_l needle pre hay :
  isInfix needle hay = true → isInfix needle (pre +:+ hay) = true.
Proof.
  intros H. induction pre as [|a pre IH]; [done|].
  change (String a pre +:+ hay) with (String a (pre +:+ hay)).
  cbn [isInfix]. rewrite IH. apply orb_true_r.
Qed.

Lemma isInfix_app_r needle hay post :
  isInfix needle hay = true → isInfix needle (hay +:+ post) = true.
Proof.
  revert needle. induction hay as [|a hay IH]; intros needle H.
  - destruct needle; [|done]. apply isInfix_prefix, prefix_empty.
  - change (String a hay +:+ post) with (String a (hay +:+ post)).
    cbn [isInfix] in *. apply orb_true_iff in H as [H|H].
    + apply orb_true_iff. left.
      by apply (prefix_app_r needle (String a hay) post).
    + rewrite (IH needle H). apply orb_true_r.
Qed.

Lemma isInfix_suffix needle pre : isInfix needle (pre +:+ needle) = true.
Proof.
  apply isInfix_app_l, isInfix_prefix.
  rewrite <- (append_empty_r needle) at 2. apply prefix_app.
Qed.

(** The program's reading of line endings, one byte or pair at a time. *)
Lemma unify_cons_LF s :
  unifyLineEndings (String LF s) = String LF (unifyLineEndings s).
Proof.
  unfold unifyLineEndings, ReplaceAll. cbn [replaceFrom].
  unfold crlf at 1. rewrite prefix_cons_ne by done.
  unfold cr at 1. by rewrite replaceFrom_one_byte.
Qed.

Lemma unify_cons_CRLF s :
  unifyLineEndings (String CR (String LF s)) = String LF (unifyLineEndings s).
Proof.
  unfold unifyLineEndings, ReplaceAll. cbn [replaceFrom].
  simpl String.prefix. rewrite prefix_empty. cbn [String.length Nat.pred].
  change (nl +:+ ?x) with (String LF x).
  unfold cr at 1. by rewrite replaceFrom_one_byte.
Qed.

Lemma unify_cons_CR s :
  (∀ s', s ≠ String LF s') →
  unifyLineEndings (String CR s) = String LF (unifyLineEndings s).
Proof.
  intros H. unfold unifyLineEndings, ReplaceAll. cbn [replaceFrom].
  destruct (String.prefix crlf (String CR s)) eqn:E.
  { apply prefix_crlf in E as (_ & s' & ->). by destruct (H s'). }
  unfold cr at 1. rewrite replaceFrom_one_byte. by rewrite Ascii.eqb_refl.
Qed.

Lemma unify_cons_other c s :
  c ≠ LF → c ≠ CR →
  unifyLineEndings (String c s) = String c (unifyLineEndings s).
Proof.
  intros H1 H2. unfold unifyLineEndings, ReplaceAll. cbn [replaceFrom].
  unfold crlf at 1. rewrite prefix_cons_ne by done.
  unfold cr at 1. rewrite replaceFrom_one_byte.
  by destruct (Ascii.eqb_spec c CR).
Qed.

Lemma Split_unify_textLines_aux n s :
  (String.length s ≤ n)%nat → Split (unifyLineEndings s) LF = textLines s.
Proof.
  revert s. induction n as [|n IH]; intros s Hn.
  { destruct s; [done|simpl in Hn; lia]. }
  destruct s as [|c rest]; [done|]. simpl in Hn. cbn [textLines].
  destruct (Ascii.eqb_spec c LF) as [->|HLF].
  { rewrite unify_cons_LF. cbn [Split]. rewrite Ascii.eqb_refl.
    f_equal. apply IH. lia. }
  destruct (Ascii.eqb_spec c CR) as [->|HCR].
  - destruct rest as [|d rest'].
    + rewrite unify_cons_CR by done. cbn [Split]. by rewrite Ascii.eqb_refl.
    + destruct (Ascii.eqb_spec d LF) as [->|Hd].
      * rewrite unify_cons_CRLF. cbn [Split]. rewrite Ascii.eqb_refl.
        f_equal. apply IH. simpl in Hn. lia.
      * rewrite unify_cons_CR by congruence. cbn [Split].
        rewrite Ascii.eqb_refl. f_equal. apply IH. lia.
  - rewrite unify_cons_other by done. cbn [Split].
    destruct (Ascii.eqb_spec c LF); [done|].
    rewrite IH by lia. done.
Qed.

(** The program's lines are the lines of the text. *)
Lemma Split_unify_textLines s : Split (unifyLineEndings s) LF = textLines s.
Proof. by apply (Split_unify_textLines_aux (String.length s)). Qed.

Lemma TrimRight_empty s cutset :
  TrimRight s cutset = "" ↔ allOf (λ c, inCutset c cutset) s = true.
Proof.
  induction s as [|c s IH]; [done|]. cbn [TrimRight allOf].
  rewrite andb_true_iff, <- IH.
  destruct (TrimRight s cutset) as [|d r].
  - destruct (inCutset c cutset); naive_solver.
  - naive_solver.
Qed.

Lemma TrimRight_withoutTrailing s cutset :
  TrimRight s cutset = withoutTrailing (λ c, inCutset c cutset) s.
Proof.
  induction s as [|c s IH]; [done|]. cbn [TrimRight withoutTrailing allOf].
  pose proof (TrimRight_empty s cutset) as HE. rewrite <- IH.
  destruct (TrimRight s cutset) as [|d r].
  - rewrite (proj1 HE eq_refl), andb_true_r.
    by destruct (inCutset c cutset).
  - destruct (allOf (λ c0, inCutset c0 cutset) s).
    + discriminate (proj2 HE eq_refl).
    + by rewrite andb_false_r.
Qed.

Lemma allOf_ext ws ws' s : (∀ c, ws c = ws' c) → allOf ws s = allOf ws' s.
Proof. intros H. induction s as [|c s IH]; [done|]. simpl. by rewrite H, IH. Qed.

Lemma withoutTrailing_ext ws ws' s :
  (∀ c, ws c = ws' c) → withoutTrailing ws s = withoutTrailing ws' s.
Proof.
  intros H. induction s as [|c s IH]; [done|]. cbn [withoutTrailing].
  by rewrite (allOf_ext ws ws' _ H), IH.
Qed.

(** The lines that [normalizeBody] has after its trimming loop are the
    lines of the text without their trailing spaces and tabs. *)
Lemma normalizeBody_textLines s :
  (λ line, TrimRight line spaceTab) <$> Split (unifyLineEndings s) LF
  = withoutTrailing isSpaceOrTab <$> textLines s.
Proof.
  rewrite Split_unify_textLines. apply list_fmap_ext. intros _ line _.
  rewrite TrimRight_withoutTrailing. apply withoutTrailing_ext.
  intros c. unfold spaceTab, isSpaceOrTab. simpl. by rewrite orb_false_r.
Qed.

Example textLines_sample :
  textLines ("a " +:+ crlf +:+ "b" +:+ cr +:+ cr +:+ String TAB "c"
             +:+ String TAB nl)
  = ["a "; "b"; ""; String TAB "c" +:+ String TAB ""; ""] ∧
  withoutTrailing isSpaceOrTab (String TAB "c " +:+ String TAB " ")
  = String TAB "c" ∧
  sameUpToLineStyle isSpaceOrTab ("a " +:+ crlf +:+ "b") ("a" +:+ cr +:+ "b  ") ∧
  ¬ sameUpToLineStyle isSpaceOrTab ("a" +:+ nl +:+ "b") ("a" +:+ nl +:+ nl +:+ "b") ∧
  ¬ sameUpToLineStyle isSpaceOrTab " a" "a".
Proof.
  split; [reflexivity|]. split; [reflexivity|]. split; [reflexivity|].
  split; intros H; vm_compute in H; discriminate.
Qed.

Lemma sameUpToLineStyle_normalizeBody a b :
  sameUpToLineStyle isSpaceOrTab a b → normalizeBody a = normalizeBody b.
Proof.
  unfold sameUpToLineStyle. rewrite <- !normalizeBody_textLines.
  unfold normalizeBody. by intros ->.
Qed.

Lemma isIdenticalBody_true a b :
  isIdenticalBody a b = true ↔
  normalizeBody a ≠ "" ∧ normalizeBody a = normalizeBody b.
Proof.
  unfold isIdenticalBody.
  rewrite andb_true_iff, negb_true_iff, String.eqb_neq, String.eqb_eq.
  done.
Qed.

Lemma changedFuncContent_note {W} (sys : Sys W) fromRef toRef fromInfo toInfo
    fromBody toBody :
  isIdenticalBody fromBody toBody = true →
  isInfix (identicalNote fromRef toRef)
    (changedFuncContent sys fromRef toRef fromInfo toInfo fromBody toBody)
  = true.
Proof.
  intros Hflag. unfold changedFuncContent, changedFuncText. rewrite Hflag.
  apply isInfix_app_r. rewrite <- !append_assoc. apply isInfix_suffix.
Qed.

(** C4, as the code has it. When the two bodies loaded for a changed
    pair are identical except for the style of their line endings and
    the spaces and tabs that end their lines (in the sense of
    [sameUpToLineStyle], which is stated on the texts and not on the
    program), and the normalized body is not empty, the artifact is
    written under the name with the identical prefix and its text
    carries the identical-body callout. *)
Theorem identical_bodies_flagged {W : Type} (sys : Sys W)
    (outDir fromRef toRef : string) (fromInfo toInfo : FuncInfo)
    (w w1 : W) (fromBody toBody : string) :
  outDir ≠ "" →
  MkdirAll sys outDir w = (w1, None) →
  loadBody sys fromRef fromInfo w1 = Some fromBody →
  loadBody sys toRef toInfo w1 = Some toBody →
  sameUpToLineStyle isSpaceOrTab fromBody toBody →
  normalizeBody fromBody ≠ "" →
  let baseName := "identical_" +:+ changedFuncFilenameWithRecv fromInfo in
  let content :=
    changedFuncContent sys fromRef toRef fromInfo toInfo fromBody toBody in
  let path := pathJoin sys outDir baseName in
  isIdenticalBody fromBody toBody = true ∧
  isInfix (identicalNote fromRef toRef) content = true ∧
  writeChangedFuncFile sys outDir fromRef toRef fromInfo toInfo w =
    match WriteFile sys path content w1 with
    | (w2, None) => Some (w2, (baseName, None))
    | (w2, Some msg) =>
        Some (w2, ("", Some ("write " +:+ path +:+ ": " +:+ msg)))
    end.
Proof.
  intros Hout Hmk Hfrom Hto Hsame Hne baseName content path.
  assert (isIdenticalBody fromBody toBody = true) as Hflag.
  { apply isIdenticalBody_true. split; [done|].
    by apply sameUpToLineStyle_normalizeBody. }
  split; [done|]. split; [by apply changedFuncContent_note|].
  unfold writeChangedFuncFile.
  apply String.eqb_neq in Hout. rewrite Hout, Hmk, Hfrom, Hto. simpl.
  unfold changedFuncBaseName. rewrite Hflag.
  fold baseName. fold content. fold path.
  by destruct (WriteFile sys path content w1) as [w2 [msg|]].
Qed.

Lemma identical_bodies_flagged_witness :
  let sys := sampleSys sampleFiles in
  let baseName := "identical_" +:+ changedFuncFilenameWithRecv sampleF in
  let content :=
    changedFuncContent sys "dev" "master" sampleF sampleFShifted
      sampleFromBody sampleToBody in
  let path := pathJoin sys "out" baseName in
  isIdenticalBody sampleFromBody sampleToBody = true ∧
  isInfix (identicalNote "dev" "master") content = true ∧
  writeChangedFuncFile sys "out" "dev" "master" sampleF sampleFShifted tt =
    match WriteFile sys path content tt with
    | (w2, None) => Some (w2, (baseName, None))
    | (w2, Some msg) =>
        Some (w2, ("", Some ("write " +:+ path +:+ ": " +:+ msg)))
    end.
Proof.
  apply (identical_bodies_flagged (sampleSys sampleFiles) "out" "dev" "master"
           sampleF sampleFShifted tt tt sampleFromBody sampleToBody).
  - discriminate.
  - reflexivity.
  - vm_compute. reflexivity.
  - vm_compute. reflexivity.
  - vm_compute. reflexivity.
  - vm_compute. discriminate.
Defined.

Example writeChangedFuncFile_sample :
  writeChangedFuncFile (sampleSys sampleFiles) "out" "dev" "master"
    sampleF sampleFShifted tt
  = Some (tt, ("identical_a.go__F.md", None)).
Proof. vm_compute. reflexivity. Qed.

(** C4 as stated fails in two ways, both by the design of the code,
    on the changed pair of [F] and [F] one line further down. The flag is guarded by a non-empty normalized body: the two bodies
    of blank lines below are identical except for line endings and
    trailing white space, yet the artifact is written without the
    identical prefix and without the callout. And the trimming loop
    removes spaces and tabs only: the two bodies of the second part
    differ in a form feed at the end of a line, which is trailing white
    space, and are not flagged either, although their normalized bodies
    are not empty. *)
Lemma similar_bodies_not_flagged :
  keyOf sampleF = keyOf sampleFShifted ∧
  differs sampleF sampleFShifted = true ∧
  (let sys := sampleSys blankFiles in
   ∃ fromBody toBody,
     loadBody sys "dev" sampleF tt = Some fromBody ∧
     loadBody sys "master" sampleFShifted tt = Some toBody ∧
     sameUpToLineStyle asciiSpace fromBody toBody ∧
     sameUpToLineStyle isSpaceOrTab fromBody toBody ∧
     isIdenticalBody fromBody toBody = false ∧
     writeChangedFuncFile sys "out" "dev" "master" sampleF sampleFShifted tt
       = Some (tt, ("a.go__F.md", None)) ∧
     isInfix (identicalNote "dev" "master")
       (changedFuncContent sys "dev" "master" sampleF sampleFShifted
          fromBody toBody) = false) ∧
  (let sys := sampleSys formFeedFiles in
   ∃ fromBody toBody,
     loadBody sys "dev" sampleF tt = Some fromBody ∧
     loadBody sys "master" sampleFShifted tt = Some toBody ∧
     sameUpToLineStyle asciiSpace fromBody toBody ∧
     ¬ sameUpToLineStyle isSpaceOrTab fromBody toBody ∧
     normalizeBody fromBody ≠ "" ∧
     isIdenticalBody fromBody toBody = false ∧
     writeChangedFuncFile sys "out" "dev" "master" sampleF sampleFShifted tt
       = Some (tt, ("a.go__F.md", None)) ∧
     isInfix (identicalNote "dev" "master")
       (changedFuncContent sys "dev" "master" sampleF sampleFShifted
          fromBody toBody) = false).
Proof.
  split; [reflexivity|]. split; [reflexivity|]. split.
  - exists (String TAB nl +:+ nl), (nl +:+ nl).
    vm_compute. repeat split.
  - exists ("func F(x int) {" +:+ String FF nl +:+ String TAB "return" +:+ nl
            +:+ "}"),
           ("func F(x int) {" +:+ nl +:+ String TAB "return" +:+ nl +:+ "}").
    split; [vm_compute; reflexivity|]. split; [vm_compute; reflexivity|].
    split; [vm_compute; reflexivity|].
    split; [intros H; vm_compute in H; discriminate|].
    split; [vm_compute; discriminate|].
    vm_compute. repeat split.
Qed.

(** ** File names of the artifacts *)

Lemma append_cons c s t : String c s +:+ t = String c (s +:+ t).
Proof. done. Qed.

Lemma append_inj_l s x y : s +:+ x = s +:+ y → x = y.
Proof.
  induction s as [|c s IH]; [done|]. rewrite !append_cons.
  intros [= H]. by apply IH.
Qed.

Lemma length_append s t :
  String.length (s +:+ t) = (String.length s + String.length t)%nat.
Proof.
  induction s as [|c s IH]; [done|]. rewrite append_cons. simpl.
  by rewrite IH.
Qed.

Lemma append_inj_r s x y : x +:+ s = y +:+ s → x = y.
Proof.
  revert y. induction x as [|c x IH]; intros [|d y] H.
  - done.
  - apply (f_equal String.length) in H.
    rewrite append_cons in H. simpl in H. rewrite !length_append in H.
    simpl in H. lia.
  - apply (f_equal String.length) in H.
    rewrite append_cons in H. simpl in H. rewrite !length_append in H.
    simpl in H. lia.
  - rewrite !append_cons in H. injection H as -> H. f_equal. by apply IH.
Qed.

Lemma separatorFree_tail c s :
  separatorFree (String c s) = true → separatorFree s = true.
Proof.
  simpl. destruct (isUnderscore c); [|done].
  destruct s as [|d s]; [done|]. intros H.
  by apply andb_true_iff in H as [_ H].
Qed.

Lemma separatorFree_not_at_separator p x1 x2 :
  separatorFree p = true →
  p ≠ "" →
  String "_" (String "_" x1) ≠ p +:+ String "_" (String "_" x2).
Proof.
  intros Hp Hne H. destruct p as [|c p]; [done|].
  rewrite append_cons in H. injection H as <- H.
  simpl in Hp. change (isUnderscore "_") with true in Hp.
  destruct p as [|d p]; [done|].
  rewrite append_cons in H. injection H as <- H.
  by change (isUnderscore "_") with true in Hp.
Qed.

(** A name splits at its first separator in only one way. *)
Lemma split_at_separator p1 p2 x1 x2 :
  separatorFree p1 = true → separatorFree p2 = true →
  p1 +:+ String "_" (String "_" x1) = p2 +:+ String "_" (String "_" x2) →
  p1 = p2 ∧ x1 = x2.
Proof.
  revert p2. induction p1 as [|c p1 IH]; intros p2 H1 H2 H.
  - destruct p2 as [|d p2].
    + simpl in H. by injection H.
    + exfalso. by apply (separatorFree_not_at_separator (String d p2) x1 x2).
  - destruct p2 as [|d p2].
    + exfalso. symmetry in H.
      by apply (separatorFree_not_at_separator (String c p1) x2 x1).
    + rewrite !append_cons in H. injection H as -> H.
      destruct (IH p2 (separatorFree_tail _ _ H1) (separatorFree_tail _ _ H2) H)
        as [-> ->].
      done.
Qed.

Lemma separatorFree_hasSeparator s :
  separatorFree s = true → hasSeparator s = false.
Proof.
  induction s as [|c s IH]; [done|]. intros H.
  pose proof (separatorFree_tail _ _ H) as Ht. simpl in *.
  rewrite (IH Ht), orb_false_r.
  destruct (isUnderscore c); [|done].
  destruct s as [|d s]; [done|]. simpl.
  apply andb_true_iff in H as [H _]. by apply negb_true_iff in H.
Qed.

Lemma hasSeparator_app_separator a b :
  hasSeparator (a +:+ String "_" (String "_" b)) = true.
Proof.
  induction a as [|c a IH]; [done|]. rewrite append_cons. simpl.
  rewrite IH. apply orb_true_r.
Qed.

Lemma hasSeparator_md n : hasSeparator (n +:+ ".md") = hasSeparator n.
Proof.
  induction n as [|c n IH]; [done|]. rewrite append_cons. simpl.
  rewrite IH. f_equal. f_equal. by destruct n.
Qed.

Lemma split_at_separator_lit p1 p2 x1 x2 :
  separatorFree p1 = true → separatorFree p2 = true →
  p1 +:+ "__" +:+ x1 = p2 +:+ "__" +:+ x2 →
  p1 = p2 ∧ x1 = x2.
Proof. apply split_at_separator. Qed.

Lemma hasSeparator_app_lit a b : hasSeparator (a +:+ "__" +:+ b) = true.
Proof. apply hasSeparator_app_separator. Qed.

Lemma safeRecvOf_empty info : Receiver info = "" → safeRecvOf info = "".
Proof. unfold safeRecvOf. by intros ->. Qed.

(** Under the proviso on underscores the file name determines the
    three components it is built from. *)
Lemma changedFuncFilenameWithRecv_inj i1 i2 :
  separatorFreeParts i1 → separatorFreeParts i2 →
  changedFuncFilenameWithRecv i1 = changedFuncFilenameWithRecv i2 →
  nameParts i1 = nameParts i2.
Proof.
  intros (HP1 & HR1 & HN1) (HP2 & HR2 & HN2).
  unfold changedFuncFilenameWithRecv, nameParts.
  destruct (String.eqb_spec (Receiver i1) "") as [E1|E1],
           (String.eqb_spec (Receiver i2) "") as [E2|E2];
    cbn [negb]; intros H.
  - apply split_at_separator_lit in H as [-> H]; [|done|done].
    apply append_inj_r in H as ->.
    by rewrite !safeRecvOf_empty.
  - exfalso. apply split_at_separator_lit in H as [_ H]; [|done|done].
    apply (f_equal hasSeparator) in H.
    rewrite hasSeparator_md, hasSeparator_app_lit in H.
    rewrite separatorFree_hasSeparator in H; done.
  - exfalso. apply split_at_separator_lit in H as [_ H]; [|done|done].
    apply (f_equal hasSeparator) in H.
    rewrite hasSeparator_md, hasSeparator_app_lit in H.
    rewrite separatorFree_hasSeparator in H; done.
  - apply split_at_separator_lit in H as [-> H]; [|done|done].
    apply split_at_separator_lit in H as [-> H]; [|done|done].
    by apply append_inj_r in H as ->.
Qed.

(** C3, as the code has it. The base name of an artifact is determined
    by the file, receiver and name of the from-side record and by the
    identical-body flag. Two pairs with the same flag get different base
    names when their from-side records differ in one of the components
    of the name (the file with its separators replaced, the receiver
    with its pointer marker replaced, the name), provided that in each
    component every underscore is followed by a character other than an
    underscore. *)
Theorem changed_file_names (i1 i2 : FuncInfo)
    (fromBody1 toBody1 fromBody2 toBody2 : string) :
  isIdenticalBody fromBody1 toBody1 = isIdenticalBody fromBody2 toBody2 →
  (File i1 = File i2 → Receiver i1 = Receiver i2 → Name i1 = Name i2 →
   changedFuncBaseName i1 fromBody1 toBody1
   = changedFuncBaseName i2 fromBody2 toBody2) ∧
  (separatorFreeParts i1 → separatorFreeParts i2 →
   nameParts i1 ≠ nameParts i2 →
   changedFuncBaseName i1 fromBody1 toBody1
   ≠ changedFuncBaseName i2 fromBody2 toBody2).
Proof.
  intros Hflag. unfold changedFuncBaseName. rewrite Hflag. split.
  - intros HF HR HN.
    unfold changedFuncFilenameWithRecv, safePathOf, safeRecvOf.
    by rewrite HF, HR, HN.
  - intros H1 H2 Hne Heq. apply Hne.
    apply changedFuncFilenameWithRecv_inj; [done|done|].
    destruct (isIdenticalBody fromBody2 toBody2); [|done].
    by apply append_inj_l in Heq.
Qed.

Lemma changed_file_names_witness :
  changedFuncBaseName sampleF sampleFromBody sampleToBody
  = changedFuncBaseName sampleF sampleFromBody sampleToBody ∧
  changedFuncBaseName sampleF sampleFromBody sampleToBody
  ≠ changedFuncBaseName sampleM sampleFromBody sampleToBody.
Proof.
  split.
  - apply (changed_file_names sampleF sampleF sampleFromBody sampleToBody
             sampleFromBody sampleToBody); reflexivity.
  - apply (changed_file_names sampleF sampleM sampleFromBody sampleToBody
             sampleFromBody sampleToBody).
    + reflexivity.
    + vm_compute. repeat split.
    + vm_compute. repeat split.
    + discriminate.
Defined.

Example changed_file_names_sample :
  separatorFreeParts sampleF ∧ separatorFreeParts sampleM ∧
  nameParts sampleF ≠ nameParts sampleM ∧
  changedFuncFilenameWithRecv sampleF = "a.go__F.md" ∧
  changedFuncFilenameWithRecv sampleM = "b.go__ptrT__M.md".
Proof. vm_compute. repeat split. discriminate. Qed.

(** C3 as stated fails: two declarations of one snapshot that differ in
    their file (and in their identity key) get the same base name, and a
    run that renders both as changed writes the same file twice. *)
Lemma file_names_collide :
  keyOf collideA ≠ keyOf collideB ∧
  (File collideA, Receiver collideA, Name collideA)
    ≠ (File collideB, Receiver collideB, Name collideB) ∧
  changedFuncFilenameWithRecv collideA = changedFuncFilenameWithRecv collideB ∧
  changedFuncBaseName collideA sampleFromBody sampleToBody
  = changedFuncBaseName collideB sampleFromBody sampleToBody ∧
  length (ChangedFuncs (diffFuncs collideFrom collideTo)) = 2%nat ∧
  writeAllChangedFuncFiles (sampleSys noFiles) "out" "dev" "master"
    (ChangedFuncs (diffFuncs collideFrom collideTo)) tt
  = Some (tt, ["a_b.go__F.md"; "a_b.go__F.md"]).
Proof.
  split; [discriminate|]. split; [discriminate|].
  repeat split; vm_compute; reflexivity.
Qed.

(** * Further properties of the code *)

(** ** The diff engine: accounting, statistics, visiting order *)

Lemma omap_exclusive_length {A B C} (f : A → option B) (g : A → option C)
    (l : list A) :
  (∀ x, is_Some (f x) → g x = None) →
  (length (omap f l) + length (omap g l) ≤ length l)%nat.
Proof.
  intros Hex. induction l as [|x l IH]; [done|].
  cbn [omap list_omap length].
  destruct (f x) eqn:Ef.
  - rewrite (Hex x) by (by rewrite Ef). cbn [length]. lia.
  - destruct (g x); cbn [length]; lia.
Qed.

Lemma pickAbsent_count (m other : FuncSet) :
  (length (omap (pickAbsent other) (map_to_list m))
   + size (dom m ∩ dom other) = size m)%nat.
Proof.
  induction m as [|k v m Hk IH] using map_ind.
  { rewrite map_to_list_empty, dom_empty_L, map_size_empty. simpl.
    replace (∅ ∩ dom other) with (∅ : gset FuncKey) by set_solver.
    by rewrite size_empty. }
  rewrite (map_to_list_insert m k v Hk), map_size_insert_None by done.
  rewrite dom_insert_L. cbn [omap list_omap]. unfold pickAbsent at 1.
  cbn [fst snd].
  assert (k ∉ dom m) as Hnd by (by apply not_elem_of_dom).
  destruct (other !! k) as [t|] eqn:Ek.
  - assert (k ∈ dom other) as Hin by (apply elem_of_dom; eauto).
    replace (({[k]} ∪ dom m) ∩ dom other)
      with ({[k]} ∪ (dom m ∩ dom other)) by set_solver.
    rewrite size_union by set_solver. rewrite size_singleton. lia.
  - assert (k ∉ dom other) as Hout by (by apply not_elem_of_dom).
    replace (({[k]} ∪ dom m) ∩ dom other)
      with (dom m ∩ dom other) by set_solver.
    simpl. lia.
Qed.

Lemma pickAbsent_count_ranges (m other : FuncSet) order :
  ranges m order →
  (length (omap (pickAbsent other) order)
   + size (dom m ∩ dom other) = size m)%nat.
Proof.
  intros Hr. unfold ranges in Hr. rewrite Hr. apply pickAbsent_count.
Qed.

(** X1. Every declaration is accounted for: each total is the number
    of entries reported for its side plus the number of keys the two
    inventories share, and the changed entries are among the shared
    keys. *)
Theorem diffFuncs_accounting
    (fromOrder toOrder : list (FuncKey * FuncInfo)) (from to : FuncSet) :
  ranges from fromOrder → ranges to toOrder →
  let d := diffFuncsIn fromOrder toOrder from to in
  let shared := Z.of_nat (size (dom from ∩ dom to)) in
  FromTotal d = Z.of_nat (length (NewFuncs d)) + shared ∧
  ToTotal d = Z.of_nat (length (RemovedFuncs d)) + shared ∧
  Z.of_nat (length (ChangedFuncs d)) ≤ shared.
Proof.
  intros Hfo Hto_o d shared. subst d shared.
  destruct (diffFuncsIn_totals fromOrder toOrder from to) as [-> ->].
  rewrite diffFuncsIn_New, diffFuncsIn_Removed, diffFuncsIn_Changed.
  pose proof (pickAbsent_count_ranges from to fromOrder Hfo) as H1.
  pose proof (pickAbsent_count_ranges to from toOrder Hto_o) as H2.
  replace (dom to ∩ dom from) with (dom from ∩ dom to) in H2 by set_solver.
  pose proof (omap_exclusive_length (pickChanged to) (pickAbsent to) fromOrder)
    as H3.
  rewrite (ranges_length _ _ Hfo) in H3.
  assert (∀ x, is_Some (pickChanged to x) → pickAbsent to x = None) as Hex.
  { intros [k f]. unfold pickChanged, pickAbsent. simpl.
    destruct (to !! k); [done|]. by intros [? ?]. }
  specialize (H3 Hex). lia.
Qed.

Lemma diffFuncs_accounting_witness :
  let d := diffFuncs sampleFrom sampleTo in
  let shared := Z.of_nat (size (dom sampleFrom ∩ dom sampleTo)) in
  FromTotal d = Z.of_nat (length (NewFuncs d)) + shared ∧
  ToTotal d = Z.of_nat (length (RemovedFuncs d)) + shared ∧
  Z.of_nat (length (ChangedFuncs d)) ≤ shared.
Proof.
  apply (diffFuncs_accounting (map_to_list sampleFrom) (map_to_list sampleTo)
           sampleFrom sampleTo); apply ranges_map_to_list.
Defined.

Lemma is_Some_updateStats upd p stats pkg :
  is_Some (updateStats upd p stats !! pkg) ↔ p = pkg ∨ is_Some (stats !! pkg).
Proof. rewrite updateStats_insert. apply lookup_insert_is_Some'. Qed.

Lemma domMatch_stepFrom to r entry : domMatch r → domMatch (stepFrom to r entry).
Proof.
  intros Hr pkg. destruct entry as [k f]. unfold stepFrom.
  destruct (to !! k) as [t|]; [destruct (differs f t)|]; [|apply Hr|].
  - unfold incrChanged, listedPackage. cbn [PkgStats NewFuncs ChangedFuncs RemovedFuncs].
    rewrite is_Some_updateStats, (Hr pkg). unfold listedPackage. split.
    + intros [<-|[H|[H|H]]].
      * right; left. exists f, t. split; [|done]. apply elem_of_app. right.
        by apply list_elem_of_singleton.
      * by left.
      * right; left. destruct H as (f' & t' & Hin & <-). exists f', t'.
        split; [|done]. apply elem_of_app. by left.
      * by right; right.
    + intros [H|[H|H]].
      * right. by left.
      * destruct H as (f' & t' & Hin & <-).
        apply elem_of_app in Hin as [Hin|Hin].
        -- right. right; left. by exists f', t'.
        -- apply list_elem_of_singleton in Hin. injection Hin as -> ->. by left.
      * right. by right; right.
  - unfold incrNew, listedPackage. cbn [PkgStats NewFuncs ChangedFuncs RemovedFuncs].
    rewrite is_Some_updateStats, (Hr pkg). unfold listedPackage. split.
    + intros [<-|[H|[H|H]]].
      * left. exists f. split; [|done]. apply elem_of_app. right.
        by apply list_elem_of_singleton.
      * left. destruct H as (f' & Hin & <-). exists f'.
        split; [|done]. apply elem_of_app. by left.
      * by right; left.
      * by right; right.
    + intros [H|[H|H]].
      * destruct H as (f' & Hin & <-).
        apply elem_of_app in Hin as [Hin|Hin].
        -- right. left. by exists f'.
        -- apply list_elem_of_singleton in Hin. subst f'. by left.
      * right. by right; left.
      * right. by right; right.
Qed.

Lemma domMatch_stepTo from r entry : domMatch r → domMatch (stepTo from r entry).
Proof.
  intros Hr pkg. destruct entry as [k t]. unfold stepTo.
  destruct (from !! k); [apply Hr|].
  unfold incrRemoved, listedPackage. cbn [PkgStats NewFuncs ChangedFuncs RemovedFuncs].
  rewrite is_Some_updateStats, (Hr pkg). unfold listedPackage. split.
  - intros [<-|[H|[H|H]]].
    + right; right. exists t. split; [|done]. apply elem_of_app. right.
      by apply list_elem_of_singleton.
    + by left.
    + by right; left.
    + right; right. destruct H as (t' & Hin & <-). exists t'.
      split; [|done]. apply elem_of_app. by left.
  - intros [H|[H|H]].
    + right. by left.
    + right. by right; left.
    + destruct H as (t' & Hin & <-).
      apply elem_of_app in Hin as [Hin|Hin].
      * right. right; right. by exists t'.
      * apply list_elem_of_singleton in Hin. subst t'. by left.
Qed.

Lemma domMatch_diffFuncsIn fromOrder toOrder from to :
  domMatch (diffFuncsIn fromOrder toOrder from to).
Proof.
  unfold diffFuncsIn.
  assert (∀ l r, domMatch r → domMatch (foldl (stepFrom to) r l)) as H1.
  { induction l as [|e l IH]; intros r Hr; [done|].
    cbn [foldl]. by apply IH, domMatch_stepFrom. }
  assert (∀ l r, domMatch r → domMatch (foldl (stepTo from) r l)) as H2.
  { induction l as [|e l IH]; intros r Hr; [done|].
    cbn [foldl]. by apply IH, domMatch_stepTo. }
  apply H2, H1. intros pkg. cbn [PkgStats]. rewrite lookup_empty. split.
  - by intros [? ?].
  - intros [(f & Hin & _)|[(f & t & Hin & _)|(t & Hin & _)]];
      by apply elem_of_nil in Hin.
Qed.

Lemma countPkg_pos pkg l f :
  f ∈ l → Package f = pkg → 1 ≤ countPkg pkg l.
Proof.
  intros Hin Hp. unfold countPkg.
  assert (f ∈ filter (λ f, Package f = pkg) l) as H
    by (by apply list_elem_of_filter).
  destruct (filter (λ f, Package f = pkg) l); [by apply elem_of_nil in H|].
  simpl. lia.
Qed.

(** X2. The statistics have a row for a package exactly when an entry
    of one of the three lists belongs to it (a new or changed entry by
    its from-side record, a removed entry by its to-side record), and
    the three counters of a row are never all zero. *)
Theorem diffFuncs_stats_rows
    (fromOrder toOrder : list (FuncKey * FuncInfo)) (from to : FuncSet)
    (pkg : string) :
  ranges from fromOrder → ranges to toOrder →
  Z.of_nat (size from) ≤ MaxInt → Z.of_nat (size to) ≤ MaxInt →
  let d := diffFuncsIn fromOrder toOrder from to in
  (is_Some (PkgStats d !! pkg) ↔ listedPackage d pkg) ∧
  (∀ s, PkgStats d !! pkg = Some s →
        0 ≤ New s ∧ 0 ≤ Removed s ∧ 0 ≤ Changed s ∧
        1 ≤ New s + Removed s + Changed s).
Proof.
  intros Hfo Hto_o Bf Bt d.
  pose proof (domMatch_diffFuncsIn fromOrder toOrder from to pkg) as Hdom.
  fold d in Hdom. split; [done|]. intros s Hs.
  destruct (statsMatch_diffFuncsIn fromOrder toOrder from to Hfo Hto_o Bf Bt)
    as (HN & HC & HR & _).
  fold d in HN, HC, HR.
  specialize (HN pkg). specialize (HC pkg). specialize (HR pkg).
  unfold statOf in HN, HC, HR. rewrite Hs in HN, HC, HR. simpl in HN, HC, HR.
  pose proof (countPkg_bounds pkg (NewFuncs d)) as B1.
  pose proof (countPkg_bounds pkg (ChangedFuncs d).*1) as B2.
  pose proof (countPkg_bounds pkg (RemovedFuncs d)) as B3.
  assert (listedPackage d pkg) as [H|[H|H]] by (apply Hdom; eauto).
  - destruct H as (f & Hin & Hp).
    pose proof (countPkg_pos pkg _ f Hin Hp). lia.
  - destruct H as (f & t & Hin & Hp).
    assert (f ∈ (ChangedFuncs d).*1) as Hin'.
    { apply list_elem_of_fmap. by exists (f, t). }
    pose proof (countPkg_pos pkg _ f Hin' Hp). lia.
  - destruct H as (t & Hin & Hp).
    pose proof (countPkg_pos pkg _ t Hin Hp). lia.
Qed.

Lemma diffFuncs_stats_rows_witness :
  let d := diffFuncs sampleFrom sampleTo in
  (is_Some (PkgStats d !! "b") ↔ listedPackage d "b") ∧
  (∀ s, PkgStats d !! "b" = Some s →
        0 ≤ New s ∧ 0 ≤ Removed s ∧ 0 ≤ Changed s ∧
        1 ≤ New s + Removed s + Changed s).
Proof.
  apply (diffFuncs_stats_rows (map_to_list sampleFrom) (map_to_list sampleTo)
           sampleFrom sampleTo "b").
  - apply ranges_map_to_list.
  - apply ranges_map_to_list.
  - vm_compute. discriminate.
  - vm_compute. discriminate.
Defined.

Lemma countPkg_Permutation pkg l1 l2 : l1 ≡ₚ l2 → countPkg pkg l1 = countPkg pkg l2.
Proof. intros H. unfold countPkg. by rewrite H. Qed.

Lemma listedPackage_Permutation r1 r2 pkg :
  NewFuncs r1 ≡ₚ NewFuncs r2 → ChangedFuncs r1 ≡ₚ ChangedFuncs r2 →
  RemovedFuncs r1 ≡ₚ RemovedFuncs r2 →
  listedPackage r1 pkg → listedPackage r2 pkg.
Proof.
  intros HN HC HR [(f & Hin & Hp)|[(f & t & Hin & Hp)|(t & Hin & Hp)]].
  - left. exists f. by rewrite <- HN.
  - right; left. exists f, t. by rewrite <- HC.
  - right; right. exists t. by rewrite <- HR.
Qed.

Lemma ranges_Permutation m order order' :
  ranges m order → ranges m order' → order ≡ₚ order'.
Proof. unfold ranges. intros -> ->. done. Qed.

(** The result of the diff for two visiting orders of the same maps. *)
Lemma diffFuncsIn_orders fo fo' to_o to_o' (from to : FuncSet) :
  ranges from fo → ranges from fo' → ranges to to_o → ranges to to_o' →
  Z.of_nat (size from) ≤ MaxInt → Z.of_nat (size to) ≤ MaxInt →
  let d := diffFuncsIn fo to_o from to in
  let d' := diffFuncsIn fo' to_o' from to in
  NewFuncs d ≡ₚ NewFuncs d' ∧ RemovedFuncs d ≡ₚ RemovedFuncs d' ∧
  ChangedFuncs d ≡ₚ ChangedFuncs d' ∧ PkgStats d = PkgStats d' ∧
  FromTotal d = FromTotal d' ∧ ToTotal d = ToTotal d'.
Proof.
  intros Hfo Hfo' Hto Hto' Bf Bt d d'.
  pose proof (ranges_Permutation _ _ _ Hfo Hfo') as Pf.
  pose proof (ranges_Permutation _ _ _ Hto Hto') as Pt.
  assert (NewFuncs d ≡ₚ NewFuncs d') as HN.
  { subst d d'. rewrite !diffFuncsIn_New. by rewrite Pf. }
  assert (RemovedFuncs d ≡ₚ RemovedFuncs d') as HR.
  { subst d d'. rewrite !diffFuncsIn_Removed. by rewrite Pt. }
  assert (ChangedFuncs d ≡ₚ ChangedFuncs d') as HC.
  { subst d d'. rewrite !diffFuncsIn_Changed. by rewrite Pf. }
  split; [done|]. split; [done|]. split; [done|].
  split.
  - destruct (statsMatch_diffFuncsIn fo to_o from to Hfo Hto Bf Bt)
      as (SN & SC & SR & _).
    destruct (statsMatch_diffFuncsIn fo' to_o' from to Hfo' Hto' Bf Bt)
      as (SN' & SC' & SR' & _).
    fold d in SN, SC, SR. fold d' in SN', SC', SR'.
    pose proof (domMatch_diffFuncsIn fo to_o from to) as D.
    pose proof (domMatch_diffFuncsIn fo' to_o' from to) as D'.
    fold d in D. fold d' in D'.
    apply map_eq. intros pkg.
    specialize (SN pkg). specialize (SC pkg). specialize (SR pkg).
    specialize (SN' pkg). specialize (SC' pkg). specialize (SR' pkg).
    rewrite (countPkg_Permutation pkg _ _ HN) in SN.
    rewrite (countPkg_Permutation pkg (ChangedFuncs d).*1 (ChangedFuncs d').*1)
      in SC by (by rewrite HC).
    rewrite (countPkg_Permutation pkg _ _ HR) in SR.
    unfold statOf in *.
    destruct (PkgStats d !! pkg) as [s|] eqn:E,
             (PkgStats d' !! pkg) as [s'|] eqn:E'.
    + simpl in *. destruct s, s'; simpl in *. congruence.
    + exfalso. assert (is_Some (PkgStats d' !! pkg)) as [? ?]; [|congruence].
      apply D'. apply (listedPackage_Permutation d d'); [done..|].
      apply D. by rewrite E.
    + exfalso. assert (is_Some (PkgStats d !! pkg)) as [? ?]; [|congruence].
      apply D. apply (listedPackage_Permutation d' d); [done..|].
      apply D'. by rewrite E'.
    + done.
  - subst d d'.
    destruct (diffFuncsIn_totals fo to_o from to) as [-> ->].
    by destruct (diffFuncsIn_totals fo' to_o' from to) as [-> ->].
Qed.

(** X3. The order in which Go visits the two maps does not matter: for
    any two visiting orders the three lists hold the same entries (up
    to their order) and the totals and per-package statistics are
    equal. *)
Theorem diffFuncs_order_independent
    (fo fo' to_o to_o' : list (FuncKey * FuncInfo)) (from to : FuncSet) :
  ranges from fo → ranges from fo' → ranges to to_o → ranges to to_o' →
  Z.of_nat (size from) ≤ MaxInt → Z.of_nat (size to) ≤ MaxInt →
  let d := diffFuncsIn fo to_o from to in
  let d' := diffFuncsIn fo' to_o' from to in
  NewFuncs d ≡ₚ NewFuncs d' ∧ RemovedFuncs d ≡ₚ RemovedFuncs d' ∧
  ChangedFuncs d ≡ₚ ChangedFuncs d' ∧ PkgStats d = PkgStats d' ∧
  FromTotal d = FromTotal d' ∧ ToTotal d = ToTotal d'.
Proof. apply diffFuncsIn_orders. Qed.

Lemma ranges_reverse m : ranges m (reverse (map_to_list m)).
Proof. unfold ranges. apply reverse_Permutation. Qed.

Lemma diffFuncs_order_independent_witness :
  let d := diffFuncsIn (map_to_list sampleFrom) (map_to_list sampleTo)
             sampleFrom sampleTo in
  let d' := diffFuncsIn (reverse (map_to_list sampleFrom))
              (reverse (map_to_list sampleTo)) sampleFrom sampleTo in
  NewFuncs d ≡ₚ NewFuncs d' ∧ RemovedFuncs d ≡ₚ RemovedFuncs d' ∧
  ChangedFuncs d ≡ₚ ChangedFuncs d' ∧ PkgStats d = PkgStats d' ∧
  FromTotal d = FromTotal d' ∧ ToTotal d = ToTotal d'.
Proof.
  apply (diffFuncs_order_independent (map_to_list sampleFrom)
           (reverse (map_to_list sampleFrom)) (map_to_list sampleTo)
           (reverse (map_to_list sampleTo)) sampleFrom sampleTo).
  - apply ranges_map_to_list.
  - apply ranges_reverse.
  - apply ranges_map_to_list.
  - apply ranges_reverse.
  - vm_compute. discriminate.
  - vm_compute. discriminate.
Defined.

(** X4. The summary of the report (header, totals and per-package
    table) is the same text for every visiting order of the maps. *)
Theorem reportHead_order_independent
    (fo fo' to_o to_o' : list (FuncKey * FuncInfo)) (from to : FuncSet)
    (fromRef toRef : string) :
  ranges from fo → ranges from fo' → ranges to to_o → ranges to to_o' →
  Z.of_nat (size from) ≤ MaxInt → Z.of_nat (size to) ≤ MaxInt →
  reportHead fromRef toRef (diffFuncsIn fo to_o from to)
  = reportHead fromRef toRef (diffFuncsIn fo' to_o' from to).
Proof.
  intros Hfo Hfo' Hto Hto' Bf Bt.
  destruct (diffFuncsIn_orders fo fo' to_o to_o' from to Hfo Hfo' Hto Hto' Bf Bt)
    as (HN & HR & HC & HS & HF & HT).
  unfold reportHead. rewrite HS, HF, HT.
  by rewrite (Permutation_length HN), (Permutation_length HR),
    (Permutation_length HC).
Qed.

Lemma reportHead_order_independent_witness :
  reportHead "dev" "master"
    (diffFuncsIn (map_to_list sampleFrom) (map_to_list sampleTo)
       sampleFrom sampleTo)
  = reportHead "dev" "master"
      (diffFuncsIn (reverse (map_to_list sampleFrom))
         (reverse (map_to_list sampleTo)) sampleFrom sampleTo).
Proof.
  apply (reportHead_order_independent (map_to_list sampleFrom)
           (reverse (map_to_list sampleFrom)) (map_to_list sampleTo)
           (reverse (map_to_list sampleTo)) sampleFrom sampleTo).
  - apply ranges_map_to_list.
  - apply ranges_reverse.
  - apply ranges_map_to_list.
  - apply ranges_reverse.
  - vm_compute. discriminate.
  - vm_compute. discriminate.
Defined.

(** ** Sorting of names *)

Lemma string_leb_trans a b c :
  String.leb a b = true → String.leb b c = true → String.leb a c = true.
Proof.
  unfold String.leb. revert b c.
  induction a as [|x a IH]; intros [|y b] [|z c]; simpl; try done.
  unfold Ascii.compare.
  destruct (N.compare_spec (N_of_ascii x) (N_of_ascii y)) as [E1|L1|G1],
           (N.compare_spec (N_of_ascii y) (N_of_ascii z)) as [E2|L2|G2],
           (N.compare_spec (N_of_ascii x) (N_of_ascii z)) as [E3|L3|G3];
    try done; try lia.
  apply IH.
Qed.

Global Instance string_leb_transitive :
  Transitive (λ a b, Is_true (String.leb a b)).
Proof.
  intros a b c H1 H2. apply Is_true_true. apply Is_true_true in H1, H2.
  by apply (string_leb_trans a b c).
Qed.

Global Instance string_leb_total : Total (λ a b, Is_true (String.leb a b)).
Proof.
  intros a b. destruct (String.leb_total a b) as [H|H]; [left|right];
    by apply Is_true_true.
Qed.

Global Instance string_leb_antisymm :
  AntiSymm (=) (λ a b, Is_true (String.leb a b)).
Proof.
  intros a b H1 H2. apply Is_true_true in H1, H2.
  by apply String.leb_antisym.
Qed.

Lemma sortStrings_Permutation_eq l l' :
  l ≡ₚ l' → sortStrings l = sortStrings l'.
Proof.
  intros H. unfold sortStrings.
  apply (Sorted_unique (λ a b, Is_true (String.leb a b))).
  - apply Sorted_merge_sort, _.
  - apply Sorted_merge_sort, _.
  - by rewrite !merge_sort_Permutation.
Qed.

Lemma fmap_lookup_entries (stats : gmap string PackageStats) :
  (λ pkg, (pkg, default zeroStats (stats !! pkg))) <$> (map_to_list stats).*1
  = map_to_list stats.
Proof.
  rewrite <- list_fmap_compose.
  assert (Forall (λ kv : string * PackageStats, stats !! kv.1 = Some kv.2)
            (map_to_list stats)) as H.
  { apply Forall_forall. intros [k v] Hin. by apply elem_of_map_to_list. }
  induction H as [|[k v] l Hkv Hl IH]; [done|].
  cbn [fmap list_fmap compose fst]. simpl in Hkv. rewrite Hkv. simpl.
  f_equal. apply IH.
Qed.

Lemma reportHead_table fromRef toRef diff :
  ∃ before,
    reportHead fromRef toRef diff
    = (before +:+ packageRows (PkgStats diff)) +:+ nl.
Proof.
  unfold reportHead. rewrite <- !append_assoc. by eexists.
Qed.

(** X5. The per-package table of the report: its rows are the entries
    of the statistics (a package with its three counters), each entry
    once, in ascending byte order of the package names, whatever the
    order in which the program collects the keys of the map before it
    sorts them; and the report head is some text, these rows and a
    blank line. *)
Theorem table_packages_sorted (stats : gmap string PackageStats)
    (keys : list string) :
  keys ≡ₚ (map_to_list stats).*1 →
  ∃ rows : list (string * PackageStats),
    packageRows stats = String.concat "" (packageRow <$> rows) ∧
    rows ≡ₚ map_to_list stats ∧
    rows.*1 = sortStrings keys ∧
    Sorted (λ a b, Is_true (String.leb a b)) rows.*1 ∧
    NoDup rows.*1 ∧
    ∀ fromRef toRef diff, PkgStats diff = stats →
      ∃ before,
        reportHead fromRef toRef diff
        = (before +:+ String.concat "" (packageRow <$> rows)) +:+ nl.
Proof.
  intros Hk.
  set (entry := λ pkg : string, (pkg, default zeroStats (stats !! pkg))).
  exists (entry <$> sortStrings ((map_to_list stats).*1)).
  assert (packageRows stats
          = String.concat ""
              (packageRow <$> (entry <$> sortStrings ((map_to_list stats).*1))))
    as Hrows.
  { unfold packageRows. by rewrite <- list_fmap_compose. }
  assert ((entry <$> sortStrings ((map_to_list stats).*1)).*1
          = sortStrings ((map_to_list stats).*1)) as Hfst.
  { rewrite <- list_fmap_compose. apply list_fmap_id. }
  assert (sortStrings ((map_to_list stats).*1) ≡ₚ (map_to_list stats).*1) as HP.
  { unfold sortStrings. by rewrite merge_sort_Permutation. }
  split; [done|]. split.
  { rewrite HP. unfold entry. by rewrite fmap_lookup_entries. }
  rewrite Hfst. split; [symmetry; by apply sortStrings_Permutation_eq|].
  split; [apply Sorted_merge_sort, _|].
  split; [rewrite HP; apply NoDup_fst_map_to_list|].
  intros fromRef toRef diff <-. rewrite <- Hrows. apply reportHead_table.
Qed.

Lemma table_packages_sorted_witness :
  let stats := PkgStats (diffFuncs sampleFrom sampleTo) in
  let keys := reverse (map_to_list stats).*1 in
  ∃ rows : list (string * PackageStats),
    packageRows stats = String.concat "" (packageRow <$> rows) ∧
    rows ≡ₚ map_to_list stats ∧
    rows.*1 = sortStrings keys ∧
    Sorted (λ a b, Is_true (String.leb a b)) rows.*1 ∧
    NoDup rows.*1 ∧
    ∀ fromRef toRef diff, PkgStats diff = stats →
      ∃ before,
        reportHead fromRef toRef diff
        = (before +:+ String.concat "" (packageRow <$> rows)) +:+ nl.
Proof.
  apply (table_packages_sorted (PkgStats (diffFuncs sampleFrom sampleTo))
           (reverse (map_to_list (PkgStats (diffFuncs sampleFrom sampleTo))).*1)).
  apply reverse_Permutation.
Defined.

(** ** The diff engine: direction and duplicates *)

Lemma sameShape_sym f t : sameShape f t → sameShape t f.
Proof. unfold sameShape. intros (-> & -> & -> & ->). done. Qed.

(** X6. Swapping the two inventories swaps the two records of every
    changed pair: a pair is changed from [from] to [to] exactly when
    the mirrored pair is changed from [to] to [from]. *)
Theorem diffFuncs_changed_mirror
    (fo to_o fo' to_o' : list (FuncKey * FuncInfo)) (from to : FuncSet)
    (f t : FuncInfo) :
  ranges from fo → ranges to to_o' →
  (f, t) ∈ ChangedFuncs (diffFuncsIn fo to_o from to) ↔
  (t, f) ∈ ChangedFuncs (diffFuncsIn to_o' fo' to from).
Proof.
  intros Hfo Hto. rewrite !diffFuncsIn_Changed.
  rewrite (elem_of_pickChanged from to fo f t Hfo).
  rewrite (elem_of_pickChanged to from to_o' t f Hto).
  split; intros (k & H1 & H2 & Hs); exists k; repeat split; try done;
    intros Hs'; apply Hs; by apply sameShape_sym.
Qed.

Lemma diffFuncs_changed_mirror_witness :
  (sampleF, sampleF2) ∈ ChangedFuncs (diffFuncs sampleFrom sampleTo) ↔
  (sampleF2, sampleF) ∈ ChangedFuncs (diffFuncs sampleTo sampleFrom).
Proof.
  apply (diffFuncs_changed_mirror (map_to_list sampleFrom)
           (map_to_list sampleTo) (map_to_list sampleFrom)
           (map_to_list sampleTo) sampleFrom sampleTo sampleF sampleF2);
    apply ranges_map_to_list.
Defined.

Lemma ranges_NoDup_keys m order : ranges m order → NoDup (order.*1).
Proof.
  intros H. unfold ranges in H. rewrite H. apply NoDup_fst_map_to_list.
Qed.

Lemma pickAbsent_keys_sublist (other : FuncSet) (l : list (FuncKey * FuncInfo)) :
  Forall (λ e, keyOf e.2 = e.1) l →
  keyOf <$> omap (pickAbsent other) l `sublist_of` l.*1.
Proof.
  induction 1 as [|[k f] l Hk Hl IH]; [done|].
  cbn [omap list_omap fmap list_fmap]. unfold pickAbsent at 1. cbn [fst snd].
  simpl in Hk. destruct (other !! k).
  - by apply sublist_cons.
  - cbn [fmap list_fmap]. rewrite Hk. by apply sublist_skip.
Qed.

Lemma pickChanged_keys_sublist (to : FuncSet) (l : list (FuncKey * FuncInfo)) :
  Forall (λ e, keyOf e.2 = e.1) l →
  (keyOf ∘ fst) <$> omap (pickChanged to) l `sublist_of` l.*1.
Proof.
  induction 1 as [|[k f] l Hk Hl IH]; [done|].
  cbn [omap list_omap fmap list_fmap]. unfold pickChanged at 1. cbn [fst snd].
  simpl in Hk. destruct (to !! k) as [t|]; [destruct (differs f t)|].
  - cbn [fmap list_fmap]. simpl. rewrite Hk. by apply sublist_skip.
  - by apply sublist_cons.
  - by apply sublist_cons.
Qed.

Lemma Inventory_ranges_Forall m order :
  Inventory m → ranges m order → Forall (λ e, keyOf e.2 = e.1) order.
Proof.
  intros Hm Hr. apply Forall_forall. intros [k f] Hin.
  apply (ranges_elem _ _ _ _ Hr) in Hin. by apply (Inventory_key m).
Qed.

Lemma diffFuncsIn_keys_NoDup
    (fromOrder toOrder : list (FuncKey * FuncInfo)) (from to : FuncSet) :
  Inventory from → Inventory to →
  ranges from fromOrder → ranges to toOrder →
  let d := diffFuncsIn fromOrder toOrder from to in
  NoDup (keyOf <$> NewFuncs d) ∧ NoDup (keyOf <$> RemovedFuncs d) ∧
  NoDup ((keyOf ∘ fst) <$> ChangedFuncs d).
Proof.
  intros Hfrom Hto Hfo Hto_o d. subst d.
  rewrite diffFuncsIn_New, diffFuncsIn_Removed, diffFuncsIn_Changed.
  pose proof (Inventory_ranges_Forall _ _ Hfrom Hfo) as F1.
  pose proof (Inventory_ranges_Forall _ _ Hto Hto_o) as F2.
  split; [|split].
  - eapply sublist_NoDup; [|by apply pickAbsent_keys_sublist].
    by apply (ranges_NoDup_keys from).
  - eapply sublist_NoDup; [|by apply pickAbsent_keys_sublist].
    by apply (ranges_NoDup_keys to).
  - eapply sublist_NoDup; [|by apply pickChanged_keys_sublist].
    by apply (ranges_NoDup_keys from).
Qed.

(** X7. No declaration is reported twice: within each of the three
    lists the identity keys of the entries are pairwise different. *)
Theorem diffFuncs_no_duplicates
    (fromOrder toOrder : list (FuncKey * FuncInfo)) (from to : FuncSet) :
  Inventory from → Inventory to →
  ranges from fromOrder → ranges to toOrder →
  let d := diffFuncsIn fromOrder toOrder from to in
  NoDup (keyOf <$> NewFuncs d) ∧ NoDup (keyOf <$> RemovedFuncs d) ∧
  NoDup ((keyOf ∘ fst) <$> ChangedFuncs d).
Proof. apply diffFuncsIn_keys_NoDup. Qed.

Lemma diffFuncs_no_duplicates_witness :
  let d := diffFuncs sampleFrom sampleTo in
  NoDup (keyOf <$> NewFuncs d) ∧ NoDup (keyOf <$> RemovedFuncs d) ∧
  NoDup ((keyOf ∘ fst) <$> ChangedFuncs d).
Proof.
  apply (diffFuncs_no_duplicates (map_to_list sampleFrom)
           (map_to_list sampleTo) sampleFrom sampleTo).
  - apply Inventory_sampleFrom.
  - apply Inventory_sampleTo.
  - apply ranges_map_to_list.
  - apply ranges_map_to_list.
Defined.

(** ** Lines: splitting, joining, extracting *)

Lemma Join_cons_char c x rest sep :
  Join (String c x :: rest) sep = String c (Join (x :: rest) sep).
Proof. by destruct rest. Qed.

Lemma Join_Split s sep : Join (Split s sep) (String sep "") = s.
Proof.
  induction s as [|c s IH]; [done|]. cbn [Split].
  destruct (Ascii.eqb_spec c sep) as [->|Hne].
  - pose proof (Split_length s sep) as Hlen.
    destruct (Split s sep) as [|field fields]; [simpl in Hlen; lia|].
    change (Join ("" :: field :: fields) (String sep ""))
      with (String sep (Join (field :: fields) (String sep ""))).
    by rewrite IH.
  - pose proof (Split_length s sep) as Hlen.
    destruct (Split s sep) as [|field fields]; [simpl in Hlen; lia|].
    rewrite Join_cons_char. by rewrite IH.
Qed.

(** X8. Round trip: a range that covers the whole text gives the text
    back, byte for byte. *)
Theorem extractLines_whole (src : string) (startLine endLine : Z) :
  startLine ≤ 1 →
  Z.of_nat (length (Split src LF)) ≤ endLine →
  extractLines src startLine endLine = Some src.
Proof.
  intros Hs He. unfold extractLines.
  pose proof (Split_length src LF) as Hlen.
  set (lines := Split src LF) in *.
  destruct (Z.eqb_spec (Z.of_nat (length lines)) 0) as [E|_]; [lia|].
  replace (if startLine <? 1 then 1 else startLine) with 1
    by (destruct (Z.ltb_spec startLine 1); lia).
  replace (if endLine >? Z.of_nat (length lines)
           then Z.of_nat (length lines) else endLine)
    with (Z.of_nat (length lines))
    by (rewrite Z.gtb_ltb;
        destruct (Z.ltb_spec (Z.of_nat (length lines)) endLine); lia).
  rewrite Z.gtb_ltb.
  destruct (Z.ltb_spec (Z.of_nat (length lines)) 1); [lia|].
  rewrite slice_Some by lia. simpl.
  replace (Z.to_nat (Z.of_nat (length lines) - (1 - 1))) with (length lines)
    by lia.
  change (Z.to_nat (1 - 1)) with 0%nat. rewrite drop_0, firstn_all.
  subst lines. unfold nl. f_equal. apply Join_Split.
Qed.

Lemma extractLines_whole_witness :
  extractLines ("a" +:+ nl +:+ "b" +:+ nl) 0 3 = Some ("a" +:+ nl +:+ "b" +:+ nl).
Proof.
  apply (extractLines_whole ("a" +:+ nl +:+ "b" +:+ nl) 0 3).
  - lia.
  - vm_compute. discriminate.
Defined.

Lemma Forall_take_drop {A} (P : A → Prop) (l : list A) n m :
  Forall P l → Forall P (take n (drop m l)).
Proof. intros H. by apply Forall_take, Forall_drop. Qed.

(** X9. The text extracted for a range within the file splits into
    exactly the lines of the range: [endLine - startLine + 1] of them,
    the ones the line list holds at these positions. *)
Theorem extractLines_lines (src : string) (startLine endLine : Z) :
  1 ≤ startLine → startLine ≤ endLine →
  endLine ≤ Z.of_nat (length (Split src LF)) →
  ∃ body,
    extractLines src startLine endLine = Some body ∧
    Split body LF
    = take (Z.to_nat (endLine - startLine + 1))
        (drop (Z.to_nat (startLine - 1)) (Split src LF)) ∧
    Z.of_nat (length (Split body LF)) = endLine - startLine + 1.
Proof.
  intros Hs Hse He. unfold extractLines.
  set (lines := Split src LF) in *.
  destruct (Z.eqb_spec (Z.of_nat (length lines)) 0) as [E|_]; [lia|].
  replace (if startLine <? 1 then 1 else startLine) with startLine
    by (destruct (Z.ltb_spec startLine 1); lia).
  replace (if endLine >? Z.of_nat (length lines)
           then Z.of_nat (length lines) else endLine) with endLine
    by (rewrite Z.gtb_ltb;
        destruct (Z.ltb_spec (Z.of_nat (length lines)) endLine); lia).
  rewrite Z.gtb_ltb. destruct (Z.ltb_spec endLine startLine); [lia|].
  rewrite slice_Some by lia. simpl.
  replace (Z.to_nat (endLine - (startLine - 1)))
    with (Z.to_nat (endLine - startLine + 1)) by lia.
  set (picked := take _ (drop _ lines)).
  assert (length picked = Z.to_nat (endLine - startLine + 1)) as Hlen.
  { subst picked. rewrite length_take, length_drop. lia. }
  assert (Split (Join picked nl) LF = picked) as HS.
  { unfold nl. apply Split_Join.
    - intros ->. simpl in Hlen. lia.
    - subst picked lines. apply Forall_take_drop, Split_no_sep. }
  exists (Join picked nl). split; [done|]. split; [done|].
  rewrite HS, Hlen. lia.
Qed.

Lemma extractLines_lines_witness :
  ∃ body,
    extractLines ("a" +:+ nl +:+ "b" +:+ nl +:+ "c") 2 3 = Some body ∧
    Split body LF
    = take (Z.to_nat (3 - 2 + 1))
        (drop (Z.to_nat (2 - 1)) (Split ("a" +:+ nl +:+ "b" +:+ nl +:+ "c") LF)) ∧
    Z.of_nat (length (Split body LF)) = 3 - 2 + 1.
Proof.
  apply (extractLines_lines ("a" +:+ nl +:+ "b" +:+ nl +:+ "c") 2 3).
  - lia.
  - lia.
  - vm_compute. discriminate.
Defined.

(** ** Normalized bodies *)

Lemma dropLeadingBlank_head lines x :
  head (dropLeadingBlank lines) = Some x → TrimSpace_empty x = false.
Proof.
  induction lines as [|y l IH]; [done|]. simpl.
  destruct (TrimSpace_empty y) eqn:E; [done|]. simpl. by intros [= <-].
Qed.

Lemma dropTrailingBlank_head lines x :
  head (dropTrailingBlank lines) = Some x → head lines = Some x.
Proof.
  destruct lines as [|y l]; [done|]. simpl.
  destruct (dropTrailingBlank l); [|done].
  by destruct (TrimSpace_empty y).
Qed.

Lemma dropTrailingBlank_last lines x :
  last (dropTrailingBlank lines) = Some x → TrimSpace_empty x = false.
Proof.
  induction lines as [|y l IH]; [done|]. cbn [dropTrailingBlank].
  destruct (dropTrailingBlank l) as [|k m] eqn:E.
  - destruct (TrimSpace_empty y) eqn:Ey; [done|]. simpl. by intros [= <-].
  - rewrite last_cons_cons. apply IH.
Qed.

Lemma dropLeadingBlank_nil lines :
  dropLeadingBlank lines = [] ↔
  Forall (λ line, TrimSpace_empty line = true) lines.
Proof.
  induction lines as [|y l IH]; [by split|]. simpl.
  destruct (TrimSpace_empty y) eqn:E.
  - rewrite IH. split; [by constructor|]. by inversion 1.
  - split; [done|]. inversion 1. congruence.
Qed.

Lemma dropTrailingBlank_nil lines :
  dropTrailingBlank lines = [] ↔
  Forall (λ line, TrimSpace_empty line = true) lines.
Proof.
  induction lines as [|y l IH]; [by split|]. cbn [dropTrailingBlank].
  destruct (dropTrailingBlank l) as [|k m] eqn:E.
  - destruct (TrimSpace_empty y) eqn:Ey.
    + split; [|done]. intros _. constructor; [done|]. by apply IH.
    + split; [done|]. inversion 1. congruence.
  - split; [done|]. inversion 1 as [|? ? ? Hl]. apply IH in Hl. done.
Qed.

Lemma append_cons_ne x c y : x +:+ String c y ≠ "".
Proof. by destruct x. Qed.

Lemma Join_empty lines sep c sep' :
  sep = String c sep' → Join lines sep = "" → lines = [] ∨ lines = [""].
Proof.
  intros ->. destruct lines as [|x [|y rest]]; simpl.
  - by left.
  - intros ->. by right.
  - intros H. by apply append_cons_ne in H.
Qed.

(** The lines that [normalizeBody] joins. *)
Lemma normalizeBody_lines s :
  let lines :=
    dropTrailingBlank (dropLeadingBlank
      ((λ line, TrimRight line spaceTab) <$> Split (unifyLineEndings s) LF)) in
  normalizeBody s = Join lines nl ∧
  Forall (λ line, containsByte line LF = false) lines ∧
  Forall (λ line, containsByte line CR = false) lines ∧
  Forall (λ line, TrimRight line spaceTab = line) lines ∧
  (∀ x, head lines = Some x → TrimSpace_empty x = false) ∧
  (∀ x, last lines = Some x → TrimSpace_empty x = false).
Proof.
  intros lines. subst lines.
  set (trimmed := (λ line, TrimRight line spaceTab)
                    <$> Split (unifyLineEndings s) LF).
  split; [done|].
  split; [|split; [|split; [|split]]].
  - apply dropTrailingBlank_Forall, dropLeadingBlank_Forall, Forall_fmap.
    eapply Forall_impl; [apply Split_no_sep|].
    intros line H. by apply TrimRight_no_byte.
  - apply dropTrailingBlank_Forall, dropLeadingBlank_Forall, Forall_fmap.
    eapply Forall_impl; [apply Split_no_byte, unifyLineEndings_no_CR|].
    intros line H. by apply TrimRight_no_byte.
  - apply dropTrailingBlank_Forall, dropLeadingBlank_Forall, Forall_fmap.
    apply Forall_true. intros line. apply TrimRight_idempotent.
  - intros x Hx. apply dropTrailingBlank_head in Hx.
    by apply dropLeadingBlank_head in Hx.
  - intros x Hx. by apply dropTrailingBlank_last in Hx.
Qed.

(** X10. The shape of a normalized body: it holds no carriage return,
    none of its lines ends with a space or a tab, and unless it is
    empty its first and its last line are not blank. *)
Theorem normalizeBody_shape (s : string) :
  containsByte (normalizeBody s) CR = false ∧
  Forall (λ line, TrimRight line spaceTab = line) (Split (normalizeBody s) LF) ∧
  (normalizeBody s = "" ∨
   ∃ first final,
     head (Split (normalizeBody s) LF) = Some first ∧
     last (Split (normalizeBody s) LF) = Some final ∧
     TrimSpace_empty first = false ∧ TrimSpace_empty final = false).
Proof.
  destruct (normalizeBody_lines s) as (-> & HLF & HCR & HT & Hh & Hl).
  set (lines := dropTrailingBlank _) in *.
  split; [by apply Join_no_byte|].
  destruct lines as [|x rest] eqn:E.
  { split; [by repeat constructor|]. by left. }
  assert (Split (Join (x :: rest) nl) LF = x :: rest) as ->.
  { unfold nl. by apply Split_Join. }
  split; [done|]. right.
  destruct (last (x :: rest)) as [y|] eqn:Ey.
  - exists x, y. repeat split; [by apply Hh|by apply Hl].
  - by apply last_None in Ey.
Qed.

(** X11. A body normalizes to the empty text exactly when each of its
    lines is blank once the spaces and tabs at its end are removed; so
    these are the bodies that are never flagged identical. *)
Theorem normalizeBody_empty_iff (s : string) :
  normalizeBody s = "" ↔
  Forall (λ line, TrimSpace_empty (TrimRight line spaceTab) = true)
    (Split (unifyLineEndings s) LF).
Proof.
  transitivity (Forall (λ line, TrimSpace_empty line = true)
                  ((λ line, TrimRight line spaceTab)
                     <$> Split (unifyLineEndings s) LF));
    [|by rewrite Forall_fmap].
  destruct (normalizeBody_lines s) as (-> & _ & _ & _ & Hh & _).
  set (trimmed := (λ line, TrimRight line spaceTab)
                    <$> Split (unifyLineEndings s) LF) in *.
  split.
  - intros H0. destruct (Join_empty _ nl LF "" eq_refl H0) as [H|H].
    + apply dropTrailingBlank_nil in H.
      destruct (dropLeadingBlank trimmed) as [|x rest] eqn:E.
      * by apply dropLeadingBlank_nil.
      * exfalso. inversion H as [|? ? Hx _]; subst.
        pose proof (dropLeadingBlank_head trimmed x) as Hx'.
        rewrite E in Hx'. specialize (Hx' eq_refl). congruence.
    + rewrite H in Hh. by specialize (Hh "" eq_refl).
  - intros H. apply dropLeadingBlank_nil in H. by rewrite H.
Qed.

Example normalizeBody_blank_sample :
  normalizeBody (String TAB nl +:+ crlf +:+ " ") = "".
Proof. reflexivity. Qed.

(** ** Line-ending styles *)

(** Converting line feeds to CR LF and unifying the line endings gives
    the text back. *)
Lemma unify_after_crlf s :
  containsByte s CR = false →
  unifyLineEndings (ReplaceAll s nl crlf) = s.
Proof.
  intros H. unfold unifyLineEndings, ReplaceAll.
  assert (replaceFrom crlf nl 0 (replaceFrom nl crlf 0 s) = s) as ->.
  { induction s as [|a s IH]; [done|].
    simpl in H. apply orb_false_iff in H as [Ha Hs].
    unfold nl at 2. rewrite replaceFrom_one_byte. fold nl.
    destruct (Ascii.eqb_spec a LF) as [->|Hne].
    - change (crlf +:+ replaceFrom nl crlf 0 s)
        with (String CR (String LF (replaceFrom nl crlf 0 s))).
      cbn [replaceFrom]. simpl String.prefix. rewrite prefix_empty.
      simpl. by rewrite IH.
    - cbn [replaceFrom]. unfold crlf at 1. rewrite prefix_cons_ne.
      + by rewrite IH.
      + by apply Ascii.eqb_neq.
  }
  by apply replaceFrom_absent.
Qed.

(** The same for the lone carriage return of old Macintosh files. *)
Lemma unify_after_cr s :
  containsByte s CR = false →
  unifyLineEndings (ReplaceAll s nl cr) = s.
Proof.
  intros H. unfold unifyLineEndings, ReplaceAll.
  assert (∀ t, containsByte t LF = false → replaceFrom crlf nl 0 t = t) as Hid.
  { induction t as [|a t IH]; [done|]. intros Ht.
    cbn [replaceFrom].
    destruct (String.prefix crlf (String a t)) eqn:E.
    - exfalso. apply prefix_crlf in E as (-> & t' & ->).
      by simpl in Ht.
    - f_equal. apply IH. simpl in Ht. by apply orb_false_iff in Ht as [_ Ht]. }
  assert (containsByte (replaceFrom nl cr 0 s) LF = false) as HLF.
  { by apply replaceFrom_byte_gone. }
  rewrite (Hid _ HLF). clear Hid HLF.
  induction s as [|a s IH]; [done|].
  simpl in H. apply orb_false_iff in H as [Ha Hs].
  unfold nl at 2. rewrite replaceFrom_one_byte. fold nl.
  destruct (Ascii.eqb_spec a LF) as [->|Hne].
  - change (cr +:+ replaceFrom nl cr 0 s)
      with (String CR (replaceFrom nl cr 0 s)).
    unfold cr at 1. rewrite replaceFrom_one_byte. fold cr.
    rewrite Ascii.eqb_refl. change (nl +:+ ?x) with (String LF x).
    by rewrite IH.
  - unfold cr at 1. rewrite replaceFrom_one_byte. fold cr.
    rewrite Ha. by rewrite IH.
Qed.

Lemma normalizeBody_unified s t :
  unifyLineEndings s = unifyLineEndings t → normalizeBody s = normalizeBody t.
Proof. unfold normalizeBody. by intros ->. Qed.

(** X12. Line-ending style is invisible to the identical-body check: a
    body with line feeds only, rewritten with CR LF or with lone
    carriage returns, normalizes to the same text, and unless that text
    is empty the two are flagged identical. *)
Theorem normalizeBody_line_endings (s : string) :
  containsByte s CR = false →
  normalizeBody (ReplaceAll s nl crlf) = normalizeBody s ∧
  normalizeBody (ReplaceAll s nl cr) = normalizeBody s ∧
  (normalizeBody s ≠ "" →
   isIdenticalBody s (ReplaceAll s nl crlf) = true ∧
   isIdenticalBody (ReplaceAll s nl cr) s = true).
Proof.
  intros H.
  assert (normalizeBody (ReplaceAll s nl crlf) = normalizeBody s) as E1.
  { apply normalizeBody_unified.
    by rewrite unify_after_crlf, unifyLineEndings_id. }
  assert (normalizeBody (ReplaceAll s nl cr) = normalizeBody s) as E2.
  { apply normalizeBody_unified.
    by rewrite unify_after_cr, unifyLineEndings_id. }
  split; [done|]. split; [done|]. intros Hne. split.
  - apply isIdenticalBody_true. by rewrite E1.
  - apply isIdenticalBody_true. by rewrite E2.
Qed.

Lemma normalizeBody_line_endings_witness :
  normalizeBody (ReplaceAll sampleToBody nl crlf) = normalizeBody sampleToBody ∧
  normalizeBody (ReplaceAll sampleToBody nl cr) = normalizeBody sampleToBody ∧
  (normalizeBody sampleToBody ≠ "" →
   isIdenticalBody sampleToBody (ReplaceAll sampleToBody nl crlf) = true ∧
   isIdenticalBody (ReplaceAll sampleToBody nl cr) sampleToBody = true).
Proof.
  apply (normalizeBody_line_endings sampleToBody). vm_compute. reflexivity.
Defined.

(** X13. The identical-body flag does not depend on which of the two
    bodies is the from side. *)
Theorem isIdenticalBody_sym (a b : string) :
  isIdenticalBody a b = isIdenticalBody b a.
Proof.
  unfold isIdenticalBody.
  destruct (String.eqb_spec (normalizeBody a) (normalizeBody b)) as [E|E].
  - rewrite E. by rewrite String.eqb_refl.
  - rewrite !andb_false_r. symmetry. apply andb_false_iff. right.
    apply String.eqb_neq. congruence.
Qed.

(** ** Sanitized names *)

Lemma replaceFrom_keeps_absent d new c s :
  containsByte new c = false → containsByte s c = false →
  containsByte (replaceFrom (String d "") new 0 s) c = false.
Proof.
  intros Hnew. induction s as [|a s IH]; [done|]. intros H.
  simpl in H. apply orb_false_iff in H as [Ha Hs].
  rewrite replaceFrom_one_byte. destruct (Ascii.eqb a d).
  - by rewrite containsByte_app, Hnew, IH.
  - simpl. by rewrite Ha, IH.
Qed.

(** X14. A sanitized name part holds neither a space nor a backtick, and
    sanitizing it again changes nothing. *)
Theorem sanitizeFilenamePart_clean (s : string) :
  containsByte (sanitizeFilenamePart s) " " = false ∧
  containsByte (sanitizeFilenamePart s) "`" = false ∧
  sanitizeFilenamePart (sanitizeFilenamePart s) = sanitizeFilenamePart s.
Proof.
  assert (containsByte (sanitizeFilenamePart s) " " = false) as H1.
  { unfold sanitizeFilenamePart, ReplaceAll.
    apply replaceFrom_keeps_absent; [done|].
    by apply replaceFrom_byte_gone. }
  assert (containsByte (sanitizeFilenamePart s) "`" = false) as H2.
  { unfold sanitizeFilenamePart, ReplaceAll. by apply replaceFrom_byte_gone. }
  split; [done|]. split; [done|].
  unfold sanitizeFilenamePart at 1. unfold ReplaceAll.
  rewrite (replaceFrom_absent " " "" "_" _ H1).
  by rewrite (replaceFrom_absent "`" "" "" _ H2).
Qed.

Example sanitizeFilenamePart_sample :
  sanitizeFilenamePart "my `odd` file.go" = "my_odd_file.go".
Proof. reflexivity. Qed.

(** ** Artifact names and the files that are written *)

Lemma safePathOf_flat info :
  containsByte (safePathOf info) "/" = false ∧
  containsByte (safePathOf info) "\" = false.
Proof.
  unfold safePathOf, ReplaceAll. split.
  - apply replaceFrom_keeps_absent; [done|]. by apply replaceFrom_byte_gone.
  - by apply replaceFrom_byte_gone.
Qed.

Lemma changedFuncFilenameWithRecv_md info :
  ∃ stem, changedFuncFilenameWithRecv info = stem +:+ ".md".
Proof.
  unfold changedFuncFilenameWithRecv.
  destruct (negb (String.eqb (Receiver info) "")).
  - exists (safePathOf info +:+ "__" +:+ safeRecvOf info +:+ "__" +:+ Name info).
    by rewrite !append_assoc.
  - exists (safePathOf info +:+ "__" +:+ Name info). by rewrite !append_assoc.
Qed.

Lemma changedFuncBaseName_ne info fromBody toBody :
  changedFuncBaseName info fromBody toBody ≠ "".
Proof.
  unfold changedFuncBaseName.
  destruct (changedFuncFilenameWithRecv_md info) as [stem ->].
  destruct (isIdenticalBody fromBody toBody); [done|].
  apply append_cons_ne.
Qed.

(** X15. Artifact names are flat: the name ends in [.md], the part made
    from the file path holds no path separator, and when neither the
    receiver nor the name holds a separator the whole base name holds
    none, so the artifact lies directly in the output directory. *)
Theorem changedFuncBaseName_flat (info : FuncInfo) (fromBody toBody : string)
    (c : ascii) :
  c = "/"%char ∨ c = "\"%char →
  (∃ stem, changedFuncBaseName info fromBody toBody = stem +:+ ".md") ∧
  containsByte (safePathOf info) c = false ∧
  (containsByte (Receiver info) c = false →
   containsByte (Name info) c = false →
   containsByte (changedFuncBaseName info fromBody toBody) c = false).
Proof.
  intros Hc.
  assert (containsByte (safePathOf info) c = false) as HP.
  { destruct (safePathOf_flat info). by destruct Hc as [-> | ->]. }
  split; [|split; [done|]].
  - unfold changedFuncBaseName.
    destruct (changedFuncFilenameWithRecv_md info) as [stem ->].
    destruct (isIdenticalBody fromBody toBody); [|by exists stem].
    exists ("identical_" +:+ stem). by rewrite append_assoc.
  - intros HR HN.
    assert (containsByte (safeRecvOf info) c = false) as HR'.
    { unfold safeRecvOf, ReplaceAll. apply replaceFrom_keeps_absent; [|done].
      by destruct Hc as [-> | ->]. }
    assert (containsByte "identical_" c = false
            ∧ containsByte "__" c = false ∧ containsByte ".md" c = false)
      as (H1 & H2 & H3) by (by destruct Hc as [-> | ->]).
    unfold changedFuncBaseName, changedFuncFilenameWithRecv.
    destruct (isIdenticalBody fromBody toBody),
             (negb (String.eqb (Receiver info) ""));
      rewrite !containsByte_app, ?H1, ?H2, ?H3, ?HP, ?HR', ?HN; done.
Qed.

Lemma changedFuncBaseName_flat_witness :
  (∃ stem, changedFuncBaseName collideA sampleFromBody sampleToBody
           = stem +:+ ".md") ∧
  containsByte (safePathOf collideA) "/" = false ∧
  (containsByte (Receiver collideA) "/" = false →
   containsByte (Name collideA) "/" = false →
   containsByte (changedFuncBaseName collideA sampleFromBody sampleToBody) "/"
   = false).
Proof.
  apply (changedFuncBaseName_flat collideA sampleFromBody sampleToBody "/").
  by left.
Defined.

Section WrittenFiles.
Context {W : Type} (sys : Sys W).

Lemma writeChangedFuncFile_name outDir fromRef toRef fromInfo toInfo w w' name :
  writeChangedFuncFile sys outDir fromRef toRef fromInfo toInfo w
    = Some (w', (name, None)) →
  name = "" ∨ artifactNameOf (fromInfo, toInfo) name.
Proof.
  unfold writeChangedFuncFile.
  destruct (String.eqb outDir ""); [intros [= <- <-]; by left|].
  destruct (MkdirAll sys outDir w) as [w1 [msg|]]; [done|].
  destruct (loadBody sys fromRef fromInfo w1) as [fromBody|]; [|done].
  destruct (loadBody sys toRef toInfo w1) as [toBody|]; [|done].
  simpl. destruct (WriteFile sys _ _ w1) as [w2 [msg|]]; [done|].
  intros [= <- <-]. right. unfold artifactNameOf, changedFuncBaseName. simpl.
  destruct (isIdenticalBody fromBody toBody); eauto.
Qed.

Lemma writeChangedLoop_names outDir fromRef toRef changed files w w' result :
  writeChangedLoop sys outDir fromRef toRef changed files w = Some (w', result) →
  ∃ written added,
    written `sublist_of` changed ∧ result = files ++ added ∧
    Forall2 artifactNameOf written added.
Proof.
  revert files w. induction changed as [|[f t] rest IH]; intros files w.
  { intros [= <- <-]. exists [], []. by rewrite app_nil_r. }
  cbn [writeChangedLoop].
  destruct (writeChangedFuncFile sys outDir fromRef toRef f t w)
    as [[w1 [name err]]|] eqn:E; [|done].
  simpl. destruct err as [msg|].
  - intros H. apply IH in H as (written & added & Hs & -> & HF).
    exists written, added. split; [by apply sublist_cons|done].
  - destruct (String.eqb_spec name "") as [->|Hne]; simpl.
    + intros H. apply IH in H as (written & added & Hs & -> & HF).
      exists written, added. split; [by apply sublist_cons|done].
    + intros H. apply IH in H as (written & added & Hs & -> & HF).
      apply writeChangedFuncFile_name in E as [E|E]; [done|].
      exists ((f, t) :: written), (name :: added).
      split; [by apply sublist_skip|]. split; [by rewrite <- app_assoc|].
      by constructor.
Qed.

(** X16. The file list returned for the index holds only artifact names
    of changed pairs, in the order of the pairs and at most one for each
    pair. *)
Theorem writeAllChangedFuncFiles_names (outDir fromRef toRef : string)
    (changed : list (FuncInfo * FuncInfo)) (w w' : W) (files : list string) :
  writeAllChangedFuncFiles sys outDir fromRef toRef changed w
    = Some (w', files) →
  (length files ≤ length changed)%nat ∧
  ∃ written,
    written `sublist_of` changed ∧ Forall2 artifactNameOf written files.
Proof.
  unfold writeAllChangedFuncFiles.
  assert ((0 ≤ length changed)%nat ∧
          ∃ written : list (FuncInfo * FuncInfo),
            written `sublist_of` changed ∧ Forall2 artifactNameOf written [])
    as Hnil.
  { split; [lia|]. exists []. split; [apply sublist_nil_l|constructor]. }
  destruct (String.eqb outDir ""); [by intros [= <- <-]|].
  destruct (MkdirAll sys outDir w) as [w1 [msg|]]; [by intros [= <- <-]|].
  intros H. apply writeChangedLoop_names in H as (written & added & Hs & -> & HF).
  simpl. split; [|by exists written].
  rewrite <- (Forall2_length _ _ _ HF). by apply sublist_length.
Qed.

Lemma writeChangedFuncFile_succeeds outDir fromRef toRef fromInfo toInfo w :
  writesSucceed sys → outDir ≠ "" →
  ∃ w' name,
    writeChangedFuncFile sys outDir fromRef toRef fromInfo toInfo w
      = Some (w', (name, None)) ∧
    name ≠ "" ∧ artifactNameOf (fromInfo, toInfo) name.
Proof.
  intros [Hmk Hwr] Hout. unfold writeChangedFuncFile.
  apply String.eqb_neq in Hout. rewrite Hout.
  pose proof (Hmk outDir w) as Hm.
  destruct (MkdirAll sys outDir w) as [w1 e]. simpl in Hm. subst e.
  destruct (loadBody_is_Some sys fromRef fromInfo w1) as [fromBody ->].
  destruct (loadBody_is_Some sys toRef toInfo w1) as [toBody ->].
  simpl.
  match goal with |- context [WriteFile sys ?p ?c w1] =>
    pose proof (Hwr p c w1) as Hw; destruct (WriteFile sys p c w1) as [w2 e]
  end.
  simpl in Hw. subst e. eexists _, _. split; [done|].
  split; [apply changedFuncBaseName_ne|].
  unfold artifactNameOf, changedFuncBaseName. simpl.
  destruct (isIdenticalBody fromBody toBody); eauto.
Qed.

Lemma writeChangedLoop_succeeds outDir fromRef toRef changed files w :
  writesSucceed sys → outDir ≠ "" →
  ∃ w' added,
    writeChangedLoop sys outDir fromRef toRef changed files w
      = Some (w', files ++ added) ∧
    Forall2 artifactNameOf changed added.
Proof.
  intros Hs Hout. revert files w.
  induction changed as [|[f t] rest IH]; intros files w.
  { exists w, []. by rewrite app_nil_r. }
  cbn [writeChangedLoop].
  destruct (writeChangedFuncFile_succeeds outDir fromRef toRef f t w Hs Hout)
    as (w1 & name & -> & Hne & Hname).
  simpl. apply String.eqb_neq in Hne. rewrite Hne. simpl.
  destruct (IH (files ++ [name]) w1) as (w' & added & -> & HF).
  exists w', (name :: added). split; [by rewrite <- app_assoc|].
  by constructor.
Qed.

(** X17. When creating the directory and writing files succeed and an
    output directory is given, every changed pair gets its artifact:
    the returned list holds one name for each pair, in their order. *)
Theorem writeAllChangedFuncFiles_complete (outDir fromRef toRef : string)
    (changed : list (FuncInfo * FuncInfo)) (w : W) :
  writesSucceed sys → outDir ≠ "" →
  ∃ w' files,
    writeAllChangedFuncFiles sys outDir fromRef toRef changed w
      = Some (w', files) ∧
    Forall2 artifactNameOf changed files ∧
    length files = length changed.
Proof.
  intros Hs Hout. unfold writeAllChangedFuncFiles.
  pose proof Hout as Hout'. apply String.eqb_neq in Hout'. rewrite Hout'.
  destruct Hs as [Hmk Hwr]. pose proof (Hmk outDir w) as Hm.
  destruct (MkdirAll sys outDir w) as [w1 e]. simpl in Hm. subst e.
  destruct (writeChangedLoop_succeeds outDir fromRef toRef changed [] w1
              (conj Hmk Hwr) Hout) as (w' & added & -> & HF).
  exists w', added. split; [done|]. split; [done|].
  symmetry. by apply (Forall2_length _ _ _ HF).
Qed.

End WrittenFiles.

Lemma writeAllChangedFuncFiles_names_witness :
  (length ["identical_a.go__F.md"] ≤ length [(sampleF, sampleFShifted)])%nat ∧
  ∃ written,
    written `sublist_of` [(sampleF, sampleFShifted)] ∧
    Forall2 artifactNameOf written ["identical_a.go__F.md"].
Proof.
  apply (writeAllChangedFuncFiles_names (sampleSys sampleFiles) "out" "dev"
           "master" [(sampleF, sampleFShifted)] tt tt ["identical_a.go__F.md"]).
  vm_compute. reflexivity.
Defined.

Lemma writesSucceed_sampleSys files : writesSucceed (sampleSys files).
Proof. by split. Qed.

Lemma writeAllChangedFuncFiles_complete_witness :
  ∃ w' files,
    writeAllChangedFuncFiles (sampleSys noFiles) "out" "dev" "master"
      (ChangedFuncs (diffFuncs collideFrom collideTo)) tt = Some (w', files) ∧
    Forall2 artifactNameOf (ChangedFuncs (diffFuncs collideFrom collideTo)) files ∧
    length files = length (ChangedFuncs (diffFuncs collideFrom collideTo)).
Proof.
  apply (writeAllChangedFuncFiles_complete (sampleSys noFiles) "out" "dev"
           "master" (ChangedFuncs (diffFuncs collideFrom collideTo)) tt).
  - apply writesSucceed_sampleSys.
  - discriminate.
Defined.

(** ** Reports without an output directory *)

(** X18. Without an output directory the renderer does not touch the
    outside world: for given inventories, revision names, summary flag
    and visiting orders of the two maps, it returns one and the same
    report whatever git and the file system would answer, it never
    panics, and the outside world is left as it was. (The report does
    depend on the visiting orders: the changed names are listed in the
    order of the first loop.) *)
Theorem report_without_out_dir
    (fromOrder toOrder : list (FuncKey * FuncInfo)) (fromRef toRef : string)
    (from to : FuncSet) (summaryOnly : bool) :
  ∃ report, ∀ (W : Type) (sys : Sys W) (w : W),
    buildMarkdownReportIn sys fromOrder toOrder fromRef toRef from to
      summaryOnly "" w = Some (w, report).
Proof.
  destruct summaryOnly.
  - eexists. intros W sys w. unfold buildMarkdownReportIn. simpl. reflexivity.
  - destruct (bool_decide
                (ChangedFuncs (diffFuncsIn fromOrder toOrder from to) = []))
      eqn:E.
    + eexists. intros W sys w. unfold buildMarkdownReportIn.
      rewrite E. simpl. reflexivity.
    + eexists. intros W sys w. unfold buildMarkdownReportIn.
      rewrite E. simpl. reflexivity.
Qed.

(** The visiting order of the first loop shows in the report: the two
    changed names of the colliding sample are listed in that order. *)
Example report_depends_on_order :
  buildMarkdownReportIn (sampleSys noFiles) (map_to_list collideFrom)
    (map_to_list collideTo) "dev" "master" collideFrom collideTo false "" tt
  ≠ buildMarkdownReportIn (sampleSys noFiles) (reverse (map_to_list collideFrom))
    (map_to_list collideTo) "dev" "master" collideFrom collideTo false "" tt.
Proof. vm_compute. discriminate. Qed.

(** ** The listings of new and removed declarations *)

Lemma string_ltb_leb a b : negb (String.ltb a b) = String.leb b a.
Proof.
  unfold String.ltb, String.leb. rewrite (String.compare_antisym a b).
  by destruct (String.compare b a).
Qed.

(** [sort.Slice] is called with "not [less b a]" as its order: the
    order of the pairs (receiver, name). *)
Lemma lessRecvName_le a b :
  negb (lessRecvName b a) =
  if String.eqb (Receiver a) (Receiver b)
  then String.leb (Name a) (Name b)
  else String.leb (Receiver a) (Receiver b).
Proof.
  unfold lessRecvName. rewrite (String.eqb_sym (Receiver b)).
  destruct (String.eqb (Receiver a) (Receiver b)); apply string_ltb_leb.
Qed.

Global Instance recvName_total :
  Total (λ a b, Is_true (negb (lessRecvName b a))).
Proof.
  intros a b. rewrite !lessRecvName_le, (String.eqb_sym (Receiver b)).
  destruct (String.eqb (Receiver a) (Receiver b)).
  - destruct (String.leb_total (Name a) (Name b)) as [H|H]; [left|right];
      by apply Is_true_true.
  - destruct (String.leb_total (Receiver a) (Receiver b)) as [H|H];
      [left|right]; by apply Is_true_true.
Qed.

Global Instance recvName_transitive :
  Transitive (λ a b, Is_true (negb (lessRecvName b a))).
Proof.
  intros a b c. rewrite !lessRecvName_le. intros H1 H2.
  apply Is_true_true in H1, H2. apply Is_true_true.
  destruct (String.eqb_spec (Receiver a) (Receiver b)) as [E1|N1],
           (String.eqb_spec (Receiver b) (Receiver c)) as [E2|N2].
  - rewrite E1, E2, String.eqb_refl. by eapply string_leb_trans.
  - rewrite E1. destruct (String.eqb_spec (Receiver b) (Receiver c)); done.
  - rewrite <- E2. destruct (String.eqb_spec (Receiver a) (Receiver b)); done.
  - destruct (String.eqb_spec (Receiver a) (Receiver c)) as [E3|N3].
    + exfalso. apply N1. apply String.leb_antisym; [done|]. by rewrite E3.
    + by eapply string_leb_trans.
Qed.

Lemma recvName_antisym a b :
  Is_true (negb (lessRecvName b a)) → Is_true (negb (lessRecvName a b)) →
  Receiver a = Receiver b ∧ Name a = Name b.
Proof.
  rewrite !lessRecvName_le, (String.eqb_sym (Receiver b)). intros H1 H2.
  apply Is_true_true in H1, H2.
  destruct (String.eqb_spec (Receiver a) (Receiver b)) as [E|N].
  - split; [done|]. by apply String.leb_antisym.
  - exfalso. apply N. by apply String.leb_antisym.
Qed.

Lemma sortByRecvName_Permutation_eq l l' :
  l ≡ₚ l' →
  (∀ x y, x ∈ l → y ∈ l → keyOf x = keyOf y → x = y) →
  (∀ x y, x ∈ l → y ∈ l → Package x = Package y) →
  sortByRecvName l = sortByRecvName l'.
Proof.
  intros HP Hinj Hpkg. unfold sortByRecvName.
  apply (Sorted_unique_strong (λ a b, Is_true (negb (lessRecvName b a)))).
  - intros x y Hx Hy H1 H2.
    rewrite merge_sort_Permutation in Hx.
    rewrite merge_sort_Permutation, <- HP in Hy.
    destruct (recvName_antisym x y H1 H2) as [ER EN].
    apply Hinj; [done|done|]. unfold keyOf.
    by rewrite (Hpkg x y Hx Hy), ER, EN.
  - apply Sorted_merge_sort, _.
  - apply Sorted_merge_sort, _.
  - by rewrite !merge_sort_Permutation.
Qed.

Lemma printFuncListByPackage_Permutation funcs funcs' :
  funcs ≡ₚ funcs' →
  (∀ x y, x ∈ funcs → y ∈ funcs → keyOf x = keyOf y → x = y) →
  printFuncListByPackage funcs = printFuncListByPackage funcs'.
Proof.
  intros HP Hinj. unfold printFuncListByPackage.
  assert (sortStrings (remove_dups (Package <$> funcs))
          = sortStrings (remove_dups (Package <$> funcs'))) as <-.
  { apply sortStrings_Permutation_eq.
    apply NoDup_Permutation; [apply NoDup_remove_dups..|].
    intros p. rewrite !elem_of_remove_dups. by rewrite HP. }
  f_equal. apply list_fmap_ext. intros i pkg _. simpl.
  assert (sortByRecvName (filter (λ f, Package f = pkg) funcs)
          = sortByRecvName (filter (λ f, Package f = pkg) funcs')) as ->;
    [|done].
  apply sortByRecvName_Permutation_eq.
  - by rewrite HP.
  - intros x y Hx Hy. apply list_elem_of_filter in Hx as [_ Hx].
    apply list_elem_of_filter in Hy as [_ Hy]. by apply Hinj.
  - intros x y Hx Hy. apply list_elem_of_filter in Hx as [Hx _].
    apply list_elem_of_filter in Hy as [Hy _]. congruence.
Qed.

Lemma listingSection_Permutation funcs funcs' :
  funcs ≡ₚ funcs' →
  (∀ x y, x ∈ funcs → y ∈ funcs → keyOf x = keyOf y → x = y) →
  listingSection funcs = listingSection funcs'.
Proof.
  intros HP Hinj. unfold listingSection.
  rewrite (printFuncListByPackage_Permutation funcs funcs' HP Hinj).
  destruct funcs as [|x l], funcs' as [|x' l']; try done.
  - by apply Permutation_nil_cons in HP.
  - symmetry in HP. by apply Permutation_nil_cons in HP.
Qed.

Lemma NoDup_fmap_inj_on {A B} (f : A → B) (l : list A) x y :
  NoDup (f <$> l) → x ∈ l → y ∈ l → f x = f y → x = y.
Proof.
  induction l as [|a l IH]; [by intros _ ?%elem_of_nil|].
  rewrite fmap_cons, NoDup_cons. intros [Ha Hl] Hx Hy Hf.
  apply elem_of_cons in Hx as [->|Hx]; apply elem_of_cons in Hy as [->|Hy].
  - done.
  - exfalso. apply Ha. rewrite Hf. apply list_elem_of_fmap. by exists y.
  - exfalso. apply Ha. rewrite <- Hf. apply list_elem_of_fmap. by exists x.
  - by apply IH.
Qed.

(** X19. The sections of new and of removed declarations are the same
    text for every visiting order of the two maps: grouped by package
    and sorted by receiver and name, a listing does not show the order
    in which the entries were found. *)
Theorem listings_order_independent
    (fo fo' to_o to_o' : list (FuncKey * FuncInfo)) (from to : FuncSet) :
  Inventory from → Inventory to →
  ranges from fo → ranges from fo' → ranges to to_o → ranges to to_o' →
  let d := diffFuncsIn fo to_o from to in
  let d' := diffFuncsIn fo' to_o' from to in
  listingSection (NewFuncs d) = listingSection (NewFuncs d') ∧
  listingSection (RemovedFuncs d) = listingSection (RemovedFuncs d').
Proof.
  intros Hfrom Hto Hfo Hfo' Hto_o Hto_o' d d'.
  destruct (diffFuncsIn_keys_NoDup fo to_o from to Hfrom Hto Hfo Hto_o)
    as (N1 & N2 & _).
  fold d in N1, N2.
  pose proof (ranges_Permutation _ _ _ Hfo Hfo') as Pf.
  pose proof (ranges_Permutation _ _ _ Hto_o Hto_o') as Pt.
  split.
  - apply listingSection_Permutation.
    + subst d d'. rewrite !diffFuncsIn_New. by rewrite Pf.
    + intros x y. by apply NoDup_fmap_inj_on.
  - apply listingSection_Permutation.
    + subst d d'. rewrite !diffFuncsIn_Removed. by rewrite Pt.
    + intros x y. by apply NoDup_fmap_inj_on.
Qed.

Lemma listings_order_independent_witness :
  let d := diffFuncsIn (map_to_list sampleFrom) (map_to_list sampleTo)
             sampleFrom sampleTo in
  let d' := diffFuncsIn (reverse (map_to_list sampleFrom))
              (reverse (map_to_list sampleTo)) sampleFrom sampleTo in
  listingSection (NewFuncs d) = listingSection (NewFuncs d') ∧
  listingSection (RemovedFuncs d) = listingSection (RemovedFuncs d').
Proof.
  apply (listings_order_independent (map_to_list sampleFrom)
           (reverse (map_to_list sampleFrom)) (map_to_list sampleTo)
           (reverse (map_to_list sampleTo)) sampleFrom sampleTo).
  - apply Inventory_sampleFrom.
  - apply Inventory_sampleTo.
  - apply ranges_map_to_list.
  - apply ranges_reverse.
  - apply ranges_map_to_list.
  - apply ranges_reverse.
Defined.

(** ** The snapshot builder *)

Example exprToString_sample :
  exprToString (MapType (Ident "string")
                  (StarExpr (SelectorExpr (Ident "pkg") "T")))
  = "map[string]*pkg.T" ∧
  formatSignature (Some [(["a"; "b"], Ident "int"); ([], ArrayType None (Ident "byte"))])
    (Some [([], Ident "error")])
  = "(a int, b int, []byte) (error)" ∧
  formatReceiver (Some [(["s"], StarExpr (Ident "Server"))]) = "*Server".
Proof. repeat split. Qed.

Example TrimSpace_sample :
  TrimSpace (String TAB " a b " +:+ crlf) = "a b" ∧
  TrimSpace (String "194" (String "160" "x")) = "x" ∧
  TrimSpace (" " +:+ nl) = "" ∧
  goFilesOf (Split ("a.go" +:+ nl +:+ " b_test.go" +:+ nl +:+ "c.txt" +:+ crlf
                    +:+ "d/e.go" +:+ crlf) LF)
  = ["a.go"; "d/e.go"].
Proof. repeat split. Qed.

Section SnapshotProofs.
Context {W : Type} (sys : Sys W) (tools : GoTools W).

Lemma collectDecl_foldl onlyExported pkgPath path decls funcs :
  foldl (collectDecl tools onlyExported pkgPath path) funcs decls =
  foldl (λ m info, addFunc info m) funcs
    ((λ fn, declInfo (IsExported tools (declName fn)) pkgPath path fn)
       <$> filter (λ fn, ¬ (onlyExported = true
                            ∧ IsExported tools (declName fn) = false))
             decls).
Proof.
  revert funcs. induction decls as [|fn decls IH]; intros funcs; [done|].
  cbn [foldl]. rewrite IH. rewrite filter_cons. unfold collectDecl at 1.
  destruct (decide (¬ (onlyExported = true
                       ∧ IsExported tools (declName fn) = false))) as [Hk|Hk].
  - assert (onlyExported && negb (IsExported tools (declName fn)) = false)
      as ->; [|done].
    destruct onlyExported, (IsExported tools (declName fn)); try done.
    exfalso. by apply Hk.
  - assert (onlyExported && negb (IsExported tools (declName fn)) = true)
      as ->; [|done].
    destruct onlyExported, (IsExported tools (declName fn)); try done;
      exfalso; apply Hk; intros [? ?]; congruence.
Qed.

Lemma collectFile_foldl ref onlyExported pkgFilter w funcs path :
  collectFile sys tools ref onlyExported pkgFilter w funcs path =
  foldl (λ m info, addFunc info m) funcs
    (fileInfos sys tools ref onlyExported pkgFilter w path).
Proof.
  unfold collectFile, fileInfos.
  destruct (gitShowFile sys ref path w) as [src|]; [|done].
  destruct (ParseFile tools path src) as [file|]; [|done]. simpl.
  destruct (negb (String.eqb pkgFilter "")
            && negb (isInfix pkgFilter (pkgPathOf tools path file))); [done|].
  apply collectDecl_foldl.
Qed.

Lemma collectFiles_foldl ref onlyExported pkgFilter w files funcs :
  foldl (collectFile sys tools ref onlyExported pkgFilter w) funcs files =
  foldl (λ m info, addFunc info m) funcs
    (visitedInfos sys tools ref onlyExported pkgFilter w files).
Proof.
  revert funcs. induction files as [|path files IH]; intros funcs; [done|].
  cbn [foldl]. unfold visitedInfos. cbn [flat_map].
  rewrite foldl_app, <- collectFile_foldl. apply IH.
Qed.

End SnapshotProofs.

Lemma addFunc_foldl_Inventory infos funcs :
  Inventory funcs → Inventory (foldl (λ m info, addFunc info m) funcs infos).
Proof.
  revert funcs. induction infos as [|i infos IH]; intros funcs H; [done|].
  cbn [foldl]. by apply IH, Inventory_addFunc.
Qed.

(** Last write wins. *)
Lemma addFunc_foldl_lookup infos funcs k :
  foldl (λ m info, addFunc info m) funcs infos !! k =
  match last (filter (λ i, keyOf i = k) infos) with
  | Some i => Some i
  | None => funcs !! k
  end.
Proof.
  revert funcs. induction infos as [|i infos IH]; intros funcs; [done|].
  cbn [foldl]. rewrite IH, filter_cons. unfold addFunc at 1.
  destruct (decide (keyOf i = k)) as [E|N].
  - destruct (filter (λ i0, keyOf i0 = k) infos) as [|j l] eqn:F.
    + simpl. rewrite E. apply lookup_insert_eq.
    + rewrite last_cons_cons.
      destruct (last (j :: l)) eqn:L; [done|]. by apply last_None in L.
  - destruct (last (filter (λ i0, keyOf i0 = k) infos)); [done|].
    by apply lookup_insert_ne.
Qed.




Section SnapshotTheorems.
Context {W : Type} (sys : Sys W) (tools : GoTools W).

Lemma collectFuncs_Done ref repoRoot onlyExported pkgFilter w funcs :
  collectFuncs sys tools ref repoRoot onlyExported pkgFilter w = Done funcs →
  ∃ files,
    gitListGoFiles tools ref w = Done files ∧
    funcs = foldl (λ m info, addFunc info m) ∅
              (visitedInfos sys tools ref onlyExported pkgFilter w files).
Proof.
  unfold collectFuncs.
  destruct (gitListGoFiles tools ref w) as [files|msg]; [|done].
  intros [= <-]. exists files. split; [done|]. apply collectFiles_foldl.
Qed.

(** X20. The snapshot builder returns an inventory: every record is
    stored under the key made of its own package, receiver and name.
    This is the assumption under which the claims on the diff engine
    are proved. *)
Theorem collectFuncs_Inventory (ref repoRoot : string) (onlyExported : bool)
    (pkgFilter : string) (w : W) (funcs : FuncSet) :
  collectFuncs sys tools ref repoRoot onlyExported pkgFilter w = Done funcs →
  Inventory funcs.
Proof.
  intros H. apply collectFuncs_Done in H as (files & _ & ->).
  apply addFunc_foldl_Inventory, Inventory_empty.
Qed.

(** X21. Last write wins: under each key the inventory holds the record
    of the last declaration with that key, in the order in which files
    are listed and declarations are met; a key that no declaration has
    is absent. *)
Theorem collectFuncs_last_wins (ref repoRoot : string) (onlyExported : bool)
    (pkgFilter : string) (w : W) (funcs : FuncSet) :
  collectFuncs sys tools ref repoRoot onlyExported pkgFilter w = Done funcs →
  ∃ files,
    gitListGoFiles tools ref w = Done files ∧
    ∀ k, funcs !! k =
         last (filter (λ i, keyOf i = k)
                 (visitedInfos sys tools ref onlyExported pkgFilter w files)).
Proof.
  intros H. apply collectFuncs_Done in H as (files & Hf & ->).
  exists files. split; [done|]. intros k.
  rewrite addFunc_foldl_lookup, lookup_empty.
  by destruct (last _).
Qed.



(** X23. Errors of the snapshot builder: it fails exactly when
    [git ls-tree] fails, with that error wrapped; a file that cannot be
    read or parsed is skipped, so the inventory is the one of the
    listing without these files. *)
Theorem collectFuncs_errors (ref repoRoot : string) (onlyExported : bool)
    (pkgFilter : string) (w : W) :
  match gitLsTree tools ref w with
  | Failed msg =>
      collectFuncs sys tools ref repoRoot onlyExported pkgFilter w
      = Failed ("git ls-tree failed for ref " +:+ ref +:+ ": " +:+ msg)
  | Done out =>
      collectFuncs sys tools ref repoRoot onlyExported pkgFilter w
      = Done (foldl (collectFile sys tools ref onlyExported pkgFilter w) ∅
                (filter (λ path, loads sys tools ref w path = true)
                   (goFilesOf (Split out LF))))
  end.
Proof.
  unfold collectFuncs, gitListGoFiles.
  destruct (gitLsTree tools ref w) as [out|msg]; [|done]. f_equal.
  generalize (∅ : FuncSet). induction (goFilesOf (Split out LF)) as [|p l IH];
    intros funcs; [done|].
  cbn [foldl]. rewrite filter_cons.
  destruct (decide (loads sys tools ref w p = true)) as [Hl|Hl].
  - cbn [foldl]. apply IH.
  - rewrite <- IH. f_equal. unfold collectFile, loads in *.
    destruct (gitShowFile sys ref p w) as [src|]; [|done].
    destruct (ParseFile tools p src) as [file|]; [|done].
    exfalso. apply Hl. apply bool_decide_eq_true_2. eauto.
Qed.

End SnapshotTheorems.

Lemma collectFuncs_sample :
  collectFuncs (sampleSys sampleFiles) sampleTools "dev" "" false "" tt
  = Done sampleSnapshot.
Proof. vm_compute. reflexivity. Qed.

Lemma collectFuncs_Inventory_witness : Inventory sampleSnapshot.
Proof.
  apply (collectFuncs_Inventory (sampleSys sampleFiles) sampleTools
           "dev" "" false "" tt sampleSnapshot).
  apply collectFuncs_sample.
Defined.

Lemma collectFuncs_last_wins_witness :
  ∃ files,
    gitListGoFiles sampleTools "dev" tt = Done files ∧
    ∀ k, sampleSnapshot !! k =
         last (filter (λ i, keyOf i = k)
                 (visitedInfos (sampleSys sampleFiles) sampleTools "dev"
                    false "" tt files)).
Proof.
  apply (collectFuncs_last_wins (sampleSys sampleFiles) sampleTools
           "dev" "" false "" tt sampleSnapshot).
  apply collectFuncs_sample.
Defined.


Lemma formatReceiver_pointerToOther fl : pointerToOther fl → formatReceiver fl = "".
Proof.
  intros (names & x & rest & -> & Hx). simpl.
  destruct x; try done. by destruct (Hx name).
Qed.

(** X24. A method whose receiver is a pointer to something other than
    an identifier (for instance an instantiated generic type) gets the
    empty receiver, the key of a free function; so of two such methods
    of one package with the same name only the later one is kept, even
    when their receiver types differ. *)
Theorem pointer_receiver_collision {W : Type} (tools : GoTools W)
    (pkgPath path1 path2 : string) (fn1 fn2 : FuncDecl) (funcs : FuncSet) :
  pointerToOther (declRecv fn1) → pointerToOther (declRecv fn2) →
  declName fn1 = declName fn2 →
  keyOf (declInfo (IsExported tools (declName fn2)) pkgPath path2 fn2)
  = mkFuncKey pkgPath "" (declName fn2) ∧
  collectDecl tools false pkgPath path2
    (collectDecl tools false pkgPath path1 funcs fn1) fn2
  = collectDecl tools false pkgPath path2 funcs fn2.
Proof.
  intros H1 H2 Hn. unfold collectDecl, addFunc, keyOf, declInfo. simpl.
  rewrite (formatReceiver_pointerToOther _ H1),
    (formatReceiver_pointerToOther _ H2), Hn.
  split; [done|]. apply insert_insert_eq.
Qed.

Lemma pointer_receiver_collision_witness :
  let fn1 := mkFuncDecl "Push" (Some [(["s"], StarExpr OtherExpr)])
               (Some [(["x"], Ident "int")]) None 3 5 in
  let fn2 := mkFuncDecl "Push"
               (Some [(["q"], StarExpr (SelectorExpr (Ident "p") "Q"))])
               (Some [(["x"], Ident "string")]) None 11 12 in
  keyOf (declInfo (IsExported sampleTools (declName fn2)) "main" "a.go" fn2)
  = mkFuncKey "main" "" (declName fn2) ∧
  collectDecl sampleTools false "main" "a.go"
    (collectDecl sampleTools false "main" "a.go" ∅ fn1) fn2
  = collectDecl sampleTools false "main" "a.go" ∅ fn2.
Proof.
  apply (pointer_receiver_collision sampleTools "main" "a.go" "a.go").
  - exists ["s"], OtherExpr, []. by split.
  - exists ["q"], (SelectorExpr (Ident "p") "Q"), []. by split.
  - reflexivity.
Defined.

Global Instance goFileName_dec f : Decision (goFileName f).
Proof. unfold goFileName. apply _. Defined.

Lemma goFilesOf_filter lines :
  goFilesOf lines = filter goFileName (TrimSpace <$> lines).
Proof.
  induction lines as [|l rest IH]; [done|].
  cbn [goFilesOf fmap list_fmap]. rewrite filter_cons, <- IH.
  destruct (decide (goFileName (TrimSpace l))) as [(N & H1 & H2)|G].
  - destruct (String.eqb_spec (TrimSpace l) ""); [done|]. by rewrite H1, H2.
  - destruct (String.eqb_spec (TrimSpace l) "") as [E|N]; [done|].
    destruct (HasSuffix (TrimSpace l) ".go") eqn:H1,
             (HasSuffix (TrimSpace l) "_test.go") eqn:H2; simpl; try done.
    exfalso. apply G. by unfold goFileName.
Qed.

(** X25. The listing of a revision: [gitListGoFiles] fails with the
    wrapped error when [git ls-tree] fails. Otherwise it returns
    exactly the lines of the output that, with the white space at
    their ends cut, are non-empty and end in [.go] but not in
    [_test.go]: all of them, trimmed, in the order of the output and
    as often as they occur. *)
Theorem gitListGoFiles_files {W : Type} (tools : GoTools W) (ref : string)
    (w : W) :
  match gitLsTree tools ref w with
  | Failed msg =>
      gitListGoFiles tools ref w
      = Failed ("git ls-tree failed for ref " +:+ ref +:+ ": " +:+ msg)
  | Done out =>
      ∃ files,
        gitListGoFiles tools ref w = Done files ∧
        files = filter goFileName (TrimSpace <$> Split out LF) ∧
        files `sublist_of` (TrimSpace <$> Split out LF) ∧
        Forall goFileName files ∧
        ∀ line, line ∈ Split out LF → goFileName (TrimSpace line) →
          TrimSpace line ∈ files
  end.
Proof.
  unfold gitListGoFiles. destruct (gitLsTree tools ref w) as [out|msg]; [|done].
  exists (goFilesOf (Split out LF)). split; [done|].
  rewrite goFilesOf_filter. split; [done|].
  split; [apply sublist_filter|].
  split.
  - apply Forall_forall. intros f Hf. by apply list_elem_of_filter in Hf as [? _].
  - intros line Hin Hgo. apply list_elem_of_filter. split; [done|].
    apply list_elem_of_fmap. eauto.
Qed.

(** The two models of [strings.TrimSpace] agree: the trimmed text is
    empty exactly when the emptiness test holds. *)
Lemma trimLeftSpace_empty_aux n s :
  (String.length s ≤ n)%nat →
  TrimSpace_empty (trimLeftSpace s) = TrimSpace_empty s.
Proof.
  revert s. induction n as [|n IH]; intros s Hn.
  { destruct s; [done|simpl in Hn; lia]. }
  destruct s as [|c1 s1]; [done|]. simpl in Hn.
  cbn [trimLeftSpace TrimSpace_empty].
  destruct (asciiSpace c1) eqn:E1; [apply IH; lia|].
  destruct s1 as [|c2 s2].
  { cbn [TrimSpace_empty]. by rewrite E1. }
  simpl in Hn.
  destruct (space2 c1 c2) eqn:E2; [apply IH; lia|].
  destruct s2 as [|c3 s3].
  { cbn [TrimSpace_empty]. by rewrite E1, E2. }
  simpl in Hn.
  destruct (space3 c1 c2 c3) eqn:E3; [apply IH; lia|].
  cbn [TrimSpace_empty]. by rewrite E1, E2, E3.
Qed.

Lemma TrimSpace_empty_iff s : TrimSpace s = "" ↔ TrimSpace_empty s = true.
Proof.
  unfold TrimSpace.
  rewrite <- (trimLeftSpace_empty_aux (String.length s) s) by lia.
  destruct (trimLeftSpace s) as [|c t]; [done|].
  cbn [trimRightSpace]. by destruct (TrimSpace_empty (String c t)).
Qed.

(** ** From two snapshots to the diff *)

(** X26. For two snapshots made by the snapshot builder the three
    classes are set algebra on their keys: the new keys are those of
    the from side that the to side lacks, the removed keys those of the
    to side that the from side lacks, and the changed keys are shared. *)
Theorem snapshot_diff_keys {W : Type} (sys : Sys W) (tools : GoTools W)
    (fromRef toRef repoRoot : string) (onlyExported : bool)
    (pkgFilter : string) (w : W) (from to : FuncSet)
    (fromOrder toOrder : list (FuncKey * FuncInfo)) :
  collectFuncs sys tools fromRef repoRoot onlyExported pkgFilter w = Done from →
  collectFuncs sys tools toRef repoRoot onlyExported pkgFilter w = Done to →
  ranges from fromOrder → ranges to toOrder →
  let d := diffFuncsIn fromOrder toOrder from to in
  keySet (NewFuncs d) = dom from ∖ dom to ∧
  keySet (RemovedFuncs d) = dom to ∖ dom from ∧
  pairKeySet (ChangedFuncs d) ⊆ dom from ∩ dom to.
Proof.
  intros Hf Ht Hfo Hto_o d.
  assert (Inventory from) as If.
  { apply collectFuncs_Done in Hf as (files & _ & ->).
    apply addFunc_foldl_Inventory, Inventory_empty. }
  assert (Inventory to) as It.
  { apply collectFuncs_Done in Ht as (files & _ & ->).
    apply addFunc_foldl_Inventory, Inventory_empty. }
  pose proof (new_key_iff fromOrder toOrder from to If Hfo) as HN.
  pose proof (removed_key_iff fromOrder toOrder from to It Hto_o) as HR.
  pose proof (changed_key_iff fromOrder toOrder from to If Hfo) as HC.
  fold d in HN, HR, HC.
  split; [|split].
  - apply set_eq. intros k.
    rewrite HN, elem_of_difference, elem_of_dom, not_elem_of_dom. done.
  - apply set_eq. intros k.
    rewrite HR, elem_of_difference, elem_of_dom, not_elem_of_dom. done.
  - intros k Hk. apply HC in Hk as (f & t & Hf' & Ht' & _).
    apply elem_of_intersection. split; apply elem_of_dom; eauto.
Qed.

Lemma collectFuncs_dev :
  collectFuncs (sampleSys sampleFiles) revisionTools "dev" "" false "" tt
  = Done devSnapshot.
Proof. vm_compute. reflexivity. Qed.

Lemma collectFuncs_master :
  collectFuncs (sampleSys sampleFiles) revisionTools "master" "" false "" tt
  = Done masterSnapshot.
Proof. vm_compute. reflexivity. Qed.

(** The two revisions of the small repository differ in every class:
    [Push] is new, [Pop] is removed and [helper] is changed. *)
Example snapshot_diff_sample :
  let d := diffFuncs devSnapshot masterSnapshot in
  Name <$> NewFuncs d = ["Push"] ∧
  Name <$> RemovedFuncs d = ["Pop"] ∧
  (λ pair : FuncInfo * FuncInfo, (Name pair.1, StartLine pair.1, StartLine pair.2))
    <$> ChangedFuncs d = [("helper", 7, 8)].
Proof. vm_compute. repeat split. Qed.

Lemma snapshot_diff_keys_witness :
  let d := diffFuncs devSnapshot masterSnapshot in
  keySet (NewFuncs d) = dom devSnapshot ∖ dom masterSnapshot ∧
  keySet (RemovedFuncs d) = dom masterSnapshot ∖ dom devSnapshot ∧
  pairKeySet (ChangedFuncs d) ⊆ dom devSnapshot ∩ dom masterSnapshot.
Proof.
  apply (snapshot_diff_keys (sampleSys sampleFiles) revisionTools "dev"
           "master" "" false "" tt devSnapshot masterSnapshot
           (map_to_list devSnapshot) (map_to_list masterSnapshot)).
  - apply collectFuncs_dev.
  - apply collectFuncs_master.
  - apply ranges_map_to_list.
  - apply ranges_map_to_list.
Defined.

(** ** Bodies that cannot be loaded *)

Lemma isIdenticalBody_blank_l b : isIdenticalBody "" b = false.
Proof. done. Qed.

Lemma isIdenticalBody_blank_r a : isIdenticalBody a "" = false.
Proof.
  unfold isIdenticalBody. change (normalizeBody "") with "".
  by destruct (String.eqb_spec (normalizeBody a) "").
Qed.

Lemma sideSection_unavailable ref info body :
  TrimSpace_empty body = true →
  isInfix "_function body unavailable_" (sideSection ref info body) = true.
Proof.
  intros H. unfold sideSection. rewrite H. cbv beta iota. cbn [negb].
  rewrite <- !append_assoc. do 2 apply isInfix_app_r. apply isInfix_suffix.
Qed.

Lemma changedFuncContent_side {W} (sys : Sys W) needle fromRef toRef
    fromInfo toInfo fromBody toBody :
  isInfix needle (sideSection fromRef fromInfo fromBody) = true ∨
  isInfix needle (sideSection toRef toInfo toBody) = true →
  isInfix needle
    (changedFuncContent sys fromRef toRef fromInfo toInfo fromBody toBody)
  = true.
Proof.
  intros H. unfold changedFuncContent. apply isInfix_app_r.
  unfold changedFuncText.
  set (S1 := sideSection fromRef fromInfo fromBody) in *.
  set (S2 := sideSection toRef toInfo toBody) in *.
  rewrite <- !append_assoc. do 2 apply isInfix_app_r.
  destruct H as [H|H].
  - apply isInfix_app_r. by apply isInfix_app_l.
  - by apply isInfix_app_l.
Qed.

(** X27. A pair of which one body cannot be loaded is never flagged
    identical: its artifact says that a function body is unavailable
    and is written under the name without the identical prefix. *)
Theorem missing_body_not_flagged {W : Type} (sys : Sys W)
    (outDir fromRef toRef : string) (fromInfo toInfo : FuncInfo) (w w1 : W) :
  outDir ≠ "" →
  MkdirAll sys outDir w = (w1, None) →
  gitShowFile sys fromRef (File fromInfo) w1 = None ∨
  gitShowFile sys toRef (File toInfo) w1 = None →
  ∃ fromBody toBody,
    loadBody sys fromRef fromInfo w1 = Some fromBody ∧
    loadBody sys toRef toInfo w1 = Some toBody ∧
    isIdenticalBody fromBody toBody = false ∧
    let baseName := changedFuncFilenameWithRecv fromInfo in
    let content :=
      changedFuncContent sys fromRef toRef fromInfo toInfo fromBody toBody in
    let path := pathJoin sys outDir baseName in
    isInfix "_function body unavailable_" content = true ∧
    writeChangedFuncFile sys outDir fromRef toRef fromInfo toInfo w =
      match WriteFile sys path content w1 with
      | (w2, None) => Some (w2, (baseName, None))
      | (w2, Some msg) =>
          Some (w2, ("", Some ("write " +:+ path +:+ ": " +:+ msg)))
      end.
Proof.
  intros Hout Hmk Hmiss.
  destruct (loadBody_is_Some sys fromRef fromInfo w1) as [fromBody Hfrom].
  destruct (loadBody_is_Some sys toRef toInfo w1) as [toBody Hto].
  exists fromBody, toBody. split; [done|]. split; [done|].
  assert (fromBody = "" ∨ toBody = "") as Hblank.
  { unfold loadBody in Hfrom, Hto. destruct Hmiss as [E|E]; rewrite E in *.
    - left. congruence.
    - right. congruence. }
  assert (isIdenticalBody fromBody toBody = false) as Hflag.
  { destruct Hblank as [-> | ->];
      [apply isIdenticalBody_blank_l|apply isIdenticalBody_blank_r]. }
  split; [done|]. intros baseName content path. split.
  - apply changedFuncContent_side.
    destruct Hblank as [-> | ->]; [left|right];
      by apply sideSection_unavailable.
  - unfold writeChangedFuncFile.
    apply String.eqb_neq in Hout. rewrite Hout, Hmk, Hfrom, Hto. simpl.
    unfold changedFuncBaseName. rewrite Hflag.
    fold baseName. fold content. fold path.
    by destruct (WriteFile sys path content w1) as [w2 [msg|]].
Qed.

Lemma missing_body_not_flagged_witness :
  let sys := sampleSys noFiles in
  ∃ fromBody toBody,
    loadBody sys "dev" sampleF tt = Some fromBody ∧
    loadBody sys "master" sampleFShifted tt = Some toBody ∧
    isIdenticalBody fromBody toBody = false ∧
    let baseName := changedFuncFilenameWithRecv sampleF in
    let content :=
      changedFuncContent sys "dev" "master" sampleF sampleFShifted
        fromBody toBody in
    let path := pathJoin sys "out" baseName in
    isInfix "_function body unavailable_" content = true ∧
    writeChangedFuncFile sys "out" "dev" "master" sampleF sampleFShifted tt =
      match WriteFile sys path content tt with
      | (w2, None) => Some (w2, (baseName, None))
      | (w2, Some msg) =>
          Some (w2, ("", Some ("write " +:+ path +:+ ": " +:+ msg)))
      end.
Proof.
  apply (missing_body_not_flagged (sampleSys noFiles) "out" "dev" "master"
           sampleF sampleFShifted tt tt).
  - discriminate.
  - reflexivity.
  - by left.
Defined.

(** ** Signatures *)

Lemma fieldListWith_Some print (l : list Field) :
  fieldListWith print (Some l) = Join (flat_map (fieldParts print) l) ", ".
Proof. by destruct l. Qed.

Lemma fieldParts_app print (names1 names2 : list string) ty :
  names1 ≠ [] → names2 ≠ [] →
  fieldParts print (names1 ++ names2, ty)
  = fieldParts print (names1, ty) ++ fieldParts print (names2, ty).
Proof.
  intros H1 H2. unfold fieldParts. cbn [fst snd].
  destruct names1 as [|a l1]; [done|]. destruct names2 as [|b l2]; [done|].
  rewrite <- fmap_app. done.
Qed.

Lemma fieldList_regroup print (before after : list Field) names1 names2 ty :
  names1 ≠ [] → names2 ≠ [] →
  fieldListWith print (Some (before ++ (names1 ++ names2, ty) :: after))
  = fieldListWith print (Some (before ++ (names1, ty) :: (names2, ty) :: after)).
Proof.
  intros H1 H2. rewrite !fieldListWith_Some, !flat_map_app. cbn [flat_map].
  by rewrite fieldParts_app, <- app_assoc.
Qed.

(** X28. Regrouping parameters is not a signature change: a field that
    declares several names with one type prints like separate fields
    for the parts of its name list, so [f(a, b int)] and
    [f(a int, b int)] have the same signature; the same holds for named
    results. *)
Theorem formatSignature_regroup (before after : list Field)
    (names1 names2 : list string) (ty : Expr) (other : FieldList) :
  names1 ≠ [] → names2 ≠ [] →
  let grouped := Some (before ++ (names1 ++ names2, ty) :: after) in
  let separate := Some (before ++ (names1, ty) :: (names2, ty) :: after) in
  fieldListToString grouped = fieldListToString separate ∧
  formatSignature grouped other = formatSignature separate other ∧
  formatSignature other grouped = formatSignature other separate.
Proof.
  intros H1 H2 grouped separate.
  pose proof (fieldList_regroup exprToString before after names1 names2 ty H1 H2)
    as E.
  fold grouped separate in E.
  unfold fieldListToString, formatSignature, formatSignatureWith.
  by rewrite E.
Qed.

Lemma formatSignature_regroup_witness :
  let grouped := Some ([] ++ (["a"] ++ ["b"], Ident "int") :: []) in
  let separate := Some ([] ++ (["a"], Ident "int") :: (["b"], Ident "int") :: []) in
  fieldListToString grouped = fieldListToString separate ∧
  formatSignature grouped None = formatSignature separate None ∧
  formatSignature None grouped = formatSignature None separate.
Proof.
  apply (formatSignature_regroup [] [] ["a"] ["b"] (Ident "int") None);
    discriminate.
Defined.

Lemma fieldListWith_erase (fl : FieldList) :
  fieldsAll (λ e, exprToString (eraseExpr e) = exprToString e) fl →
  fieldListWith exprToString (eraseFields fl) = fieldListWith exprToString fl.
Proof.
  destruct fl as [l|]; [|done]. unfold eraseFields, fieldsAll.
  cbn [option_map]. intros H.
  rewrite !fieldListWith_Some. f_equal.
  induction H as [|[names ty] l Hty Hl IH]; [done|].
  cbn [map flat_map]. rewrite IH. f_equal.
  unfold fieldParts. cbn [fst snd]. simpl in Hty. by rewrite Hty.
Qed.

Lemma exprToString_erase e : exprToString (eraseExpr e) = exprToString e.
Proof.
  induction e using Expr_nested_ind; cbn [eraseExpr exprToString];
    try congruence.
  fold (eraseFields params). fold (eraseFields results).
  unfold formatSignatureWith.
  by rewrite !fieldListWith_erase.
Qed.

(** X29. What a signature does not show: two types that differ only in
    the lengths of array types, the directions of channel types or the
    method sets of interface types, at any depth, print the same; so do
    two signatures whose parameter and result types differ only so. *)
Theorem signature_blind_spots (e1 e2 : Expr) (params1 params2 results1 results2 : FieldList) :
  (eraseExpr e1 = eraseExpr e2 → exprToString e1 = exprToString e2) ∧
  (eraseFields params1 = eraseFields params2 →
   eraseFields results1 = eraseFields results2 →
   formatSignature params1 results1 = formatSignature params2 results2).
Proof.
  split.
  - intros H. by rewrite <- (exprToString_erase e1), H, exprToString_erase.
  - intros Hp Hr. unfold formatSignature, formatSignatureWith.
    assert (∀ fl, fieldListWith exprToString (eraseFields fl)
                  = fieldListWith exprToString fl) as E.
    { intros fl. apply fieldListWith_erase. destruct fl as [l|]; [|done].
      simpl. apply Forall_forall. intros f _. apply exprToString_erase. }
    by rewrite <- (E params1), <- (E results1), Hp, Hr, !E.
Qed.

Lemma signature_blind_spots_witness :
  exprToString (ArrayType (Some OtherExpr) (ChanType 1 (Ident "int")))
  = exprToString (ArrayType None (ChanType 2 (Ident "int"))) ∧
  formatSignature (Some [(["buf"], ArrayType (Some OtherExpr) (Ident "byte"))]) None
  = formatSignature (Some [(["buf"], ArrayType None (Ident "byte"))]) None.
Proof.
  split.
  - apply (signature_blind_spots
             (ArrayType (Some OtherExpr) (ChanType 1 (Ident "int")))
             (ArrayType None (ChanType 2 (Ident "int"))) None None None None).
    reflexivity.
  - apply (signature_blind_spots OtherExpr OtherExpr
             (Some [(["buf"], ArrayType (Some OtherExpr) (Ident "byte"))])
             (Some [(["buf"], ArrayType None (Ident "byte"))]) None None);
      reflexivity.
Defined.
